(** * Chat backend: quality scoring, theme extraction, insights, feedback

    A shallow embedding of the analytics core of the chat application
    ([chat/utils.py], [chat/views.py], [chat/services/gemini.py]) together
    with the part of the persistence layer the views go through.

    Conventions of the embedding:
    - a Python [str] is a list of code points; the model covers the
      Latin-1 range (code points 0..255, one [ascii] each), which is closed
      under [str.lower()] and [str.strip()];
    - a Python [int] is a [Z]; a Python [float] is a [pyfloat]: an IEEE-754
      binary64 value, finite values being carried by the rational they denote;
    - a raised exception is the [Raise] branch of [result];
    - the relational store is a record of tables (lists of rows in creation
      order); timestamps are outside the model. *)

From Stdlib Require Import ZArith QArith Qround Qpower Qabs Qreduction Lqa Bool Ascii String List Lia Sorted Permutation.
From Stdlib Require Import Floats.SpecFloat.
Import ListNotations.

Set Implicit Arguments.

(** ** Exceptions and results *)

Definition pystr := list ascii.

Definition str (s : string) : pystr := list_ascii_of_string s.

Inductive exn : Type :=
| ZeroDivisionError
| OverflowError
| IntegrityError
| MultipleObjectsReturned
| GeminiServiceError (msg : pystr)
| OtherException (msg : pystr).

Inductive result (A : Type) : Type :=
| Ok (a : A)
| Raise (e : exn).

Arguments Ok {A} a.
Arguments Raise {A} e.

Definition bind {A B : Type} (r : result A) (k : A -> result B) : result B :=
  match r with
  | Ok a => k a
  | Raise e => Raise e
  end.

Notation "x <- r ;; k" := (bind r (fun x => k))
  (at level 61, r at next level, right associativity).

(** ** Binary64 arithmetic

    Python floats are IEEE-754 binary64 numbers and every operation returns
    the representable number nearest to the exact result, ties going to the
    even significand.  A finite float is carried by the rational it denotes
    (the sign of zero is not recorded). *)

Module Float64.

Open Scope Q_scope.

Inductive pyfloat : Type :=
| FFinite (q : Q)
| FInf (negative : bool)
| FNaN.

(** floor of the base-2 logarithm of a positive rational *)
Definition ilog2 (x : Q) : Z :=
  let c := (Z.log2 (Qnum x) - Z.log2 (Zpos (Qden x)))%Z in
  if Qle_bool (2 ^ c) x then c else (c - 1)%Z.

(** exponent of the last place of a binary64 number of magnitude 2^k:
    53 significant bits, subnormals below 2^-1022 *)
Definition fexp (k : Z) : Z := Z.max (k - 52) (-1074).

(** nearest integer, ties to even *)
Definition round_half_even (x : Q) : Z :=
  let f := Qfloor x in
  match Qcompare (x - inject_Z f) (1 # 2) with
  | Lt => f
  | Gt => (f + 1)%Z
  | Eq => if Z.even f then f else (f + 1)%Z
  end.

(** nearest multiple of the unit in the last place, for x > 0 *)
Definition rne_pos (x : Q) : Q :=
  let e := fexp (ilog2 x) in
  Qred (inject_Z (round_half_even (x / 2 ^ e)) * 2 ^ e).

Definition rne (x : Q) : Q :=
  match Qnum x with
  | Z0 => 0
  | Zpos _ => rne_pos x
  | Zneg _ => Qred (- rne_pos (- x))
  end.

Definition overflow_threshold : Q := 2 ^ 1024.

(** rounding of an exact result to a float: overflow gives an infinity *)
Definition round64 (x : Q) : pyfloat :=
  let r := rne x in
  if Qle_bool overflow_threshold (Qabs r) then FInf (Qnum r <? 0)%Z
  else FFinite r.

Definition is_neg (q : Q) : bool := (Qnum q <? 0)%Z.
Definition is_zero (q : Q) : bool := (Qnum q =? 0)%Z.

(** [x * y] on floats *)
Definition float_mul (x y : pyfloat) : pyfloat :=
  match x, y with
  | FNaN, _ | _, FNaN => FNaN
  | FFinite a, FFinite b => round64 (a * b)
  | FInf s, FInf t => FInf (xorb s t)
  | FInf s, FFinite b => if is_zero b then FNaN else FInf (xorb s (is_neg b))
  | FFinite a, FInf t => if is_zero a then FNaN else FInf (xorb (is_neg a) t)
  end.

(** [x + y] on floats *)
Definition float_add (x y : pyfloat) : pyfloat :=
  match x, y with
  | FNaN, _ | _, FNaN => FNaN
  | FFinite a, FFinite b => round64 (a + b)
  | FInf s, FInf t => if Bool.eqb s t then FInf s else FNaN
  | FInf s, FFinite _ => FInf s
  | FFinite _, FInf t => FInf t
  end.

(** [a / b] on ints: the correctly rounded quotient; Python raises
    [ZeroDivisionError] for a zero divisor and [OverflowError] when the
    quotient is too large for a float. *)
Definition int_truediv (a b : Z) : result pyfloat :=
  if (b =? 0)%Z then Raise ZeroDivisionError
  else match round64 (inject_Z a / inject_Z b) with
       | FFinite q => Ok (FFinite q)
       | _ => Raise OverflowError
       end.

(** conversion of an int operand in a mixed int/float operation *)
Definition float_of_int (n : Z) : result pyfloat :=
  match round64 (inject_Z n) with
  | FFinite q => Ok (FFinite q)
  | _ => Raise OverflowError
  end.

(** [x / y] on floats *)
Definition float_truediv (x y : pyfloat) : result pyfloat :=
  match x, y with
  | _, FFinite b =>
      if is_zero b then Raise ZeroDivisionError
      else match x with
           | FFinite a => Ok (round64 (a / b))
           | other => Ok (match other with
                          | FInf s => FInf (xorb s (is_neg b))
                          | o => o
                          end)
           end
  | FNaN, _ | _, FNaN => Ok FNaN
  | FInf _, FInf _ => Ok FNaN
  | FFinite _, FInf _ => Ok (FFinite 0)
  end.

(** a float literal denotes the float nearest to its decimal value *)
Definition literal (q : Q) : pyfloat := round64 q.

(** [round(x, 2)] on a float: CPython prints the exact value of [x] with two
    digits after the point, correctly rounded (ties to even), and reads the
    decimal string back as the nearest float; infinities and NaN round to
    themselves. *)
Definition round2 (x : pyfloat) : pyfloat :=
  match x with
  | FFinite q => round64 (inject_Z (round_half_even (q * 100)) / 100)
  | other => other
  end.

Definition float_leb (x y : pyfloat) : bool :=
  match x, y with
  | FNaN, _ | _, FNaN => false
  | FFinite a, FFinite b => Qle_bool a b
  | FInf s, FInf t => implb t s
  | FInf s, FFinite _ => s
  | FFinite _, FInf t => negb t
  end.

Definition float_ltb (x y : pyfloat) : bool :=
  match x, y with
  | FNaN, _ | _, FNaN => false
  | _, _ => negb (float_leb y x)
  end.

(** *** Reading of the Standard Library's binary64 specification, used to
    cross-check the rounding above on concrete operands *)

Definition SF_of_Z (n : Z) : spec_float := binary_normalize 53 1024 n 0 false.

Definition Q_of_SF (x : spec_float) : option Q :=
  match x with
  | S754_zero _ => Some 0
  | S754_finite s m e =>
      Some (Qred ((if s then -1 else 1) * inject_Z (Zpos m) * 2 ^ e))
  | _ => None
  end.

Definition finite_value (x : pyfloat) : option Q :=
  match x with
  | FFinite q => Some (Qred q)
  | _ => None
  end.

End Float64.
Export Float64.

(** ** Strings: the character classes of Python's [str] methods and of the
    [re] module, on the Latin-1 range *)

Module PyStr.

Definition code (c : ascii) : N := N_of_ascii c.

Definition in_range (lo hi : N) (c : ascii) : bool :=
  (lo <=? code c)%N && (code c <=? hi)%N.

(** the character class [[a-z]] *)
Definition is_az (c : ascii) : bool := in_range 97 122 c.

(** [str.isalnum()] *)
Definition isalnum (c : ascii) : bool :=
  in_range 48 57 c || in_range 65 90 c || in_range 97 122 c
  || in_range 170 170 c || in_range 178 179 c || in_range 181 181 c
  || in_range 185 186 c || in_range 188 190 c
  || in_range 192 214 c || in_range 216 246 c || in_range 248 255 c.

(** the class [\w] of a [str] pattern: alphanumeric or underscore *)
Definition is_word (c : ascii) : bool := isalnum c || in_range 95 95 c.

(** [str.isspace()] *)
Definition isspace (c : ascii) : bool :=
  in_range 9 13 c || in_range 28 32 c || in_range 133 133 c
  || in_range 160 160 c.

Definition lower_char (c : ascii) : ascii :=
  if in_range 65 90 c || in_range 192 214 c || in_range 216 222 c
  then ascii_of_N (code c + 32)
  else c.

(** [s.lower()] *)
Definition lower (s : pystr) : pystr := map lower_char s.

Fixpoint lstrip (s : pystr) : pystr :=
  match s with
  | c :: s' => if isspace c then lstrip s' else s
  | [] => []
  end.

Definition rstrip (s : pystr) : pystr := rev (lstrip (rev s)).

(** [s.strip()] *)
Definition strip (s : pystr) : pystr := rstrip (lstrip s).

Fixpoint pystr_eqb (a b : pystr) : bool :=
  match a, b with
  | [], [] => true
  | x :: a', y :: b' => Ascii.eqb x y && pystr_eqb a' b'
  | _, _ => false
  end.

(** [len(s)] *)
Definition len {A : Type} (l : list A) : Z := Z.of_nat (length l).

(** the truth value of an optional string: [None] and the empty string are
    false *)
Definition truthy (o : option pystr) : bool :=
  match o with
  | Some (_ :: _) => true
  | _ => false
  end.

(** *** [re.findall(r'\b[a-z]+\b', s)] *)

Definition is_word_at (o : option ascii) : bool :=
  match o with
  | Some c => is_word c
  | None => false
  end.

(** [\b] between [prev] and the head of [rest]: exactly one side is a word
    character, the outside of the string counting as a non-word character *)
Definition word_boundary (prev : option ascii) (rest : pystr) : bool :=
  xorb (is_word_at prev) (is_word_at (hd_error rest)).

(** the rest of [[a-z]+\b] once a letter [last] is consumed: the greedy
    repetition first takes a further letter and falls back to ending the
    repetition here when the pattern fails further on *)
Fixpoint match_letters (last : ascii) (rest : pystr) : option pystr :=
  let stop := if word_boundary (Some last) rest then Some [] else None in
  match rest with
  | c :: rest' =>
      if is_az c then
        match match_letters c rest' with
        | Some w => Some (c :: w)
        | None => stop
        end
      else stop
  | [] => stop
  end.

(** an attempt of the whole pattern at one position *)
Definition match_word (prev : option ascii) (s : pystr) : option pystr :=
  if word_boundary prev s then
    match s with
    | c :: rest =>
        if is_az c then option_map (cons c) (match_letters c rest) else None
    | [] => None
    end
  else None.

(** the scan of [findall]: attempts at successive positions, resuming after
    the end of each match; [skip] counts the characters of the last match
    still to be passed *)
Fixpoint findall_from (prev : option ascii) (s : pystr) (skip : nat)
  : list pystr :=
  match s with
  | [] => []
  | c :: s' =>
      match skip with
      | S k => findall_from (Some c) s' k
      | O =>
          match match_word prev s with
          | Some w => w :: findall_from (Some c) s' (length w - 1)
          | None => findall_from (Some c) s' 0
          end
      end
  end.

Definition findall_words (s : pystr) : list pystr := findall_from None s 0.

End PyStr.
Export PyStr.

(** ** The store: [chat/models.py] as seen through the object-relational
    mapper *)

Module Models.

Open Scope Z_scope.

(** Modelled from the spec: the model classes [Conversation] and [Message]
    of [chat/models.py], which is not among the sources.  A message has a
    role, [user] or [ai], a text and a sequence number within its
    conversation; a conversation has an optional title.  ([Feedback] is
    declared by the migration [0002_feedback].) *)
Inductive Role : Type := ROLE_USER | ROLE_AI.

Definition role_eqb (a b : Role) : bool :=
  match a, b with
  | ROLE_USER, ROLE_USER | ROLE_AI, ROLE_AI => true
  | _, _ => false
  end.

Record Conversation : Type := {
  conv_id : Z;
  conv_title : option pystr
}.

Record Message : Type := {
  msg_id : Z;
  msg_conversation : Z;
  msg_role : Role;
  msg_text : pystr;
  msg_sequence : Z
}.

Record Feedback : Type := {
  fb_id : Z;
  fb_message : Z;
  fb_rating : bool;
  fb_note : option pystr
}.

(** the three tables, rows in creation order, and the next primary keys *)
Record Store : Type := {
  conversations : list Conversation;
  messages : list Message;
  feedbacks : list Feedback;
  next_conversation_id : Z;
  next_message_id : Z;
  next_feedback_id : Z
}.

Definition empty_store : Store :=
  {| conversations := []; messages := []; feedbacks := [];
     next_conversation_id := 1; next_message_id := 1; next_feedback_id := 1 |}.

(** [sorted(rows, key=key)]: stable insertion sort, ascending *)
Fixpoint insert_asc {A : Type} (key : A -> Z) (x : A) (l : list A) : list A :=
  match l with
  | [] => [x]
  | y :: l' => if key y <=? key x then y :: insert_asc key x l' else x :: l
  end.

Definition sort_asc {A : Type} (key : A -> Z) (l : list A) : list A :=
  fold_left (fun acc x => insert_asc key x acc) l [].

(** [sorted(rows, key=key, reverse=True)]: descending, rows with equal keys
    staying in their original order *)
Fixpoint insert_desc {A : Type} (key : A -> Z) (x : A) (l : list A) : list A :=
  match l with
  | [] => [x]
  | y :: l' => if key y <=? key x then x :: l else y :: insert_desc key x l'
  end.

Definition sort_desc {A : Type} (key : A -> Z) (l : list A) : list A :=
  fold_right (insert_desc key) [] l.

(** [Conversation.objects.get(pk=pk)] *)
Definition get_conversation (s : Store) (pk : Z) : option Conversation :=
  find (fun c => conv_id c =? pk) (conversations s).

(** [Message.objects.get(pk=pk)] *)
Definition get_message (s : Store) (pk : Z) : option Message :=
  find (fun m => msg_id m =? pk) (messages s).

(** [conv.messages.all()] *)
Definition conversation_messages (s : Store) (conv : Conversation)
  : list Message :=
  filter (fun m => msg_conversation m =? conv_id conv) (messages s).

(** [conv.messages.filter(role=role)] *)
Definition messages_with_role (s : Store) (conv : Conversation) (role : Role)
  : list Message :=
  filter (fun m => role_eqb (msg_role m) role) (conversation_messages s conv).

(** the condition [message__in=msgs] on a feedback row *)
Definition message_in (msgs : list Message) (fb : Feedback) : bool :=
  existsb (fun m => msg_id m =? fb_message fb) msgs.

(** [Conversation.objects.create(title=title)] *)
Definition create_conversation (s : Store) (title : option pystr)
  : Conversation * Store :=
  let conv := {| conv_id := next_conversation_id s; conv_title := title |} in
  (conv,
   {| conversations := conversations s ++ [conv];
      messages := messages s;
      feedbacks := feedbacks s;
      next_conversation_id := next_conversation_id s + 1;
      next_message_id := next_message_id s;
      next_feedback_id := next_feedback_id s |}).

(** [conv.save()]: the row with the primary key of [conv] is overwritten *)
Definition save_conversation (s : Store) (conv : Conversation) : Store :=
  {| conversations :=
       map (fun c => if conv_id c =? conv_id conv then conv else c)
           (conversations s);
     messages := messages s;
     feedbacks := feedbacks s;
     next_conversation_id := next_conversation_id s;
     next_message_id := next_message_id s;
     next_feedback_id := next_feedback_id s |}.

(** Modelled from the spec: [Message.save] of [chat/models.py], which is not
    among the sources.  A message created without an explicit sequence gets
    "1 + count of existing messages in this conversation"; the pair
    (conversation, sequence) is unique in the table, a second row with the
    same pair raising [IntegrityError]. *)
Definition create_message (s : Store) (conv : Conversation) (role : Role)
  (text : pystr) : result (Message * Store) :=
  let sequence := 1 + len (conversation_messages s conv) in
  if existsb (fun m => msg_sequence m =? sequence) (conversation_messages s conv)
  then Raise IntegrityError
  else
    let msg := {| msg_id := next_message_id s;
                  msg_conversation := conv_id conv;
                  msg_role := role;
                  msg_text := text;
                  msg_sequence := sequence |} in
    Ok (msg,
        {| conversations := conversations s;
           messages := messages s ++ [msg];
           feedbacks := feedbacks s;
           next_conversation_id := next_conversation_id s;
           next_message_id := next_message_id s + 1;
           next_feedback_id := next_feedback_id s |}).

(** [Feedback.objects.create(message=message, rating=rating, note=note)];
    the one-to-one field makes a second row for the same message an
    [IntegrityError] *)
Definition create_feedback (s : Store) (message : Message) (rating : bool)
  (note : option pystr) : result (Feedback * Store) :=
  if existsb (fun fb => fb_message fb =? msg_id message) (feedbacks s)
  then Raise IntegrityError
  else
    let fb := {| fb_id := next_feedback_id s;
                 fb_message := msg_id message;
                 fb_rating := rating;
                 fb_note := note |} in
    Ok (fb,
        {| conversations := conversations s;
           messages := messages s;
           feedbacks := feedbacks s ++ [fb];
           next_conversation_id := next_conversation_id s;
           next_message_id := next_message_id s;
           next_feedback_id := next_feedback_id s + 1 |}).

(** [feedback.save()] on an existing row *)
Definition save_feedback (s : Store) (fb : Feedback) : Store :=
  {| conversations := conversations s;
     messages := messages s;
     feedbacks :=
       map (fun f => if fb_id f =? fb_id fb then fb else f) (feedbacks s);
     next_conversation_id := next_conversation_id s;
     next_message_id := next_message_id s;
     next_feedback_id := next_feedback_id s |}.

End Models.
Export Models.

(** ** [chat/utils.py] *)

Module Utils.

Open Scope Z_scope.

Definition STOP_WORDS : list pystr := map str [
    "the"; "a"; "an"; "and"; "or"; "but"; "in"; "on"; "at"; "to"; "for"; "of"; "with"; "by";
    "is"; "was"; "are"; "were"; "be"; "been"; "being"; "have"; "has"; "had"; "do"; "does"; "did";
    "this"; "that"; "these"; "those"; "i"; "you"; "he"; "she"; "it"; "we"; "they";
    "not"; "no"; "yes"; "very"; "too"; "so"; "just"; "only"; "also"; "more"; "most";
    "what"; "which"; "who"; "when"; "where"; "why"; "how"; "can"; "could"; "should"; "would";
    "from"; "about"; "into"; "through"; "during"; "before"; "after"; "above"; "below"; "up"; "down";
    "out"; "off"; "over"; "under"; "again"; "further"; "then"; "once"; "here"; "there"; "when";
    "where"; "why"; "how"; "all"; "each"; "both"; "few"; "more"; "most"; "other"; "some"; "such";
    "no"; "nor"; "not"; "only"; "own"; "same"; "so"; "than"; "too"; "very"; "s"; "t"; "can";
    "will"; "just"; "don"; "should"; "now"; "response"; "answer"; "helpful"; "not"; "wasn"; "didn"
  ]%string.

(** [w in STOP_WORDS] *)
Definition is_stop_word (w : pystr) : bool := existsb (pystr_eqb w) STOP_WORDS.

(** [calculate_quality_score(conversation)] *)
Definition calculate_quality_score (s : Store) (conversation : Conversation)
  : result (option pyfloat) :=
  let ai_messages := messages_with_role s conversation ROLE_AI in
  let total_ai := len ai_messages in
  if total_ai =? 0 then Ok None
  else
    let feedback_count := len (filter (message_in ai_messages) (feedbacks s)) in
    if feedback_count =? 0 then Ok None
    else
      let positive_count :=
        len (filter (fun fb => message_in ai_messages fb && fb_rating fb)
                    (feedbacks s)) in
      positive_ratio <- int_truediv positive_count feedback_count ;;
      feedback_rate <- int_truediv feedback_count total_ai ;;
      Ok (Some (round2
                  (float_mul
                     (float_add (float_mul positive_ratio (literal (7 # 10)))
                                (float_mul feedback_rate (literal (3 # 10))))
                     (literal 100)))).

(** *** [collections.Counter]: an insertion-ordered table of counts *)

Definition Counter := list (pystr * Z).

(** [counter[w] = counter.get(w, 0) + 1]: an existing key keeps its place, a
    new key goes last *)
Fixpoint counter_incr (w : pystr) (tbl : Counter) : Counter :=
  match tbl with
  | [] => [(w, 1)]
  | (k, c) :: tbl' =>
      if pystr_eqb k w then (k, c + 1) :: tbl'
      else (k, c) :: counter_incr w tbl'
  end.

(** [counter.update(words)] *)
Definition counter_update (tbl : Counter) (words : list pystr) : Counter :=
  fold_left (fun t w => counter_incr w t) words tbl.

(** [counter.most_common(n)], that is [heapq.nlargest(n, counter.items(),
    key=itemgetter(1))]: the [n] entries of largest count, from the most
    common to the least, entries of equal count in the order first
    encountered; nothing for [n <= 0].  The three paths of [nlargest]
    ([max] for [n == 1], [sorted(...)[:n]] for [n >= len], the heap
    otherwise) all return this list. *)
Definition most_common (n : Z) (tbl : Counter) : Counter :=
  firstn (Z.to_nat n) (sort_desc snd tbl).

Record Theme : Type := { word : pystr; count : Z }.

(** the words of one note that are counted *)
Definition note_words (note : pystr) : list pystr :=
  filter (fun w => negb (is_stop_word w) && (3 <? len w))
         (findall_words (lower note)).

(** the loop of [extract_feedback_themes] over the notes *)
Definition count_words (feedback_notes : list (option pystr)) : Counter :=
  fold_left
    (fun word_counter note =>
       match note with
       | Some ((_ :: _) as text) => counter_update word_counter (note_words text)
       | _ => word_counter
       end)
    feedback_notes [].

(** [extract_feedback_themes(feedback_notes, top_n)] *)
Definition extract_feedback_themes (feedback_notes : list (option pystr))
  (top_n : Z) : list Theme :=
  map (fun wc => {| word := fst wc; count := snd wc |})
      (most_common top_n (count_words feedback_notes)).

End Utils.
Export Utils.

(** ** The insights report and the prompts handed to the generator *)

Module Report.

(** a Python number that is an [int] on one path and a [float] on another *)
Inductive number : Type :=
| NInt (n : Z)
| NFloat (x : pyfloat).

(** [round(v, 2)]: an [int] is returned as it is *)
Definition round_number (v : number) : number :=
  match v with
  | NInt n => NInt n
  | NFloat x => NFloat (round2 x)
  end.

Record Usage : Type := {
  total_conversations : Z;
  total_messages : Z;
  total_user_messages : Z;
  total_ai_messages : Z
}.

Record FeedbackStats : Type := {
  total_feedback : Z;
  positive_feedback : Z;
  negative_feedback : Z;
  satisfaction_rate : number;
  feedback_rate : number
}.

Record Distribution : Type := {
  excellent : Z;
  good : Z;
  fair : Z;
  poor : Z
}.

Record ConversationScore : Type := {
  cs_id : Z;
  cs_title : option pystr;
  cs_quality_score : option pyfloat;
  cs_total_messages : Z;
  cs_feedback_count : Z
}.

Record QualityScores : Type := {
  average : option pyfloat;
  distribution : Distribution;
  scored_conversations : list ConversationScore
}.

Record InsightsReport : Type := {
  usage : Usage;
  feedback : FeedbackStats;
  themes : list Theme;
  quality_scores : QualityScores;
  summary : option pystr
}.

(** The summary prompt is a fixed template text into which the statistics
    are formatted; the model keeps the values that are formatted in, in the
    order of the template, and leaves the rendering of the text out. *)
Record SummaryStats : Type := {
  in_total_conversations : Z;
  in_total_messages : Z;
  in_total_user_messages : Z;
  in_total_ai_messages : Z;
  in_total_feedback : Z;
  in_satisfaction_rate : number;
  in_feedback_rate : number;
  in_positive_feedback : Z;
  in_negative_feedback : Z;
  in_average : option pyfloat;
  in_distribution : Distribution;
  in_top_themes : option (list pystr)
}.

Inductive Prompt : Type :=
| TextPrompt (text : pystr)
| SummaryPrompt (stats : SummaryStats).

(** one call of [generate_reply(history=..., prompt=..., timeout_s=10)] *)
Record GeneratorCall : Type := {
  call_history : list (Role * pystr);
  call_prompt : Prompt
}.

Definition Generator : Type := list (Role * pystr) -> Prompt -> result pystr.

End Report.
Export Report.

(** ** [chat/services/gemini.py] *)

Module Gemini.

(** what the module reads from its surroundings: the environment variable,
    whether [from google import genai] succeeds, and the client call
    together with [getattr(resp, "text", None)] *)
Record Environment : Type := {
  GEMINI_API_KEY : option pystr;
  genai_import : result unit;
  generate_content : Prompt -> result (option pystr)
}.

(** [str(e)] *)
Definition exn_str (e : exn) : pystr :=
  match e with
  | ZeroDivisionError => str "division by zero"
  | OverflowError => str "overflow"
  | IntegrityError => str "integrity error"
  | MultipleObjectsReturned => str "multiple objects returned"
  | GeminiServiceError msg => msg
  | OtherException msg => msg
  end.

Definition generate_reply (env : Environment) : Generator :=
  fun history prompt =>
    if negb (truthy (GEMINI_API_KEY env)) then
      Raise (GeminiServiceError
               (str "Gemini API key is missing; set GEMINI_API_KEY in .env"))
    else
      match genai_import env with
      | Raise e =>
          Raise (GeminiServiceError
                   (str "Gemini client not available: " ++ exn_str e))
      | Ok _ =>
          match
            (resp_text <- generate_content env prompt ;;
             let text :=
               strip (match resp_text with Some t => t | None => [] end) in
             if negb (truthy (Some text)) then
               Raise (GeminiServiceError (str "Empty response from Gemini"))
             else Ok text)
          with
          | Ok text => Ok text
          | Raise e =>
              Raise (GeminiServiceError
                       (str "Gemini request failed: " ++ exn_str e))
          end
      end.

End Gemini.

(** ** [chat/serializers.py]: validation of request data *)

Module Serializers.

Open Scope Z_scope.

(** a JSON field of a request: absent, [null], a string, or a value of
    another type *)
Inductive Field (A : Type) : Type :=
| Absent
| Null
| Value (v : A)
| WrongType.

Arguments Absent {A}.
Arguments Null {A}.
Arguments Value {A} v.
Arguments WrongType {A}.

(** [CharField(max_length=..., allow_blank=..., trim_whitespace=True)] on a
    string: [None] stands for a validation error *)
Definition validate_char (max_length : Z) (allow_blank : bool) (data : pystr)
  : option pystr :=
  match strip data with
  | [] => if allow_blank then Some [] else None
  | value =>
      if (max_length <? len value) || existsb (fun c => (code c =? 0)%N) value
      then None
      else Some value
  end.

(** [CreateMessageSerializer]: the validated text *)
Definition CreateMessageSerializer (text : Field pystr) : option pystr :=
  match text with
  | Value data => validate_char 1000 false data
  | _ => None
  end.

Record FeedbackData : Type := {
  data_rating : Field bool;
  data_note : Field pystr
}.

Record ValidFeedback : Type := {
  valid_rating : bool;
  valid_note : option pystr
}.

(** [CreateFeedbackSerializer]: [valid_note] is
    [validated_data.get("note")] *)
Definition CreateFeedbackSerializer (data : FeedbackData)
  : option ValidFeedback :=
  match data_rating data with
  | Value rating =>
      match data_note data with
      | Absent | Null => Some {| valid_rating := rating; valid_note := None |}
      | Value text =>
          option_map
            (fun v => {| valid_rating := rating; valid_note := Some v |})
            (validate_char 1000 true text)
      | WrongType => None
      end
  | _ => None
  end.

(** [UpdateConversationSerializer] with its [validate_title]: the result is
    [validated_data.get("title")] *)
Definition UpdateConversationSerializer (title : Field pystr)
  : option (option pystr) :=
  match title with
  | Absent | Null => Some None
  | Value text =>
      option_map
        (fun v => match strip v with [] => None | t => Some t end)
        (validate_char 200 true text)
  | WrongType => None
  end.

End Serializers.
Export Serializers.

(** ** [chat/views.py] *)

Module Views.

Open Scope Z_scope.

Inductive Body : Type :=
| Detail (msg : pystr)
| ConversationBody (conv : Conversation) (quality_score : option pyfloat)
| MessagesBody (user_message ai_message : Message)
| FeedbackBody (fb : Feedback)
| InsightsBody (report : InsightsReport).

Record Response : Type := { status : Z; body : Body }.

(** what a request leaves behind: the response (or the exception that
    escapes the view), the store, and the calls made to the generator *)
Record Outcome : Type := {
  response : result Response;
  store_after : Store;
  generator_calls : list GeneratorCall
}.

Definition respond (code : Z) (b : Body) (s : Store)
  (calls : list GeneratorCall) : Outcome :=
  {| response := Ok {| status := code; body := b |};
     store_after := s; generator_calls := calls |}.

Definition escape (e : exn) (s : Store) (calls : list GeneratorCall)
  : Outcome :=
  {| response := Raise e; store_after := s; generator_calls := calls |}.

Definition HTTP_200_OK := 200.
Definition HTTP_201_CREATED := 201.
Definition HTTP_400_BAD_REQUEST := 400.
Definition HTTP_404_NOT_FOUND := 404.
Definition HTTP_502_BAD_GATEWAY := 502.

(** the bodies of the error responses the framework writes (404 of
    [get_object_or_404], 400 of [is_valid(raise_exception=True)]) are
    abbreviated *)
Definition not_found := Detail (str "Not found.").
Definition invalid := Detail (str "Invalid input.").

(** [ConversationListCreateView.post]; a title that is not a string is
    taken as absent *)
Definition ConversationListCreateView_post (s : Store) (title : Field pystr)
  : Outcome :=
  let title := match title with Value t => Some t | _ => None end in
  let (conv, s1) :=
    create_conversation s (if truthy title then title else None) in
  match calculate_quality_score s1 conv with
  | Ok q => respond HTTP_201_CREATED (ConversationBody conv q) s1 []
  | Raise e => escape e s1 []
  end.

(** [ConversationDetailView.patch] *)
Definition ConversationDetailView_patch (s : Store) (pk : Z)
  (title : Field pystr) : Outcome :=
  match get_conversation s pk with
  | None => respond HTTP_404_NOT_FOUND not_found s []
  | Some conv =>
      match UpdateConversationSerializer title with
      | None => respond HTTP_400_BAD_REQUEST invalid s []
      | Some title =>
          let conv := {| conv_id := conv_id conv; conv_title := title |} in
          let s1 := save_conversation s conv in
          match calculate_quality_score s1 conv with
          | Ok q => respond HTTP_200_OK (ConversationBody conv q) s1 []
          | Raise e => escape e s1 []
          end
      end
  end.

(** the title derived from the first user message *)
Definition auto_title (text : pystr) : pystr :=
  let title := strip (firstn 50 text) in
  if 50 <? len text then title ++ str "..." else title.

(** [MessageListCreateView.post] *)
Definition MessageListCreateView_post (generate_reply : Generator)
  (s : Store) (pk : Z) (data_text : Field pystr) : Outcome :=
  match get_conversation s pk with
  | None => respond HTTP_404_NOT_FOUND not_found s []
  | Some conv =>
      match CreateMessageSerializer data_text with
      | None => respond HTTP_400_BAD_REQUEST invalid s []
      | Some text =>
          match create_message s conv ROLE_USER text with
          | Raise e => escape e s []
          | Ok (user_msg, s1) =>
              let history :=
                rev (firstn 10
                       (map (fun m => (msg_role m, msg_text m))
                            (sort_desc msg_sequence
                                       (conversation_messages s1 conv)))) in
              let call := {| call_history := history;
                             call_prompt := TextPrompt text |} in
              match generate_reply history (TextPrompt text) with
              | Raise (GeminiServiceError msg) =>
                  respond HTTP_502_BAD_GATEWAY (Detail msg) s1 [call]
              | Raise e => escape e s1 [call]
              | Ok reply =>
                  match create_message s1 conv ROLE_AI reply with
                  | Raise e => escape e s1 [call]
                  | Ok (ai_msg, s2) =>
                      let s3 :=
                        if negb (truthy (conv_title conv))
                           && (len (messages_with_role s2 conv ROLE_USER) =? 1)
                        then
                          save_conversation s2
                            {| conv_id := conv_id conv;
                               conv_title := Some (auto_title text) |}
                        else s2 in
                      respond HTTP_201_CREATED (MessagesBody user_msg ai_msg)
                              s3 [call]
                  end
              end
          end
      end
  end.

(** [Feedback.objects.get_or_create(message=message, defaults=...)] *)
Definition get_or_create_feedback (s : Store) (message : Message)
  (rating : bool) (note : option pystr) : result (Feedback * bool * Store) :=
  match filter (fun fb => fb_message fb =? msg_id message) (feedbacks s) with
  | [] =>
      created <- create_feedback s message rating note ;;
      Ok (fst created, true, snd created)
  | [fb] => Ok (fb, false, s)
  | _ => Raise MultipleObjectsReturned
  end.

(** [note or '']: the empty string for [None] *)
Definition or_empty (note : option pystr) : pystr :=
  match note with
  | Some t => t
  | None => []
  end.

(** [MessageFeedbackView.post] *)
Definition MessageFeedbackView_post (s : Store) (message_id : Z)
  (data : FeedbackData) : Outcome :=
  match get_message s message_id with
  | None => respond HTTP_404_NOT_FOUND not_found s []
  | Some message =>
      if negb (role_eqb (msg_role message) ROLE_AI) then
        respond HTTP_400_BAD_REQUEST
                (Detail (str "Feedback can only be provided for AI messages."))
                s []
      else
        match CreateFeedbackSerializer data with
        | None => respond HTTP_400_BAD_REQUEST invalid s []
        | Some valid =>
            match get_or_create_feedback s message (valid_rating valid)
                    (Some (or_empty (valid_note valid))) with
            | Raise e => escape e s []
            | Ok (fb, true, s1) =>
                respond HTTP_201_CREATED (FeedbackBody fb) s1 []
            | Ok (fb, false, s1) =>
                let fb1 :=
                  {| fb_id := fb_id fb;
                     fb_message := fb_message fb;
                     fb_rating := valid_rating valid;
                     fb_note :=
                       match valid_note valid with
                       | Some note => Some (or_empty (Some note))
                       | None => fb_note fb
                       end |} in
                respond HTTP_200_OK (FeedbackBody fb1) (save_feedback s1 fb1) []
            end
        end
  end.

(** [request.query_params.get('include_summary', 'true').lower() != 'false'] *)
Definition include_summary_of (param : option pystr) : bool :=
  negb (pystr_eqb
          (lower (match param with Some v => v | None => str "true" end))
          (str "false")).

(** [sum(scores)]: the additions from left to right, starting from [0]
    (interpreters that sum floats with a compensated algorithm may differ in
    the last place; no statement below depends on the value of a sum of
    several scores) *)
Definition py_sum (scores : list pyfloat) : pyfloat :=
  fold_left float_add scores (FFinite 0).

(** the truth value of a float *)
Definition float_truthy (x : pyfloat) : bool :=
  match x with
  | FFinite q => negb (is_zero q)
  | _ => true
  end.

Fixpoint map_result {A B : Type} (f : A -> result B) (l : list A)
  : result (list B) :=
  match l with
  | [] => Ok []
  | x :: l' =>
      y <- f x ;;
      ys <- map_result f l' ;;
      Ok (y :: ys)
  end.

(** [a / b * 100 if b > 0 else 0] *)
Definition percentage (a b : Z) : result number :=
  if b >? 0 then
    ratio <- int_truediv a b ;;
    Ok (NFloat (float_mul ratio (literal 100)))
  else Ok (NInt 0).

(** one turn of the loop over the conversations *)
Definition score_conversation (s : Store) (conv : Conversation)
  : result ConversationScore :=
  quality_score <- calculate_quality_score s conv ;;
  let ai_messages := messages_with_role s conv ROLE_AI in
  Ok {| cs_id := conv_id conv;
        cs_title := conv_title conv;
        cs_quality_score := quality_score;
        cs_total_messages := len (conversation_messages s conv);
        cs_feedback_count :=
          len (filter (message_in ai_messages) (feedbacks s)) |}.

Definition defined_scores (l : list ConversationScore) : list pyfloat :=
  flat_map (fun c => match cs_quality_score c with
                     | Some q => [q]
                     | None => []
                     end) l.

Definition count_if (f : pyfloat -> bool) (l : list pyfloat) : Z :=
  len (filter f l).

Definition quality_distribution_of (scores : list pyfloat) : Distribution :=
  {| excellent := count_if (fun q => float_leb (literal 80) q) scores;
     good := count_if (fun q => float_leb (literal 60) q
                                && float_ltb q (literal 80)) scores;
     fair := count_if (fun q => float_leb (literal 40) q
                                && float_ltb q (literal 60)) scores;
     poor := count_if (fun q => float_ltb q (literal 40)) scores |}.

(** [round(sum(scores) / len(scores), 2) if scores else None] *)
Definition average_of (scores : list pyfloat) : result (option pyfloat) :=
  match scores with
  | [] => Ok None
  | _ =>
      n <- float_of_int (len scores) ;;
      mean <- float_truediv (py_sum scores) n ;;
      Ok (Some (round2 mean))
  end.

(** the notes handed to the theme extraction: those that are neither null
    nor empty, newest feedback first *)
Definition feedback_notes (s : Store) : list (option pystr) :=
  map fb_note
      (filter (fun fb => truthy (fb_note fb)) (rev (feedbacks s))).

(** [InsightsView.get].  The conversations are visited in the order of the
    table; the order by update time that the model class asks for is outside
    the model. *)
Definition InsightsView_get (generate_reply : Generator) (s : Store)
  (include_summary_param : option pystr) : Outcome :=
  let include_summary := include_summary_of include_summary_param in
  let total_conversations := len (conversations s) in
  let total_messages := len (messages s) in
  let total_user_messages :=
    len (filter (fun m => role_eqb (msg_role m) ROLE_USER) (messages s)) in
  let total_ai_messages :=
    len (filter (fun m => role_eqb (msg_role m) ROLE_AI) (messages s)) in
  let total_feedback := len (feedbacks s) in
  let positive_feedback := len (filter fb_rating (feedbacks s)) in
  let negative_feedback :=
    len (filter (fun fb => negb (fb_rating fb)) (feedbacks s)) in
  match
    (satisfaction_rate <- percentage positive_feedback total_feedback ;;
     feedback_rate <- percentage total_feedback total_ai_messages ;;
     let top_themes := extract_feedback_themes (feedback_notes s) 10 in
     conversations_with_scores <-
       map_result (score_conversation s) (conversations s) ;;
     let scores := defined_scores conversations_with_scores in
     let quality_distribution := quality_distribution_of scores in
     avg_quality_score <- average_of scores ;;
     Ok (satisfaction_rate, feedback_rate, top_themes,
         conversations_with_scores, quality_distribution, avg_quality_score))
  with
  | Raise e => escape e s []
  | Ok (satisfaction_rate, feedback_rate, top_themes,
        conversations_with_scores, quality_distribution, avg_quality_score) =>
      let report (summary : option pystr) :=
        InsightsBody
          {| usage :=
               {| total_conversations := total_conversations;
                  total_messages := total_messages;
                  total_user_messages := total_user_messages;
                  total_ai_messages := total_ai_messages |};
             feedback :=
               {| total_feedback := total_feedback;
                  positive_feedback := positive_feedback;
                  negative_feedback := negative_feedback;
                  satisfaction_rate := round_number satisfaction_rate;
                  feedback_rate := round_number feedback_rate |};
             themes := top_themes;
             quality_scores :=
               {| average := avg_quality_score;
                  distribution := quality_distribution;
                  scored_conversations := firstn 20 conversations_with_scores |};
             summary := summary |} in
      if include_summary then
        let summary_prompt :=
          SummaryPrompt
            {| in_total_conversations := total_conversations;
               in_total_messages := total_messages;
               in_total_user_messages := total_user_messages;
               in_total_ai_messages := total_ai_messages;
               in_total_feedback := total_feedback;
               in_satisfaction_rate := satisfaction_rate;
               in_feedback_rate := feedback_rate;
               in_positive_feedback := positive_feedback;
               in_negative_feedback := negative_feedback;
               in_average :=
                 match avg_quality_score with
                 | Some a => if float_truthy a then Some a else None
                 | None => None
                 end;
               in_distribution := quality_distribution;
               in_top_themes :=
                 match top_themes with
                 | [] => None
                 | _ => Some (map word (firstn 5 top_themes))
                 end |} in
        let call := {| call_history := []; call_prompt := summary_prompt |} in
        match generate_reply [] summary_prompt with
        | Ok text => respond HTTP_200_OK (report (Some text)) s [call]
        | Raise (GeminiServiceError _) =>
            respond HTTP_200_OK (report None) s [call]
        | Raise e => escape e s [call]
        end
      else respond HTTP_200_OK (report None) s []
  end.

End Views.
Export Views.

(** * Notions used in the statements *)

(** the query parameter that switches the summary off *)
Definition no_summary : option pystr := Some (str "false").


(** a generator that always fails with the classified error *)
Definition failing_generator : Generator :=
  fun _ _ => Raise (GeminiServiceError (str "API Error")).

(** a text given by its code points *)
Definition codes (l : list nat) : pystr := map ascii_of_nat l.

(** a generator that always answers *)
Definition echo_generator : Generator := fun _ _ => Ok (str "AI Response").

(** the store after one conversation was created without title *)
Definition one_conversation : Store :=
  snd (create_conversation empty_store None).

(** *** Well-formed stores and the stores the API can produce *)

Record store_ok (s : Store) : Prop := {
  ok_message_ids : NoDup (map msg_id (messages s));
  ok_message_fresh :
    forall m, In m (messages s) -> (msg_id m < next_message_id s)%Z;
  ok_feedback_ids : NoDup (map fb_id (feedbacks s));
  ok_feedback_fresh :
    forall fb, In fb (feedbacks s) -> (fb_id fb < next_feedback_id s)%Z;
  ok_feedback_on_ai :
    forall fb, In fb (feedbacks s) ->
      exists m, In m (messages s) /\ msg_id m = fb_message fb
                /\ msg_role m = ROLE_AI;
  ok_one_feedback : NoDup (map fb_message (feedbacks s))
}.

(** one request that can change the store *)
Inductive api_step (s : Store) : Store -> Prop :=
| step_create_conversation (title : Field pystr) :
    api_step s (store_after (ConversationListCreateView_post s title))
| step_patch_conversation (pk : Z) (title : Field pystr) :
    api_step s (store_after (ConversationDetailView_patch s pk title))
| step_post_message (generate_reply : Generator) (pk : Z)
    (data_text : Field pystr) :
    api_step s
      (store_after (MessageListCreateView_post generate_reply s pk data_text))
| step_post_feedback (message_id : Z) (data : FeedbackData) :
    api_step s (store_after (MessageFeedbackView_post s message_id data)).

(** the stores reached from the empty store through the API *)
Inductive reachable : Store -> Prop :=
| reachable_empty : reachable empty_store
| reachable_step (s s' : Store) :
    reachable s -> api_step s s' -> reachable s'.

(** the feedback row after an update by validated data *)
Definition updated_feedback (fb : Feedback) (valid : ValidFeedback)
  : Feedback :=
  {| fb_id := fb_id fb;
     fb_message := fb_message fb;
     fb_rating := valid_rating valid;
     fb_note := match valid_note valid with
                | Some note => Some note
                | None => fb_note fb
                end |}.

(** a store reached by creating a conversation, posting a message and
    rating the reply *)
Definition thumbs_up : FeedbackData :=
  {| data_rating := Value true; data_note := Value (str "Great response!") |}.

Definition rated_store : Store :=
  store_after
    (MessageFeedbackView_post
       (store_after
          (MessageListCreateView_post echo_generator
             (store_after (ConversationListCreateView_post empty_store Absent))
             1 (Value (str "Hello"))))
       2 thumbs_up).

(** *** Words of a text *)

Fixpoint take_while (p : ascii -> bool) (s : pystr) : pystr :=
  match s with
  | c :: s' => if p c then c :: take_while p s' else []
  | [] => []
  end.

Fixpoint drop_while (p : ascii -> bool) (s : pystr) : pystr :=
  match s with
  | c :: s' => if p c then drop_while p s' else s
  | [] => []
  end.

(** the text begins with a character of the class [p] *)
Definition starts_with (p : ascii -> bool) (s : pystr) : bool :=
  match s with
  | c :: _ => p c
  | [] => false
  end.

(** the maximal runs of characters of the class [p], from left to right: a
    character of the class opens a run, or extends the run that the next
    character starts; any other character separates runs *)
Fixpoint maximal_runs (p : ascii -> bool) (s : pystr) : list pystr :=
  match s with
  | [] => []
  | c :: s' =>
      if p c then
        match maximal_runs p s' with
        | r :: rs => if starts_with p s' then (c :: r) :: rs else [c] :: r :: rs
        | [] => [[c]]
        end
      else maximal_runs p s'
  end.

(** every word character of the text is a letter a-z *)
Definition only_letter_words (s : pystr) : bool :=
  forallb (fun c => implb (is_word c) (is_az c)) s.

(** the candidate words of a collection of notes: the matches of the
    pattern in each note that is present and not empty, lower-cased, in the
    order of the input *)
Definition candidate_words (feedback_notes : list (option pystr))
  : list pystr :=
  flat_map (fun note => match note with
                        | Some text => findall_words (lower text)
                        | None => []
                        end) feedback_notes.

(** the candidate words that are counted *)
Definition counted_words (feedback_notes : list (option pystr))
  : list pystr :=
  filter (fun w => negb (is_stop_word w) && (3 <? len w)%Z)
         (candidate_words feedback_notes).

(** position of the first occurrence of [w] in [l] ([length l] without
    occurrence) *)
Fixpoint first_index (w : pystr) (l : list pystr) : nat :=
  match l with
  | [] => 0
  | x :: l' => if pystr_eqb x w then 0 else S (first_index w l')
  end.

(** number of occurrences of [w] in [l] *)
Definition occurrences (w : pystr) (l : list pystr) : Z :=
  len (filter (pystr_eqb w) l).

(** the order of the output of the theme extraction: larger count first,
    and for equal counts the word seen first *)
Definition ranked_before (seen : list pystr) (a b : Theme) : Prop :=
  (count b < count a)%Z
  \/ (count a = count b
      /\ (first_index (word a) seen < first_index (word b) seen)%nat).

(** [counter.get(w, 0)] *)
Fixpoint counter_get (w : pystr) (tbl : Counter) : Z :=
  match tbl with
  | [] => 0
  | (k, c) :: tbl' => if pystr_eqb k w then c else counter_get w tbl'
  end.

(** larger key first and, for equal keys, smaller rank first *)
Definition key_rank_order {A : Type} (key : A -> Z) (rank : A -> nat)
  (a b : A) : Prop :=
  (key b < key a)%Z \/ (key a = key b /\ (rank a < rank b)%nat).

(** *** The quality score as the specification writes it *)

(** [round((positiveCount / feedbackCount * 0.7
            + feedbackCount / totalAI * 0.3) * 100, 2)] *)
Definition score_formula (positive_count feedback_count total_ai : Z)
  : result pyfloat :=
  positive_ratio <- int_truediv positive_count feedback_count ;;
  feedback_rate <- int_truediv feedback_count total_ai ;;
  Ok (round2
        (float_mul
           (float_add (float_mul positive_ratio (literal (7 # 10)))
                      (float_mul feedback_rate (literal (3 # 10))))
           (literal 100))).

(** the float written with two decimal places as [k / 100] *)
Definition two_decimals (k : Z) : pyfloat := round64 (inject_Z k / 100).

(** [a / b * 100] rounded to two decimal places *)
Definition percent_rounded (a b : Z) : result pyfloat :=
  ratio <- int_truediv a b ;;
  Ok (round2 (float_mul ratio (literal 100))).

(** the counts a quality score is computed from *)
Definition total_ai_of (s : Store) (conv : Conversation) : Z :=
  len (messages_with_role s conv ROLE_AI).

Definition feedback_count_of (s : Store) (conv : Conversation) : Z :=
  len (filter (message_in (messages_with_role s conv ROLE_AI)) (feedbacks s)).

Definition positive_count_of (s : Store) (conv : Conversation) : Z :=
  len (filter (fun fb => message_in (messages_with_role s conv ROLE_AI) fb
                         && fb_rating fb)
              (feedbacks s)).

(** three AI messages of one conversation, rated up, up and down *)
Definition three_ratings : Store :=
  {| conversations := [{| conv_id := 1; conv_title := Some (str "Test") |}];
     messages :=
       [{| msg_id := 1; msg_conversation := 1; msg_role := ROLE_AI;
           msg_text := str "AI 1"; msg_sequence := 1 |};
        {| msg_id := 2; msg_conversation := 1; msg_role := ROLE_AI;
           msg_text := str "AI 2"; msg_sequence := 2 |};
        {| msg_id := 3; msg_conversation := 1; msg_role := ROLE_AI;
           msg_text := str "AI 3"; msg_sequence := 3 |}];
     feedbacks :=
       [{| fb_id := 1; fb_message := 1; fb_rating := true; fb_note := None |};
        {| fb_id := 2; fb_message := 2; fb_rating := true; fb_note := None |};
        {| fb_id := 3; fb_message := 3; fb_rating := false; fb_note := None |}];
     next_conversation_id := 2;
     next_message_id := 4;
     next_feedback_id := 4 |}.

(** the floats denoted by the literals [0.7] and [0.3] *)
Definition c07 : Q := rne (7 # 10).
Definition c03 : Q := rne (3 # 10).

(** the conversation of [three_ratings] *)
Definition rated_conversation : Conversation :=
  {| conv_id := 1; conv_title := Some (str "Test") |}.

(** *** Cross-check of the rounding against the Standard Library's
    specification of binary64 *)

(** the score before [round], with the operations of [SpecFloat] *)
Definition SF_score (p f t : Z) : spec_float :=
  SFmul 53 1024
    (SFadd 53 1024
       (SFmul 53 1024 (SFdiv 53 1024 (SF_of_Z p) (SF_of_Z f))
                      (SFdiv 53 1024 (SF_of_Z 7) (SF_of_Z 10)))
       (SFmul 53 1024 (SFdiv 53 1024 (SF_of_Z f) (SF_of_Z t))
                      (SFdiv 53 1024 (SF_of_Z 3) (SF_of_Z 10))))
    (SF_of_Z 100).

(** the same value with the operations of [Float64] *)
Definition model_score (p f t : Z) : option Q :=
  match int_truediv p f, int_truediv f t with
  | Ok a, Ok b =>
      finite_value
        (float_mul
           (float_add (float_mul a (literal (7 # 10)))
                      (float_mul b (literal (3 # 10))))
           (literal 100))
  | _, _ => None
  end.

Definition same_value (a b : option Q) : bool :=
  match a, b with
  | Some x, Some y => Qeq_bool x y
  | _, _ => false
  end.

Definition upto (n : nat) : list Z := map Z.of_nat (seq 0 (S n)).

(** agreement for all counts with [p <= f <= t <= n], [1 <= f] *)
Definition scores_agree (n : nat) : bool :=
  forallb
    (fun t =>
       forallb
         (fun f =>
            forallb
              (fun p =>
                 same_value (Q_of_SF (SF_score p f t)) (model_score p f t))
              (upto (Z.to_nat f)))
         (map Z.succ (upto (Z.to_nat t - 1))))
    (map Z.succ (upto (n - 1))).

(** * The query parameters and the read-only views *)

(** ** [int(text)] of the interpreter, on a string *)

Module PyInt.

Open Scope Z_scope.

(** the characters [int] skips before and after a number: tab to carriage
    return, the space, and the two spaces above the ASCII range *)
Definition int_space (c : ascii) : bool :=
  in_range 9 13 c || in_range 32 32 c || in_range 133 133 c
  || in_range 160 160 c.

Definition is_digit (c : ascii) : bool := in_range 48 57 c.

Definition digit_value (c : ascii) : Z := Z.of_N (code c) - 48.

Fixpoint skip_spaces (s : pystr) : pystr :=
  match s with
  | c :: s' => if int_space c then skip_spaces s' else s
  | [] => []
  end.

(** what follows a digit: further digits, each preceded by at most one
    underscore; the result is the value and the number of digits read *)
Fixpoint more_digits (value n : Z) (s : pystr) : option (Z * Z) :=
  match s with
  | [] => Some (value, n)
  | c :: s' =>
      if is_digit c then more_digits (value * 10 + digit_value c) (n + 1) s'
      else if (code c =? 95)%N then
        match s' with
        | d :: s'' =>
            if is_digit d
            then more_digits (value * 10 + digit_value d) (n + 1) s''
            else None
        | [] => None
        end
      else None
  end.

Definition digits (s : pystr) : option (Z * Z) :=
  match s with
  | c :: s' => if is_digit c then more_digits (digit_value c) 1 s' else None
  | [] => None
  end.

(** [int(text)] in base ten; [None] stands for [ValueError].
    [max_str_digits] is the interpreter's limit on the number of digits
    ([sys.get_int_max_str_digits()], 4300 unless configured, 0 for no
    limit); it applies to numbers of more than 640 digits. *)
Definition int_of_str (max_str_digits : Z) (text : pystr) : option Z :=
  let number := rev (skip_spaces (rev (skip_spaces text))) in
  let (negative, magnitude) :=
    match number with
    | c :: rest =>
        if (code c =? 45)%N then (true, rest)
        else if (code c =? 43)%N then (false, rest)
        else (false, number)
    | [] => (false, number)
    end in
  match digits magnitude with
  | Some (value, n) =>
      if (640 <? n) && (0 <? max_str_digits) && (max_str_digits <? n)
      then None
      else Some (if negative then - value else value)
  | None => None
  end.

End PyInt.
Export PyInt.

(** ** [parse_int_query_param] of [chat/utils.py] *)

Module QueryParams.

Open Scope Z_scope.

(** the query string of a request: the pairs of name and value in the order
    of the URL *)
Definition QueryDict := list (pystr * pystr).

(** [query_params.get(name)]: the last value given for the name *)
Definition query_get (query_params : QueryDict) (name : pystr)
  : option pystr :=
  match filter (fun kv => pystr_eqb (fst kv) name) query_params with
  | [] => None
  | kv :: rest => Some (snd (last rest kv))
  end.

(** [parse_int_query_param(request, param_name, default, min_val, max_val)];
    a missing parameter makes [int] convert the default itself *)
Definition parse_int_query_param (max_str_digits : Z)
  (query_params : QueryDict) (param_name : pystr) (default : Z)
  (min_val max_val : option Z) : Z :=
  let converted :=
    match query_get query_params param_name with
    | Some text => int_of_str max_str_digits text
    | None => Some default
    end in
  match converted with
  | Some value =>
      let value :=
        match min_val with Some lo => Z.max value lo | None => value end in
      let value :=
        match max_val with Some hi => Z.min value hi | None => value end in
      value
  | None => default
  end.

End QueryParams.
Export QueryParams.

(** ** The [get] methods of [chat/views.py] *)

Module Queries.

Open Scope Z_scope.

(** the bodies of the answers; the body of the 404 that [get_object_or_404]
    makes the framework write is abbreviated *)
Inductive PageBody : Type :=
| PageDetail (msg : pystr)
| ConversationItem (conv : Conversation) (quality_score : option pyfloat)
| ConversationPage (results : list (Conversation * option pyfloat))
    (count offset limit : Z)
| MessagePage (results : list (Message * option Feedback)) (lastSeq : Z)
| FeedbackItem (fb : Feedback).

Record PageResponse : Type := { page_status : Z; page_body : PageBody }.

Definition answer (code : Z) (b : PageBody) : result PageResponse :=
  Ok {| page_status := code; page_body := b |}.

(** [ConversationSerializer(conv).data] *)
Definition conversation_data (s : Store) (conv : Conversation)
  : result (Conversation * option pyfloat) :=
  quality_score <- calculate_quality_score s conv ;;
  Ok (conv, quality_score).

(** [message.feedback], the reverse of the one-to-one field: [None] stands
    for [Feedback.DoesNotExist] *)
Definition message_feedback (s : Store) (message : Message)
  : result (option Feedback) :=
  match filter (fun fb => fb_message fb =? msg_id message) (feedbacks s) with
  | [] => Ok None
  | [fb] => Ok (Some fb)
  | _ => Raise MultipleObjectsReturned
  end.

(** [MessageSerializer(message).data]: the nested feedback is [null] for a
    message without feedback *)
Definition message_data (s : Store) (message : Message)
  : result (Message * option Feedback) :=
  fb <- message_feedback s message ;;
  Ok (message, fb).

Section Views.

(** the interpreter's limit on the digits of an integer literal *)
Variable max_str_digits : Z.

(** [order_by("-updated_at")]: the update times are outside the model, the
    order they give to the rows of the table is taken as given *)
Variable order_by_updated_at : list Conversation -> list Conversation.

(** [ConversationListCreateView.get] *)
Definition ConversationListCreateView_get (s : Store)
  (query_params : QueryDict) : result PageResponse :=
  let qs := order_by_updated_at (conversations s) in
  let limit :=
    parse_int_query_param max_str_digits query_params (str "limit") 20
                          (Some 1) (Some 100) in
  let offset :=
    parse_int_query_param max_str_digits query_params (str "offset") 0
                          (Some 0) None in
  let items := firstn (Z.to_nat limit) (skipn (Z.to_nat offset) qs) in
  data <- map_result (conversation_data s) items ;;
  answer HTTP_200_OK (ConversationPage data (len (conversations s)) offset limit).

(** [ConversationDetailView.get] *)
Definition ConversationDetailView_get (s : Store) (pk : Z)
  : result PageResponse :=
  match get_conversation s pk with
  | None => answer HTTP_404_NOT_FOUND (PageDetail (str "Not found."))
  | Some conv =>
      data <- conversation_data s conv ;;
      answer HTTP_200_OK (ConversationItem (fst data) (snd data))
  end.

(** [MessageListCreateView.get] *)
Definition MessageListCreateView_get (s : Store) (pk : Z)
  (query_params : QueryDict) : result PageResponse :=
  match get_conversation s pk with
  | None => answer HTTP_404_NOT_FOUND (PageDetail (str "Not found."))
  | Some conv =>
      let since :=
        parse_int_query_param max_str_digits query_params (str "since") 0
                              (Some 0) None in
      let limit :=
        parse_int_query_param max_str_digits query_params (str "limit") 50
                              (Some 1) (Some 200) in
      let qs := conversation_messages s conv in
      let qs :=
        if negb (since =? 0)
        then filter (fun m => since <? msg_sequence m) qs
        else qs in
      let results := firstn (Z.to_nat limit) (sort_asc msg_sequence qs) in
      data <- map_result (message_data s) results ;;
      answer HTTP_200_OK
           (MessagePage data
              (match rev results with
               | m :: _ => msg_sequence m
               | [] => since
               end))
  end.

End Views.

(** [MessageFeedbackView.get] *)
Definition MessageFeedbackView_get (s : Store) (message_id : Z)
  : result PageResponse :=
  match get_message s message_id with
  | None => answer HTTP_404_NOT_FOUND (PageDetail (str "Not found."))
  | Some message =>
      feedback <- message_feedback s message ;;
      match feedback with
      | Some fb => answer HTTP_200_OK (FeedbackItem fb)
      | None =>
          answer HTTP_404_NOT_FOUND
               (PageDetail (str "No feedback found for this message."))
      end
  end.

End Queries.
Export Queries.

(** * Notions used in the further properties *)

(** the value respects the bounds that are given *)
Definition within (min_val max_val : option Z) (v : Z) : Prop :=
  match min_val with Some lo => (lo <= v)%Z | None => True end
  /\ match max_val with Some hi => (v <= hi)%Z | None => True end.

(** the value cut to the bounds, the lower bound first *)
Definition clamp (min_val max_val : option Z) (v : Z) : Z :=
  let v := match min_val with Some lo => Z.max v lo | None => v end in
  match max_val with Some hi => Z.min v hi | None => v end.

(** the messages of a conversation with a sequence number above [since], by
    ascending sequence number *)
Definition messages_after (s : Store) (pk since : Z) : list Message :=
  sort_asc msg_sequence
    (filter (fun m => (msg_conversation m =? pk)%Z
                      && (since <? msg_sequence m)%Z) (messages s)).

(** the sequence numbers of a conversation *)
Definition sequences_of (s : Store) (pk : Z) : list Z :=
  map msg_sequence (filter (fun m => (msg_conversation m =? pk)%Z) (messages s)).

(** a query string with the two parameters of a page of messages *)
Definition page_query (since limit : string) : QueryDict :=
  [(str "since", str since); (str "limit", str limit)].

(** the order of the messages by sequence number, weak and strict *)
Definition by_sequence (a b : Message) : Prop :=
  (msg_sequence a <= msg_sequence b)%Z.

Definition before (a b : Message) : Prop :=
  (msg_sequence a < msg_sequence b)%Z.

(** the two parameters of a page of messages, as the view reads them *)
Definition since_of (max_str_digits : Z) (query_params : QueryDict) : Z :=
  parse_int_query_param max_str_digits query_params (str "since") 0
                        (Some 0%Z) None.

Definition message_limit_of (max_str_digits : Z) (query_params : QueryDict)
  : Z :=
  parse_int_query_param max_str_digits query_params (str "limit") 50
                        (Some 1%Z) (Some 200%Z).

(** the two parameters of a page of conversations, as the view reads them *)
Definition conversation_limit_of (max_str_digits : Z)
  (query_params : QueryDict) : Z :=
  parse_int_query_param max_str_digits query_params (str "limit") 20
                        (Some 1%Z) (Some 100%Z).

Definition offset_of (max_str_digits : Z) (query_params : QueryDict) : Z :=
  parse_int_query_param max_str_digits query_params (str "offset") 0
                        (Some 0%Z) None.

(** the numbers 1, 2, ..., n *)
Definition count_up (n : nat) : list Z := map Z.of_nat (seq 1 n).

(** what the API keeps true of the conversations and of the sequence
    numbers of their messages *)
Record chat_ok (s : Store) : Prop := {
  ok_conversation_ids : NoDup (map conv_id (conversations s));
  ok_conversation_fresh :
    forall c, In c (conversations s) -> (conv_id c < next_conversation_id s)%Z;
  ok_titles : forall c, In c (conversations s) -> conv_title c <> Some [];
  ok_sequences :
    forall pk, sequences_of s pk = count_up (length (sequences_of s pk))
}.

(** the store after a second exchange in the conversation of [rated_store] *)
Definition two_exchanges : Store :=
  store_after
    (MessageListCreateView_post echo_generator rated_store 1
       (Value (str "Tell me more"))).

(** the rows of a page of messages *)
Definition page_rows (r : result PageResponse)
  : list (Message * option Feedback) :=
  match r with
  | Ok {| page_body := MessagePage data _ |} => data
  | _ => []
  end.

(** an environment in which the service answers every prompt *)
Definition answering (reply : pystr) : Gemini.Environment :=
  {| Gemini.GEMINI_API_KEY := Some (str "key");
     Gemini.genai_import := Ok tt;
     Gemini.generate_content := fun _ => Ok (Some reply) |}.

(** the value of the score formula on counts, as a rational: every
    operation rounded to the nearest float *)
Definition score_value (p f t : Z) : Q :=
  let positive_ratio := rne (inject_Z p / inject_Z f) in
  let feedback_rate := rne (inject_Z f / inject_Z t) in
  let weighted :=
    rne (rne (positive_ratio * c07) + rne (feedback_rate * c03)) in
  rne (inject_Z (round_half_even (rne (weighted * 100) * 100)) / 100).

(** the store [three_ratings] with the third rating turned positive *)
Definition three_thumbs_up : Store :=
  {| conversations := conversations three_ratings;
     messages := messages three_ratings;
     feedbacks :=
       map (fun fb => {| fb_id := fb_id fb; fb_message := fb_message fb;
                         fb_rating := true; fb_note := fb_note fb |})
           (feedbacks three_ratings);
     next_conversation_id := 2;
     next_message_id := 4;
     next_feedback_id := 4 |}.

(** the conversation has a quality score *)
Definition has_score (s : Store) (conv : Conversation) : bool :=
  match calculate_quality_score s conv with
  | Ok (Some _) => true
  | _ => false
  end.

(** * Properties *)

(** ** Quality score: the undefined branches *)

Lemma int_truediv_cases (a b : Z) :
  b <> 0%Z ->
  (exists q, int_truediv a b = Ok (FFinite q)) \/
  int_truediv a b = Raise OverflowError.
Proof.
  intros Hb. unfold int_truediv.
  destruct (Z.eqb_spec b 0) as [E | _]; [contradiction |].
  destruct (round64 _); eauto.
Qed.

(** C2: the score is [None] exactly when the conversation has no AI message
    or no feedback on its AI messages; in those cases the function returns
    (it does not raise), and no call ever ends in a division by zero. *)
Theorem quality_score_undefined_iff (s : Store) (conv : Conversation) :
  let ai_messages := messages_with_role s conv ROLE_AI in
  let total_ai := len ai_messages in
  let feedback_count := len (filter (message_in ai_messages) (feedbacks s)) in
  (calculate_quality_score s conv = Ok None
   <-> total_ai = 0%Z \/ feedback_count = 0%Z)
  /\ calculate_quality_score s conv <> Raise ZeroDivisionError.
Proof.
  cbv zeta. unfold calculate_quality_score. cbv zeta.
  destruct (Z.eqb_spec (len (messages_with_role s conv ROLE_AI)) 0) as [Ht | Ht].
  { split; [split; auto | discriminate]. }
  destruct (Z.eqb_spec
              (len (filter (message_in (messages_with_role s conv ROLE_AI))
                           (feedbacks s))) 0) as [Hf | Hf].
  { split; [split; auto | discriminate]. }
  match goal with |- context [int_truediv ?p ?f] =>
    destruct (int_truediv_cases p Hf) as [[q1 E1] | E1]; rewrite E1
  end; cbn [bind].
  - match goal with |- context [int_truediv ?f ?t] =>
      destruct (int_truediv_cases f Ht) as [[q2 E2] | E2]; rewrite E2
    end; cbn [bind].
    + split; [split; [discriminate | intros [? | ?]; contradiction] | discriminate].
    + split; [split; [discriminate | intros [? | ?]; contradiction] | discriminate].
  - split; [split; [discriminate | intros [? | ?]; contradiction] | discriminate].
Qed.

(** ** The insights report *)

Lemma include_summary_of_false : include_summary_of no_summary = false.
Proof. reflexivity. Qed.

(** every failure of the generator of [chat/services/gemini.py] is a
    [GeminiServiceError] *)
Lemma generate_reply_classified (env : Gemini.Environment) history prompt e :
  Gemini.generate_reply env history prompt = Raise e ->
  exists msg, e = GeminiServiceError msg.
Proof.
  unfold Gemini.generate_reply.
  destruct (negb (truthy (Gemini.GEMINI_API_KEY env))).
  { intros H; inversion H; eauto. }
  destruct (Gemini.genai_import env).
  2: { intros H; inversion H; eauto. }
  destruct (bind _ _); intros H; inversion H; eauto.
Qed.

(** C7: on a store without conversations, messages and feedback the report
    is returned (nothing is raised), every count is 0, both rates are 0, the
    list of themes is empty and the average quality score is [None]. *)
Theorem insights_on_empty_store (generate_reply : Generator) (s : Store)
  (param : option pystr) :
  conversations s = [] -> messages s = [] -> feedbacks s = [] ->
  (forall history prompt e,
      generate_reply history prompt = Raise e ->
      exists msg, e = GeminiServiceError msg) ->
  exists report,
    response (InsightsView_get generate_reply s param)
    = Ok {| status := 200; body := InsightsBody report |}
    /\ usage report
       = {| total_conversations := 0; total_messages := 0;
            total_user_messages := 0; total_ai_messages := 0 |}
    /\ feedback report
       = {| total_feedback := 0; positive_feedback := 0;
            negative_feedback := 0;
            satisfaction_rate := NInt 0; feedback_rate := NInt 0 |}
    /\ themes report = []
    /\ average (quality_scores report) = None
    /\ scored_conversations (quality_scores report) = [].
Proof.
  intros Hc Hm Hf Hgen.
  destruct s as [cs ms fs n1 n2 n3]; cbn in Hc, Hm, Hf; subst cs ms fs.
  unfold InsightsView_get. cbn.
  destruct (include_summary_of param).
  - match goal with |- context [generate_reply [] ?p] =>
      destruct (generate_reply [] p) as [text | e] eqn:E
    end.
    + eexists; split; [reflexivity |]. cbn. repeat split.
    + destruct (Hgen _ _ _ E) as [msg ->].
      eexists; split; [reflexivity |]. cbn. repeat split.
  - eexists; split; [reflexivity |]. cbn. repeat split.
Qed.

Lemma insights_on_empty_store_witness :
  exists report,
    response (InsightsView_get failing_generator empty_store None)
    = Ok {| status := 200; body := InsightsBody report |}
    /\ usage report
       = {| total_conversations := 0; total_messages := 0;
            total_user_messages := 0; total_ai_messages := 0 |}
    /\ feedback report
       = {| total_feedback := 0; positive_feedback := 0;
            negative_feedback := 0;
            satisfaction_rate := NInt 0; feedback_rate := NInt 0 |}
    /\ themes report = []
    /\ average (quality_scores report) = None
    /\ scored_conversations (quality_scores report) = [].
Proof.
  apply (@insights_on_empty_store failing_generator empty_store None);
    try reflexivity.
  intros history prompt e H. inversion H. eauto.
Defined.



(** ** Store operations *)

Lemma get_conversation_id (s : Store) (pk : Z) (c : Conversation) :
  get_conversation s pk = Some c -> conv_id c = pk.
Proof.
  unfold get_conversation. intros H.
  apply find_some in H. destruct H as [_ H]. now apply Z.eqb_eq in H.
Qed.

Lemma find_replace (pk : Z) (c' : Conversation) (l : list Conversation) c :
  conv_id c' = pk ->
  find (fun c => (conv_id c =? pk)%Z) l = Some c ->
  find (fun c => (conv_id c =? pk)%Z)
       (map (fun c => if (conv_id c =? conv_id c')%Z then c' else c) l)
  = Some c'.
Proof.
  intros <-. induction l as [| x l IH]; cbn; [discriminate |].
  destruct (Z.eqb_spec (conv_id x) (conv_id c')) as [E | E]; cbn.
  - intros _. now rewrite Z.eqb_refl.
  - intros H. apply Z.eqb_neq in E. rewrite E. auto.
Qed.

Lemma get_conversation_save (s : Store) (pk : Z) (c c' : Conversation) :
  get_conversation s pk = Some c -> conv_id c' = pk ->
  get_conversation (save_conversation s c') pk = Some c'.
Proof.
  unfold get_conversation, save_conversation. cbn. intros H Hid.
  now apply find_replace with (c := c).
Qed.

Lemma create_message_spec (s s' : Store) conv role text m :
  create_message s conv role text = Ok (m, s') ->
  conversations s' = conversations s
  /\ messages s' = messages s ++ [m]
  /\ feedbacks s' = feedbacks s
  /\ next_conversation_id s' = next_conversation_id s
  /\ next_message_id s' = (next_message_id s + 1)%Z
  /\ next_feedback_id s' = next_feedback_id s
  /\ msg_id m = next_message_id s
  /\ msg_conversation m = conv_id conv
  /\ msg_role m = role
  /\ msg_text m = text.
Proof.
  unfold create_message.
  destruct (existsb _ _); [discriminate |].
  intros H. inversion H; subst; cbn. repeat split.
Qed.

Lemma validate_char_strip (max_length : Z) (allow_blank : bool) data v :
  validate_char max_length allow_blank data = Some v -> v = strip data.
Proof.
  unfold validate_char. destruct (strip data) as [| c value].
  - destruct allow_blank; [| discriminate]. now intros [= <-].
  - destruct (_ || _); [discriminate |]. now intros [= <-].
Qed.

(** ** Automatic title *)

(** a message posting never touches the table of conversations, except for
    the title it may set *)
Lemma create_message_get_conversation (s s' : Store) conv role text m pk :
  create_message s conv role text = Ok (m, s') ->
  get_conversation s' pk = get_conversation s pk.
Proof.
  intros H. apply create_message_spec in H. destruct H as (Hc & _).
  unfold get_conversation. now rewrite Hc.
Qed.

(** C10: a message posting that succeeds (201) on a conversation without
    title ([None], or empty), and after which the conversation has exactly
    one user message, sets the title to the first 50 characters of the
    posted text, stripped, followed by "..." when the text is longer than 50
    characters; a conversation that has a title keeps it through every
    message posting.  The posted text is the text of the stored user
    message: the text of the request, trimmed by the serializer. *)
Theorem first_message_sets_title (generate_reply : Generator) (s : Store)
  (pk : Z) (data_text : Field pystr) (conv : Conversation) :
  let o := MessageListCreateView_post generate_reply s pk data_text in
  let title_after :=
    option_map conv_title (get_conversation (store_after o) pk) in
  get_conversation s pk = Some conv ->
  (truthy (conv_title conv) = true -> title_after = Some (conv_title conv))
  /\ (forall user_msg ai_msg,
        response o
        = Ok {| status := 201; body := MessagesBody user_msg ai_msg |} ->
        let text := msg_text user_msg in
        (exists raw, data_text = Value raw /\ text = strip raw)
        /\ In user_msg (messages (store_after o))
        /\ msg_role user_msg = ROLE_USER
        /\ (truthy (conv_title conv) = false ->
            len (messages_with_role (store_after o) conv ROLE_USER) = 1%Z ->
            title_after
            = Some (Some (strip (firstn 50 text)
                          ++ (if (50 <? len text)%Z then str "..." else []))))).
Proof.
  cbv zeta. intros Hget. unfold MessageListCreateView_post. rewrite Hget.
  destruct (CreateMessageSerializer data_text) as [text |] eqn:Hval.
  2: { cbn [store_after response respond]. rewrite Hget.
       split; [reflexivity | discriminate]. }
  destruct (create_message s conv ROLE_USER text) as [[um s1] | e] eqn:Hum.
  2: { cbn [store_after response escape]. rewrite Hget.
       split; [reflexivity | discriminate]. }
  pose proof (@create_message_get_conversation _ _ _ _ _ _ pk Hum) as Hget1.
  rewrite Hget in Hget1.
  destruct (generate_reply _ _) as [reply | e].
  2: { destruct e; cbn [store_after response respond escape]; rewrite Hget1;
       (split; [reflexivity | discriminate]). }
  destruct (create_message s1 conv ROLE_AI reply) as [[am s2] | e] eqn:Ham.
  2: { cbn [store_after response escape]. rewrite Hget1.
       split; [reflexivity | discriminate]. }
  pose proof (@create_message_get_conversation _ _ _ _ _ _ pk Ham) as Hget2.
  rewrite Hget1 in Hget2.
  cbn [response respond store_after].
  split.
  { intros Htitle. rewrite Htitle. cbn [negb andb]. now rewrite Hget2. }
  intros user_msg ai_msg H. inversion H; subst um am; clear H.
  apply create_message_spec in Hum.
  destruct Hum as (Hc1 & Hm1 & _ & _ & _ & _ & _ & _ & Hrole & Htext).
  apply create_message_spec in Ham.
  destruct Ham as (Hc2 & Hm2 & _).
  assert (Hmsgs : forall c, messages (save_conversation s2 c) = messages s2)
    by reflexivity.
  split.
  { destruct data_text as [| | raw |]; try discriminate.
    exists raw. split; [reflexivity |]. rewrite Htext.
    cbn in Hval. now apply validate_char_strip in Hval. }
  split.
  { assert (In user_msg (messages s2)).
    { rewrite Hm2, Hm1. rewrite !in_app_iff. left. right. now left. }
    destruct (negb _ && _); [rewrite Hmsgs |]; assumption. }
  split; [assumption |].
  intros Htitle Hcount.
  assert (Hsame : forall (b : bool) c,
             messages_with_role (if b then save_conversation s2 c else s2)
                                conv ROLE_USER
             = messages_with_role s2 conv ROLE_USER)
    by (intros [] ?; reflexivity).
  rewrite Hsame in Hcount.
  rewrite Htitle, Hcount. cbn [negb andb Z.eqb Pos.eqb].
  erewrite get_conversation_save;
    [| exact Hget2 | cbn; eapply get_conversation_id; eauto].
  cbn [option_map conv_title]. unfold auto_title. rewrite Htext.
  destruct (50 <? len text)%Z; [reflexivity | now rewrite app_nil_r].
Qed.

Lemma first_message_sets_title_witness :
  option_map conv_title
    (get_conversation
       (store_after
          (MessageListCreateView_post echo_generator one_conversation 1
             (Value (str "This is a very long message that should be truncated"))))
       1)
  = Some (Some (str "This is a very long message that should be truncat...")).
Proof.
  destruct
    (@first_message_sets_title echo_generator one_conversation 1
       (Value (str "This is a very long message that should be truncated"))
       {| conv_id := 1; conv_title := None |} eq_refl) as [_ H].
  destruct
    (H {| msg_id := 1; msg_conversation := 1; msg_role := ROLE_USER;
          msg_text := str "This is a very long message that should be truncated";
          msg_sequence := 1 |}
       {| msg_id := 2; msg_conversation := 1; msg_role := ROLE_AI;
          msg_text := str "AI Response"; msg_sequence := 2 |}
       eq_refl) as (_ & _ & _ & Htitle).
  rewrite (Htitle eq_refl eq_refl). reflexivity.
Defined.

(** ** Feedback submission *)

Lemma store_ok_ext (s s' : Store) :
  messages s' = messages s -> next_message_id s' = next_message_id s ->
  feedbacks s' = feedbacks s -> next_feedback_id s' = next_feedback_id s ->
  store_ok s -> store_ok s'.
Proof.
  intros Hm Hnm Hf Hnf [H1 H2 H3 H4 H5 H6].
  constructor; rewrite ?Hm, ?Hnm, ?Hf, ?Hnf; assumption.
Qed.

Lemma store_ok_empty : store_ok empty_store.
Proof.
  constructor; cbn; try constructor; intros ? [].
Qed.

Lemma store_ok_create_message (s s' : Store) conv role text m :
  store_ok s -> create_message s conv role text = Ok (m, s') -> store_ok s'.
Proof.
  intros [H1 H2 H3 H4 H5 H6] H. apply create_message_spec in H.
  destruct H as (_ & Hm & Hf & _ & Hnm & Hnf & Hid & _).
  constructor; rewrite ?Hm, ?Hnm, ?Hf, ?Hnf; try assumption.
  - rewrite map_app. cbn. apply NoDup_app; [assumption | repeat constructor; intros [] |].
    + intros x Hx [<- | []]. apply in_map_iff in Hx.
      destruct Hx as (m' & Hm' & Hin). apply H2 in Hin. lia.
  - intros m' Hin. apply in_app_iff in Hin. destruct Hin as [Hin | [<- | []]].
    + apply H2 in Hin. lia.
    + lia.
  - intros fb Hin. destruct (H5 fb Hin) as (m' & Hin' & Hid' & Hr).
    exists m'. rewrite in_app_iff. auto.
Qed.

Lemma store_ok_conversation_post (s : Store) title :
  store_ok s -> store_ok (store_after (ConversationListCreateView_post s title)).
Proof.
  intros H. unfold ConversationListCreateView_post.
  destruct (create_conversation s _) as [conv s1] eqn:E.
  unfold create_conversation in E. inversion E; subst; clear E.
  destruct (calculate_quality_score _ _); cbn [store_after respond escape];
    apply store_ok_ext with (s := s); auto.
Qed.

Lemma store_ok_conversation_patch (s : Store) pk title :
  store_ok s ->
  store_ok (store_after (ConversationDetailView_patch s pk title)).
Proof.
  intros H. unfold ConversationDetailView_patch.
  destruct (get_conversation s pk); [| assumption].
  destruct (UpdateConversationSerializer title); [| assumption].
  destruct (calculate_quality_score _ _); cbn [store_after respond escape];
    apply store_ok_ext with (s := s); auto.
Qed.

Lemma store_ok_message_post (generate_reply : Generator) (s : Store) pk data :
  store_ok s ->
  store_ok (store_after (MessageListCreateView_post generate_reply s pk data)).
Proof.
  intros H. unfold MessageListCreateView_post.
  destruct (get_conversation s pk) as [conv |]; [| assumption].
  destruct (CreateMessageSerializer data) as [text |]; [| assumption].
  destruct (create_message s conv ROLE_USER text) as [[um s1] | e] eqn:Hum;
    [| assumption].
  pose proof (store_ok_create_message _ _ _ H Hum) as H1.
  destruct (generate_reply _ _) as [reply | e]; [| destruct e; assumption].
  destruct (create_message s1 conv ROLE_AI reply) as [[am s2] | e] eqn:Ham;
    [| assumption].
  pose proof (store_ok_create_message _ _ _ H1 Ham) as H2.
  cbn [store_after respond].
  destruct (negb _ && _); [| assumption].
  apply store_ok_ext with (s := s2); auto.
Qed.

Lemma get_message_spec (s : Store) pk m :
  get_message s pk = Some m -> In m (messages s) /\ msg_id m = pk.
Proof.
  unfold get_message. intros H. apply find_some in H.
  destruct H as [Hin H]. now apply Z.eqb_eq in H.
Qed.

Lemma filter_nil_not_in {A : Type} (f : A -> bool) (l : list A) :
  filter f l = [] -> forall x, In x l -> f x = false.
Proof.
  intros H x Hin. destruct (f x) eqn:E; [| reflexivity].
  assert (In x (filter f l)) by (apply filter_In; auto).
  rewrite H in *. contradiction.
Qed.

(** replacing a row by a row of the same key, in a table with unique keys *)
Lemma map_replace_same_key (l : list Feedback) (fb fb' : Feedback) :
  NoDup (map fb_id l) -> In fb l -> fb_id fb' = fb_id fb ->
  fb_message fb' = fb_message fb ->
  map fb_id (map (fun f => if (fb_id f =? fb_id fb')%Z then fb' else f) l)
  = map fb_id l
  /\ map fb_message
         (map (fun f => if (fb_id f =? fb_id fb')%Z then fb' else f) l)
     = map fb_message l
  /\ In fb' (map (fun f => if (fb_id f =? fb_id fb')%Z then fb' else f) l)
  /\ (forall f, In f (map (fun f => if (fb_id f =? fb_id fb')%Z then fb' else f) l)
                -> f = fb' \/ In f l).
Proof.
  intros Hnd Hin Hid Hmsg. rewrite Hid.
  assert (Hkey : forall f, In f l -> fb_id f = fb_id fb -> f = fb).
  { clear - Hnd Hin. induction l as [| x l IH]; cbn in *; [contradiction |].
    inversion Hnd as [| ? ? Hx Hnd']; subst.
    intros f [<- | Hf] Hidf; destruct Hin as [<- | Hin]; auto.
    - exfalso. apply Hx. rewrite Hidf. now apply in_map.
    - exfalso. apply Hx. rewrite <- Hidf. now apply in_map. }
  repeat split.
  - rewrite map_map. apply map_ext_in. intros f Hf.
    destruct (Z.eqb_spec (fb_id f) (fb_id fb)); congruence.
  - rewrite map_map. apply map_ext_in. intros f Hf.
    destruct (Z.eqb_spec (fb_id f) (fb_id fb)) as [E | E]; [| reflexivity].
    rewrite (Hkey f Hf E). assumption.
  - apply in_map_iff. exists fb. rewrite Z.eqb_refl. auto.
  - intros f Hf. apply in_map_iff in Hf. destruct Hf as (g & <- & Hg).
    destruct (fb_id g =? fb_id fb)%Z; auto.
Qed.

Lemma map_replace_identity (l : list Feedback) (fb : Feedback) :
  NoDup (map fb_id l) -> In fb l ->
  map (fun f => if (fb_id f =? fb_id fb)%Z then fb else f) l = l.
Proof.
  intros Hnd Hin. rewrite <- (map_id l) at 2. apply map_ext_in. intros f Hf.
  destruct (Z.eqb_spec (fb_id f) (fb_id fb)) as [E | E]; [| reflexivity].
  clear - Hnd Hin Hf E. induction l as [| x l IH]; cbn in *; [contradiction |].
  inversion Hnd as [| ? ? Hx Hnd']; subst.
  destruct Hf as [<- | Hf]; destruct Hin as [<- | Hin]; auto.
  - exfalso. apply Hx. rewrite E. now apply in_map.
  - exfalso. apply Hx. rewrite <- E. now apply in_map.
Qed.

(** a single row selected by the message key *)
Lemma filter_single (l : list Feedback) (mid : Z) (fb : Feedback) :
  filter (fun f => (fb_message f =? mid)%Z) l = [fb] ->
  In fb l /\ fb_message fb = mid.
Proof.
  intros H.
  assert (Hin : In fb (filter (fun f => (fb_message f =? mid)%Z) l))
    by (rewrite H; now left).
  apply filter_In in Hin. destruct Hin as [Hin E]. now apply Z.eqb_eq in E.
Qed.

Lemma filter_unique_key (l : list Feedback) (fb : Feedback) :
  NoDup (map fb_message l) -> In fb l ->
  filter (fun f => (fb_message f =? fb_message fb)%Z) l = [fb].
Proof.
  induction l as [| x l IH]; cbn; [contradiction |].
  intros Hnd Hin. inversion Hnd as [| ? ? Hx Hnd']; subst.
  destruct Hin as [-> | Hin].
  - rewrite Z.eqb_refl. f_equal.
    destruct (filter _ l) as [| y r] eqn:E; [reflexivity |].
    exfalso. apply Hx.
    assert (Hy : In y (filter (fun f => (fb_message f =? fb_message fb)%Z) l))
      by (rewrite E; now left).
    apply filter_In in Hy. destruct Hy as [Hy Hk]. apply Z.eqb_eq in Hk.
    rewrite <- Hk. now apply in_map.
  - destruct (Z.eqb_spec (fb_message x) (fb_message fb)) as [E | E].
    + exfalso. apply Hx. rewrite E. now apply in_map.
    + auto.
Qed.

Lemma existsb_false {A : Type} (f : A -> bool) (l : list A) :
  (forall x, In x l -> f x = false) -> existsb f l = false.
Proof.
  induction l as [| x l IH]; cbn; [reflexivity |].
  intros H. rewrite (H x (or_introl eq_refl)). cbn. apply IH.
  intros y Hy. apply H. now right.
Qed.

(** the three ways a feedback submission ends *)
Lemma feedback_post_cases (s : Store) (message_id : Z) (data : FeedbackData) :
  let o := MessageFeedbackView_post s message_id data in
  (store_after o = s
   /\ (forall fb, response o <> Ok {| status := 201; body := FeedbackBody fb |})
   /\ (forall fb, response o <> Ok {| status := 200; body := FeedbackBody fb |}))
  \/ (exists m valid,
        get_message s message_id = Some m /\ msg_role m = ROLE_AI
        /\ CreateFeedbackSerializer data = Some valid
        /\ filter (fun fb => (fb_message fb =? message_id)%Z) (feedbacks s) = []
        /\ let fb := {| fb_id := next_feedback_id s;
                        fb_message := message_id;
                        fb_rating := valid_rating valid;
                        fb_note := Some (or_empty (valid_note valid)) |} in
           response o = Ok {| status := 201; body := FeedbackBody fb |}
           /\ store_after o
              = {| conversations := conversations s;
                   messages := messages s;
                   feedbacks := feedbacks s ++ [fb];
                   next_conversation_id := next_conversation_id s;
                   next_message_id := next_message_id s;
                   next_feedback_id := (next_feedback_id s + 1)%Z |})
  \/ (exists m valid fb,
        get_message s message_id = Some m /\ msg_role m = ROLE_AI
        /\ CreateFeedbackSerializer data = Some valid
        /\ filter (fun fb => (fb_message fb =? message_id)%Z) (feedbacks s)
           = [fb]
        /\ response o
           = Ok {| status := 200;
                   body := FeedbackBody (updated_feedback fb valid) |}
        /\ store_after o = save_feedback s (updated_feedback fb valid)).
Proof.
  cbv zeta. unfold MessageFeedbackView_post.
  destruct (get_message s message_id) as [m |] eqn:Hget.
  2: { left. cbn. repeat split; discriminate. }
  destruct (get_message_spec _ _ Hget) as [Hin Hid].
  destruct (msg_role m) eqn:Hrole; cbn [role_eqb negb].
  { left. cbn. repeat split; discriminate. }
  destruct (CreateFeedbackSerializer data) as [valid |] eqn:Hvalid.
  2: { left. cbn. repeat split; discriminate. }
  unfold get_or_create_feedback. rewrite Hid.
  destruct (filter _ (feedbacks s)) as [| fb [| fb2 rest]] eqn:Hfilter.
  - right. left. exists m, valid. repeat split; try assumption.
    + unfold create_feedback. rewrite Hid.
      rewrite existsb_false; [reflexivity |].
      intros fb Hfb. exact (filter_nil_not_in _ _ Hfilter fb Hfb).
    + unfold create_feedback. rewrite Hid.
      rewrite existsb_false; [reflexivity |].
      intros fb Hfb. exact (filter_nil_not_in _ _ Hfilter fb Hfb).
  - right. right. exists m, valid, fb. cbn [bind respond response store_after].
    repeat split; assumption.
  - left. cbn. repeat split; discriminate.
Qed.

Lemma store_ok_feedback_post (s : Store) message_id data :
  store_ok s ->
  store_ok (store_after (MessageFeedbackView_post s message_id data)).
Proof.
  intros Hok.
  destruct (feedback_post_cases s message_id data)
    as [(-> & _) | [(m & valid & Hget & Hrole & _ & Hfilter & _ & ->)
                   | (m & valid & fb & Hget & Hrole & _ & Hfilter & _ & ->)]];
    [assumption | |].
  - destruct Hok as [H1 H2 H3 H4 H5 H6].
    destruct (get_message_spec _ _ Hget) as [Hin Hid].
    constructor; cbn; try assumption.
    + rewrite map_app. cbn.
      apply NoDup_app; [assumption | repeat constructor; intros [] |].
      intros x Hx [<- | []]. apply in_map_iff in Hx.
      destruct Hx as (f & Hf & Hinf). apply H4 in Hinf. lia.
    + intros f Hf. apply in_app_iff in Hf. destruct Hf as [Hf | [<- | []]].
      * apply H4 in Hf. lia.
      * cbn. lia.
    + intros f Hf. apply in_app_iff in Hf. destruct Hf as [Hf | [<- | []]].
      * auto.
      * exists m. cbn. auto.
    + rewrite map_app. cbn.
      apply NoDup_app; [assumption | repeat constructor; intros [] |].
      intros x Hx [<- | []]. apply in_map_iff in Hx.
      destruct Hx as (f & Hf & Hinf).
      pose proof (filter_nil_not_in _ _ Hfilter f Hinf) as E. cbn in E.
      apply Z.eqb_neq in E. contradiction.
  - destruct Hok as [H1 H2 H3 H4 H5 H6].
    destruct (filter_single _ _ Hfilter) as [Hinfb Hmsg].
    destruct (@map_replace_same_key (feedbacks s) fb (updated_feedback fb valid)
                H3 Hinfb eq_refl eq_refl) as (Hids & Hmsgs & _ & Hmem).
    constructor; unfold save_feedback;
      cbn [feedbacks messages next_message_id next_feedback_id];
      try assumption.
    + now rewrite Hids.
    + intros f Hf. apply Hmem in Hf. destruct Hf as [-> | Hf]; [cbn |]; auto.
    + intros f Hf. apply Hmem in Hf. destruct Hf as [-> | Hf]; [cbn |]; auto.
    + now rewrite Hmsgs.
Qed.

Lemma api_step_ok (s s' : Store) : store_ok s -> api_step s s' -> store_ok s'.
Proof.
  intros Hok Hstep. destruct Hstep.
  - now apply store_ok_conversation_post.
  - now apply store_ok_conversation_patch.
  - now apply store_ok_message_post.
  - now apply store_ok_feedback_post.
Qed.

Lemma reachable_ok (s : Store) : reachable s -> store_ok s.
Proof.
  induction 1 as [| s s' _ IH Hstep].
  - apply store_ok_empty.
  - exact (api_step_ok IH Hstep).
Qed.

Lemma get_message_unique (s : Store) (m : Message) :
  NoDup (map msg_id (messages s)) -> In m (messages s) ->
  get_message s (msg_id m) = Some m.
Proof.
  unfold get_message. induction (messages s) as [| x l IH]; cbn;
    [intros _ [] |].
  intros Hnd Hin. inversion Hnd as [| ? ? Hx Hnd']; subst.
  destruct Hin as [-> | Hin].
  - now rewrite Z.eqb_refl.
  - destruct (Z.eqb_spec (msg_id x) (msg_id m)) as [E | E]; [| auto].
    exfalso. apply Hx. rewrite E. now apply in_map.
Qed.

Lemma save_feedback_identity (s : Store) (fb : Feedback) :
  NoDup (map fb_id (feedbacks s)) -> In fb (feedbacks s) ->
  save_feedback s fb = s.
Proof.
  destruct s as [cs ms fs n1 n2 n3]. unfold save_feedback. cbn.
  intros Hnd Hin. f_equal. now apply map_replace_identity.
Qed.

(** a second submission of the same data leaves the store as the first
    one left it *)
Lemma feedback_post_idempotent (s : Store) message_id data :
  store_ok s ->
  let s1 := store_after (MessageFeedbackView_post s message_id data) in
  store_after (MessageFeedbackView_post s1 message_id data) = s1.
Proof.
  intros Hok. cbv zeta.
  pose proof (store_ok_feedback_post message_id data Hok) as Hok1.
  destruct (feedback_post_cases s message_id data)
    as [(E & _) | [(m & valid & Hget & Hrole & Hvalid & Hfilter & _ & E)
                  | (m & valid & fb & Hget & Hrole & Hvalid & Hfilter & _ & E)]].
  - rewrite E. exact E.
  - rewrite E in *. remember {| fb_id := next_feedback_id s |} as fb0 eqn:Hfb0.
    destruct (feedback_post_cases
                {| conversations := conversations s;
                   messages := messages s;
                   feedbacks := feedbacks s ++ [fb0];
                   next_conversation_id := next_conversation_id s;
                   next_message_id := next_message_id s;
                   next_feedback_id := (next_feedback_id s + 1)%Z |}
                message_id data)
      as [(E2 & _) | [(m2 & valid2 & _ & _ & _ & Hfilter2 & _)
                     | (m2 & valid2 & fb2 & _ & _ & Hvalid2 & Hfilter2 & _ & E2)]].
    + exact E2.
    + exfalso. cbn in Hfilter2. rewrite filter_app, Hfilter in Hfilter2.
      cbn in Hfilter2. rewrite Hfb0 in Hfilter2. cbn in Hfilter2.
      rewrite Z.eqb_refl in Hfilter2. discriminate.
    + rewrite E2. cbn in Hfilter2. rewrite filter_app, Hfilter in Hfilter2.
      cbn in Hfilter2. rewrite Hfb0 in Hfilter2. cbn in Hfilter2.
      rewrite Z.eqb_refl in Hfilter2. rewrite <- Hfb0 in Hfilter2.
      inversion Hfilter2; subst fb2; clear Hfilter2.
      rewrite Hvalid in Hvalid2. inversion Hvalid2; subst valid2.
      assert (Hsame : updated_feedback fb0 valid = fb0).
      { rewrite Hfb0. unfold updated_feedback. cbn.
        destruct (valid_note valid); reflexivity. }
      rewrite Hsame. apply save_feedback_identity.
      * exact (ok_feedback_ids Hok1).
      * cbn. rewrite in_app_iff. right. now left.
  - rewrite E in *. set (fb1 := updated_feedback fb valid) in *.
    destruct (filter_single _ _ Hfilter) as [Hinfb Hmsg].
    destruct (@map_replace_same_key (feedbacks s) fb fb1
                (ok_feedback_ids Hok) Hinfb eq_refl eq_refl)
      as (Hids & Hmsgs & Hin1 & _).
    destruct (feedback_post_cases (save_feedback s fb1) message_id data)
      as [(E2 & _) | [(m2 & valid2 & _ & _ & _ & Hfilter2 & _)
                     | (m2 & valid2 & fb2 & _ & _ & Hvalid2 & Hfilter2 & _ & E2)]].
    + exact E2.
    + exfalso. pose proof (filter_nil_not_in _ _ Hfilter2 fb1 Hin1) as X.
      cbn in X. rewrite Hmsg, Z.eqb_refl in X. discriminate.
    + rewrite E2.
      assert (Hfb2 : fb2 = fb1).
      { assert (X : filter (fun f => (fb_message f =? fb_message fb1)%Z)
                           (feedbacks (save_feedback s fb1)) = [fb1])
          by (apply filter_unique_key; [exact (ok_one_feedback Hok1) | exact Hin1]).
        change (fb_message fb1) with (fb_message fb) in X.
        rewrite Hmsg in X. rewrite X in Hfilter2. now inversion Hfilter2. }
      subst fb2. rewrite Hvalid in Hvalid2. inversion Hvalid2; subst valid2.
      assert (Hsame : updated_feedback fb1 valid = fb1).
      { unfold fb1, updated_feedback. cbn.
        destruct (valid_note valid); reflexivity. }
      rewrite Hsame. apply save_feedback_identity.
      * exact (ok_feedback_ids Hok1).
      * exact Hin1.
Qed.

(** C9: in every store the API can produce, each feedback row belongs to a
    message of role [ai] and no message has two rows.  A submission for a
    message of another role is answered 400 and changes nothing; a
    submission for a message that has a row updates that row in place (same
    key, same message, no new row); submitting the same data twice leaves
    the store as submitting it once. *)
Theorem feedback_on_ai_messages_once (s : Store) :
  reachable s ->
  (forall fb, In fb (feedbacks s) ->
     exists m, get_message s (fb_message fb) = Some m /\ msg_role m = ROLE_AI)
  /\ NoDup (map fb_message (feedbacks s))
  /\ (forall message_id data m,
        get_message s message_id = Some m -> msg_role m <> ROLE_AI ->
        let o := MessageFeedbackView_post s message_id data in
        response o
        = Ok {| status := 400;
                body := Detail
                          (str "Feedback can only be provided for AI messages.") |}
        /\ store_after o = s)
  /\ (forall message_id data fb valid,
        In fb (feedbacks s) -> fb_message fb = message_id ->
        CreateFeedbackSerializer data = Some valid ->
        let o := MessageFeedbackView_post s message_id data in
        response o
        = Ok {| status := 200;
                body := FeedbackBody (updated_feedback fb valid) |}
        /\ In (updated_feedback fb valid) (feedbacks (store_after o))
        /\ map fb_id (feedbacks (store_after o)) = map fb_id (feedbacks s)
        /\ map fb_message (feedbacks (store_after o))
           = map fb_message (feedbacks s))
  /\ (forall message_id data,
        let s1 := store_after (MessageFeedbackView_post s message_id data) in
        store_after (MessageFeedbackView_post s1 message_id data) = s1).
Proof.
  intros Hreach. pose proof (reachable_ok Hreach) as Hok.
  assert (Hai : forall fb, In fb (feedbacks s) ->
             exists m, get_message s (fb_message fb) = Some m
                       /\ msg_role m = ROLE_AI).
  { intros fb Hfb. destruct (ok_feedback_on_ai Hok fb Hfb) as (m & Hin & Hid & Hr).
    exists m. split; [| assumption]. rewrite <- Hid.
    apply get_message_unique; [exact (ok_message_ids Hok) | assumption]. }
  split; [exact Hai |].
  split; [exact (ok_one_feedback Hok) |].
  split; [| split].
  - intros message_id data m Hget Hrole. cbv zeta.
    unfold MessageFeedbackView_post. rewrite Hget.
    destruct (msg_role m); [| contradiction]. cbn. auto.
  - intros message_id data fb valid Hfb Hmsg Hvalid. cbv zeta.
    destruct (Hai fb Hfb) as (m & Hget & Hrole). rewrite Hmsg in Hget.
    pose proof (@filter_unique_key _ fb (ok_one_feedback Hok) Hfb) as Hfilter.
    rewrite Hmsg in Hfilter.
    destruct (get_message_spec _ _ Hget) as [_ Hid].
    unfold MessageFeedbackView_post, get_or_create_feedback.
    rewrite Hget, Hrole, Hvalid, Hid, Hfilter.
    cbn [role_eqb negb response store_after respond].
    destruct (@map_replace_same_key (feedbacks s) fb (updated_feedback fb valid)
                (ok_feedback_ids Hok) Hfb eq_refl eq_refl)
      as (Hids & Hmsgs & Hin & _).
    split; [reflexivity |]. split; [exact Hin |]. split; assumption.
  - intros message_id data. now apply feedback_post_idempotent.
Qed.

Lemma feedback_on_ai_messages_once_witness :
  (forall fb, In fb (feedbacks rated_store) ->
     exists m, get_message rated_store (fb_message fb) = Some m
               /\ msg_role m = ROLE_AI)
  /\ NoDup (map fb_message (feedbacks rated_store)).
Proof.
  destruct (@feedback_on_ai_messages_once rated_store) as (H1 & H2 & _).
  - unfold rated_store.
    eapply reachable_step; [| apply step_post_feedback].
    eapply reachable_step; [| apply step_post_message].
    eapply reachable_step; [| apply step_create_conversation].
    apply reachable_empty.
  - split; assumption.
Defined.

Example rated_store_feedbacks :
  feedbacks rated_store
  = [{| fb_id := 1; fb_message := 2; fb_rating := true;
        fb_note := Some (str "Great response!") |}].
Proof. reflexivity. Qed.

(** ** Candidate words *)

Lemma is_az_word (c : ascii) : is_az c = true -> is_word c = true.
Proof.
  unfold is_word, isalnum, is_az. intros ->. now rewrite !orb_true_r.
Qed.

Lemma maximal_runs_cons (p : ascii -> bool) (c : ascii) (s : pystr) :
  p c = true ->
  maximal_runs p (c :: s) = (c :: take_while p s) :: maximal_runs p (drop_while p s).
Proof.
  revert c. induction s as [| c' s IH]; intros c Hc.
  - cbn. now rewrite Hc.
  - change (maximal_runs p (c :: c' :: s))
      with (if p c then
              match maximal_runs p (c' :: s) with
              | r :: rs => if p c' then (c :: r) :: rs else [c] :: r :: rs
              | [] => [[c]]
              end
            else maximal_runs p (c' :: s)).
    rewrite Hc. cbn [take_while drop_while].
    destruct (p c') eqn:Hc'.
    + now rewrite (IH c' Hc').
    + destruct (maximal_runs p (c' :: s)); reflexivity.
Qed.

Lemma maximal_runs_skip (p : ascii -> bool) (c : ascii) (s : pystr) :
  p c = false -> maximal_runs p (c :: s) = maximal_runs p s.
Proof. intros H. cbn. now rewrite H. Qed.

(** the repetition with its backtracking: the whole run of letters, when a
    non-word character or the end of the text follows it *)
Lemma match_letters_spec (last : ascii) (rest : pystr) :
  is_az last = true ->
  match_letters last rest
  = if is_word_at (hd_error (drop_while is_az rest)) then None
    else Some (take_while is_az rest).
Proof.
  revert last. induction rest as [| c rest IH]; intros last Hlast.
  - cbn. unfold word_boundary. cbn. now rewrite (is_az_word _ Hlast).
  - cbn [match_letters take_while drop_while].
    destruct (is_az c) eqn:Hc.
    + rewrite (IH c Hc).
      destruct (is_word_at (hd_error (drop_while is_az rest))); [| reflexivity].
      unfold word_boundary. cbn.
      now rewrite (is_az_word _ Hlast), (is_az_word _ Hc).
    + unfold word_boundary. cbn. rewrite (is_az_word _ Hlast).
      now destruct (is_word c).
Qed.

Lemma take_while_letters_words (s : pystr) :
  is_word_at (hd_error (drop_while is_az s)) = false ->
  take_while is_word s = take_while is_az s
  /\ drop_while is_word s = drop_while is_az s.
Proof.
  induction s as [| c s IH]; cbn; [auto |].
  destruct (is_az c) eqn:Hc.
  - rewrite (is_az_word _ Hc). intros H. destruct (IH H) as [-> ->]. auto.
  - cbn. intros ->. auto.
Qed.

Lemma take_while_all (p : ascii -> bool) (s : pystr) :
  forallb p (take_while p s) = true.
Proof.
  induction s as [| c s IH]; cbn; [reflexivity |].
  destruct (p c) eqn:Hc; cbn; [now rewrite Hc | reflexivity].
Qed.

Lemma word_run_not_letters (s : pystr) :
  is_word_at (hd_error (drop_while is_az s)) = true ->
  forallb is_az (take_while is_word s) = false.
Proof.
  induction s as [| c s IH]; cbn; [discriminate |].
  destruct (is_az c) eqn:Hc.
  - rewrite (is_az_word _ Hc). cbn. rewrite Hc. cbn. exact IH.
  - cbn. intros ->. cbn. now rewrite Hc.
Qed.

Lemma drop_while_skip (p : ascii -> bool) (k : nat) (s : pystr) :
  forallb p (firstn k s) = true ->
  drop_while p s = drop_while p (skipn k s).
Proof.
  revert s. induction k as [| k IH]; intros s; [reflexivity |].
  destruct s as [| c s]; [reflexivity |]. cbn.
  destruct (p c); [| discriminate]. cbn. apply IH.
Qed.

Lemma firstn_take_while (p : ascii -> bool) (s : pystr) :
  firstn (length (take_while p s)) s = take_while p s.
Proof.
  induction s as [| c s IH]; cbn; [reflexivity |].
  destruct (p c); cbn; [now rewrite IH | reflexivity].
Qed.

Lemma forallb_impl {A : Type} (p q : A -> bool) (l : list A) :
  (forall x, p x = true -> q x = true) ->
  forallb p l = true -> forallb q l = true.
Proof.
  intros H. induction l as [| x l IH]; cbn; [reflexivity |].
  intros Hl. apply andb_true_iff in Hl. destruct Hl as [Hx Hl].
  now rewrite (H x Hx), IH.
Qed.

(** the scan, in its two states: before a word ([prev] is not a word
    character) and inside a word, [skip] characters of which belong to the
    match just returned *)
Lemma findall_from_spec (s : pystr) :
  (forall prev, is_word_at prev = false ->
     findall_from prev s 0
     = filter (forallb is_az) (maximal_runs is_word s))
  /\ (forall prev skip, is_word_at prev = true ->
        forallb is_word (firstn skip s) = true ->
        findall_from prev s skip
        = filter (forallb is_az) (maximal_runs is_word (drop_while is_word s))).
Proof.
  induction s as [| c s [IHstart IHin]]; [split; intros; now destruct skip || reflexivity |].
  split.
  - intros prev Hprev. cbn [findall_from]. unfold match_word, word_boundary.
    rewrite Hprev. cbn [hd_error is_word_at xorb].
    destruct (is_word c) eqn:Hw.
    + rewrite maximal_runs_cons by exact Hw. cbn [filter forallb].
      destruct (is_az c) eqn:Hc.
      * rewrite match_letters_spec by exact Hc.
        destruct (is_word_at (hd_error (drop_while is_az s))) eqn:Hnext.
        -- cbn [option_map]. rewrite word_run_not_letters by exact Hnext. cbn [andb].
           apply IHin; [cbn; exact Hw | reflexivity].
        -- cbn [option_map]. destruct (take_while_letters_words s Hnext) as [Ht Hd].
           rewrite Ht, take_while_all. cbn [andb]. f_equal.
           replace (length (c :: take_while is_az s) - 1)%nat
             with (length (take_while is_az s)) by (cbn [length]; lia).
           apply IHin; [cbn; exact Hw |].
           rewrite firstn_take_while.
           apply forallb_impl with (p := is_az); [exact is_az_word |].
           apply take_while_all.
      * cbn [andb]. apply IHin; [cbn; exact Hw | reflexivity].
    + rewrite maximal_runs_skip by exact Hw.
      apply IHstart. cbn. exact Hw.
  - intros prev skip Hprev Hskip. destruct skip as [| k].
    + cbn [findall_from]. unfold match_word, word_boundary.
      rewrite Hprev. cbn [hd_error is_word_at xorb drop_while].
      destruct (is_word c) eqn:Hw; cbn [negb].
      * apply IHin; [cbn; exact Hw | reflexivity].
      * assert (Hc : is_az c = false).
        { destruct (is_az c) eqn:Hc; [| reflexivity].
          rewrite (is_az_word _ Hc) in Hw. discriminate. }
        rewrite Hc, maximal_runs_skip by exact Hw.
        apply IHstart. cbn. exact Hw.
    + cbn [findall_from firstn forallb drop_while] in *.
      apply andb_true_iff in Hskip. destruct Hskip as [Hw Hskip].
      rewrite Hw. apply IHin; [cbn; exact Hw | exact Hskip].
Qed.

Lemma maximal_runs_ext (p q : ascii -> bool) (s : pystr) :
  (forall c, In c s -> p c = q c) -> maximal_runs p s = maximal_runs q s.
Proof.
  induction s as [| c s IH]; intros H; [reflexivity |].
  cbn [maximal_runs]. rewrite <- (H c (or_introl eq_refl)).
  rewrite <- IH by (intros x Hx; apply H; now right).
  replace (starts_with q s) with (starts_with p s); [reflexivity |].
  destruct s as [| c' s]; [reflexivity |]. cbn. apply H. right. now left.
Qed.

Lemma maximal_runs_all (p : ascii -> bool) (s : pystr) :
  Forall (fun r => forallb p r = true) (maximal_runs p s).
Proof.
  induction s as [| c s IH]; cbn [maximal_runs]; [constructor |].
  destruct (p c) eqn:Hc; [| exact IH].
  destruct (maximal_runs p s) as [| r rs].
  - repeat constructor. cbn. now rewrite Hc.
  - inversion IH; subst.
    destruct (starts_with p s); repeat constructor; cbn; rewrite ?Hc; auto.
Qed.

Lemma filter_all {A : Type} (f : A -> bool) (l : list A) :
  Forall (fun x => f x = true) l -> filter f l = l.
Proof.
  induction 1 as [| x l Hx _ IH]; cbn; [reflexivity |]. now rewrite Hx, IH.
Qed.

(** C3, amended: the candidate words of a note are the maximal runs of word
    characters (letters, digits, underscore) of the lower-cased note that
    consist of letters a-z only; only a character that is not a word
    character separates words, so a run of letters next to a digit or an
    underscore yields no candidate word.  In a note whose word characters
    are all letters a-z, the candidate words are exactly the maximal runs of
    letters a-z. *)
Theorem candidate_words_are_whole_words (note : pystr) :
  findall_words (lower note)
  = filter (forallb is_az) (maximal_runs is_word (lower note))
  /\ (only_letter_words (lower note) = true ->
      findall_words (lower note) = maximal_runs is_az (lower note)).
Proof.
  assert (H : findall_words (lower note)
              = filter (forallb is_az) (maximal_runs is_word (lower note))).
  { unfold findall_words. now apply (proj1 (findall_from_spec (lower note))). }
  split; [exact H |].
  intros Hletters. rewrite H.
  assert (Hsame : forall c, In c (lower note) -> is_word c = is_az c).
  { intros c Hc. unfold only_letter_words in Hletters.
    rewrite forallb_forall in Hletters. specialize (Hletters c Hc).
    destruct (is_az c) eqn:Haz; [now apply is_az_word |].
    now destruct (is_word c). }
  rewrite (maximal_runs_ext is_word is_az _ Hsame).
  apply filter_all, maximal_runs_all.
Qed.

Lemma candidate_words_are_whole_words_witness :
  findall_words (lower (str "Great answer, thanks!"))
  = maximal_runs is_az (lower (str "Great answer, thanks!")).
Proof.
  apply (proj2 (candidate_words_are_whole_words (str "Great answer, thanks!"))).
  reflexivity.
Defined.

(** C3 as stated fails: a run of letters next to a digit is a maximal run
    of letters a-z of the lower-cased note, and it is not a candidate word. *)
Lemma candidate_words_counterexample :
  findall_words (lower (str "Python3 rocks")) = [str "rocks"]
  /\ maximal_runs is_az (lower (str "Python3 rocks"))
     = [str "python"; str "rocks"]
  /\ findall_words (lower (str "Python3 rocks"))
     <> maximal_runs is_az (lower (str "Python3 rocks")).
Proof.
  split; [reflexivity |]. split; [reflexivity |]. discriminate.
Qed.

(** ** The frequency table *)

Lemma pystr_eqb_eq (a b : pystr) : pystr_eqb a b = true <-> a = b.
Proof.
  revert b. induction a as [| x a IH]; intros [| y b]; cbn;
    try (split; [discriminate | discriminate]); [split; reflexivity |].
  rewrite andb_true_iff, Ascii.eqb_eq, IH.
  split; [intros [-> ->]; reflexivity | intros [= -> ->]; auto].
Qed.

Lemma pystr_eqb_refl (a : pystr) : pystr_eqb a a = true.
Proof. now apply pystr_eqb_eq. Qed.

Lemma pystr_eqb_neq (a b : pystr) : pystr_eqb a b = false <-> a <> b.
Proof.
  split.
  - intros H E. apply pystr_eqb_eq in E. congruence.
  - intros H. destruct (pystr_eqb a b) eqn:E; [| reflexivity].
    apply pystr_eqb_eq in E. contradiction.
Qed.

Lemma pystr_eqb_sym (a b : pystr) : pystr_eqb a b = pystr_eqb b a.
Proof.
  destruct (pystr_eqb a b) eqn:E.
  - apply pystr_eqb_eq in E. subst. symmetry. apply pystr_eqb_refl.
  - symmetry. apply pystr_eqb_neq. apply pystr_eqb_neq in E. congruence.
Qed.


Lemma counter_incr_keys (w : pystr) (tbl : Counter) :
  map fst (counter_incr w tbl)
  = if existsb (fun k => pystr_eqb k w) (map fst tbl) then map fst tbl
    else map fst tbl ++ [w].
Proof.
  induction tbl as [| [k c] tbl IH]; cbn; [reflexivity |].
  destruct (pystr_eqb k w); cbn; [reflexivity |].
  rewrite IH. now destruct (existsb _ _).
Qed.

Lemma counter_get_incr (v w : pystr) (tbl : Counter) :
  counter_get v (counter_incr w tbl)
  = (counter_get v tbl + (if pystr_eqb v w then 1 else 0))%Z.
Proof.
  induction tbl as [| [k c] tbl IH]; cbn.
  - rewrite (pystr_eqb_sym w v). destruct (pystr_eqb v w); reflexivity.
  - destruct (pystr_eqb k w) eqn:Ekw; cbn.
    + destruct (pystr_eqb k v) eqn:Ekv.
      * apply pystr_eqb_eq in Ekw, Ekv. subst. now rewrite pystr_eqb_refl.
      * apply pystr_eqb_eq in Ekw. subst k.
        rewrite (pystr_eqb_sym v w), Ekv. lia.
    + destruct (pystr_eqb k v) eqn:Ekv; [| exact IH].
      apply pystr_eqb_eq in Ekv. subst k.
      rewrite Ekw. lia.
Qed.

Lemma counter_get_update (v : pystr) (ws : list pystr) (tbl : Counter) :
  counter_get v (counter_update tbl ws)
  = (counter_get v tbl + occurrences v ws)%Z.
Proof.
  unfold counter_update, occurrences, len.
  revert tbl. induction ws as [| w ws IH]; intros tbl; cbn [fold_left filter].
  - cbn. lia.
  - rewrite IH, counter_get_incr.
    destruct (pystr_eqb v w); cbn [length]; lia.
Qed.

Lemma counter_get_in (w : pystr) (c : Z) (tbl : Counter) :
  NoDup (map fst tbl) -> In (w, c) tbl -> counter_get w tbl = c.
Proof.
  induction tbl as [| [k c'] tbl IH]; cbn; [intros _ [] |].
  intros Hnd Hin. inversion Hnd as [| ? ? Hk Hnd']; subst.
  destruct Hin as [[= -> ->] | Hin].
  - now rewrite pystr_eqb_refl.
  - destruct (pystr_eqb k w) eqn:E; [| auto].
    apply pystr_eqb_eq in E. subst k. exfalso. apply Hk.
    change w with (fst (w, c)). now apply in_map.
Qed.

Lemma existsb_eqb_in (w : pystr) (l : list pystr) :
  existsb (fun k => pystr_eqb k w) l = true <-> In w l.
Proof.
  rewrite existsb_exists. split.
  - intros (x & Hx & E). apply pystr_eqb_eq in E. now subst.
  - intros H. exists w. split; [assumption | apply pystr_eqb_refl].
Qed.

Lemma counter_incr_nodup (w : pystr) (tbl : Counter) :
  NoDup (map fst tbl) -> NoDup (map fst (counter_incr w tbl)).
Proof.
  intros H. rewrite counter_incr_keys.
  destruct (existsb _ _) eqn:E; [assumption |].
  apply NoDup_app; [assumption | repeat constructor; intros [] |].
  intros x Hx [<- | []].
  apply existsb_eqb_in in Hx. congruence.
Qed.

Lemma counter_update_nodup (ws : list pystr) (tbl : Counter) :
  NoDup (map fst tbl) -> NoDup (map fst (counter_update tbl ws)).
Proof.
  unfold counter_update. revert tbl.
  induction ws as [| w ws IH]; intros tbl H; cbn; [assumption |].
  apply IH. now apply counter_incr_nodup.
Qed.

Lemma counter_update_keys (ws : list pystr) (tbl : Counter) (k : pystr) :
  In k (map fst (counter_update tbl ws)) <-> In k (map fst tbl) \/ In k ws.
Proof.
  unfold counter_update. revert tbl.
  induction ws as [| w ws IH]; intros tbl; cbn [fold_left].
  - cbn. tauto.
  - rewrite IH, counter_incr_keys.
    destruct (existsb _ _) eqn:E.
    + apply existsb_eqb_in in E. cbn. split; [tauto |].
      intros [H | [<- | H]]; auto.
    + rewrite in_app_iff. cbn. tauto.
Qed.

Lemma counter_update_app (tbl : Counter) (a b : list pystr) :
  counter_update tbl (a ++ b) = counter_update (counter_update tbl a) b.
Proof. unfold counter_update. apply fold_left_app. Qed.

Lemma filter_flat_map {A B : Type} (f : B -> bool) (g : A -> list B)
  (l : list A) :
  filter f (flat_map g l) = flat_map (fun x => filter f (g x)) l.
Proof.
  induction l as [| x l IH]; cbn; [reflexivity |].
  now rewrite filter_app, IH.
Qed.

Lemma findall_words_nil : findall_words (lower []) = [].
Proof. reflexivity. Qed.

(** the loop over the notes counts the counted words, in input order *)
Lemma count_words_spec (feedback_notes : list (option pystr)) :
  count_words feedback_notes
  = counter_update [] (counted_words feedback_notes).
Proof.
  unfold count_words, counted_words, candidate_words.
  rewrite filter_flat_map.
  generalize (@nil (pystr * Z)) as tbl.
  induction feedback_notes as [| note notes IH]; intros tbl; [reflexivity |].
  cbn [fold_left flat_map]. rewrite counter_update_app, IH.
  f_equal. destruct note as [[| c text] |]; reflexivity.
Qed.

(** ** Selection of the most common entries *)

Lemma insert_desc_perm {A : Type} (key : A -> Z) (x : A) (l : list A) :
  Permutation (insert_desc key x l) (x :: l).
Proof.
  induction l as [| y l IH]; cbn; [reflexivity |].
  destruct (key y <=? key x)%Z; [reflexivity |].
  rewrite IH. apply perm_swap.
Qed.

Lemma sort_desc_perm {A : Type} (key : A -> Z) (l : list A) :
  Permutation (sort_desc key l) l.
Proof.
  induction l as [| x l IH]; cbn; [reflexivity |].
  rewrite insert_desc_perm. now constructor.
Qed.

Section Stability.

Context {A : Type} (key : A -> Z) (rank : A -> nat).

Lemma insert_desc_sorted (x : A) (l : list A) :
  Forall (fun y => (rank x < rank y)%nat) l ->
  StronglySorted (key_rank_order key rank) l ->
  StronglySorted (key_rank_order key rank) (insert_desc key x l).
Proof.
  intros Hrank Hsorted. induction Hsorted as [| y l Hl IH Hy]; cbn.
  - repeat constructor.
  - inversion Hrank as [| ? ? Hxy Hrank']; subst.
    destruct (Z.leb_spec (key y) (key x)) as [Hle | Hlt].
    + constructor; [constructor; assumption |].
      constructor.
      * unfold key_rank_order. lia.
      * rewrite Forall_forall in *. intros z Hz.
        specialize (Hy z Hz). specialize (Hrank' z Hz).
        unfold key_rank_order in *. lia.
    + constructor; [now apply IH |].
      rewrite Forall_forall in *. intros z Hz.
      apply (Permutation_in _ (insert_desc_perm key x l)) in Hz.
      destruct Hz as [<- | Hz]; [| now apply Hy].
      unfold key_rank_order. lia.
Qed.

(** the descending sort keeps entries of equal key in their original order *)
Lemma sort_desc_sorted (l : list A) :
  StronglySorted (fun a b => (rank a < rank b)%nat) l ->
  StronglySorted (key_rank_order key rank) (sort_desc key l).
Proof.
  induction 1 as [| x l Hl IH Hx]; cbn; [constructor |].
  apply insert_desc_sorted; [| assumption].
  rewrite Forall_forall in *. intros y Hy.
  apply Hx. now apply (Permutation_in _ (sort_desc_perm key l)).
Qed.

End Stability.

Lemma in_firstn {A : Type} (x : A) (n : nat) (l : list A) :
  In x (firstn n l) -> In x l.
Proof.
  revert l. induction n as [| n IH]; intros [| y l]; cbn; try tauto.
  intros [-> | H]; auto.
Qed.

Lemma StronglySorted_firstn {A : Type} (R : A -> A -> Prop) (n : nat)
  (l : list A) :
  StronglySorted R l -> StronglySorted R (firstn n l).
Proof.
  intros H. revert n. induction H as [| x l Hl IH Hx]; intros [| n]; cbn;
    try constructor.
  - apply IH.
  - rewrite Forall_forall in *. intros y Hy. apply Hx.
    now apply in_firstn with (n := n).
Qed.

Lemma StronglySorted_map {A B : Type} (R : B -> B -> Prop) (f : A -> B)
  (l : list A) :
  StronglySorted (fun a b => R (f a) (f b)) l -> StronglySorted R (map f l).
Proof.
  induction 1 as [| x l Hl IH Hx]; cbn; constructor; [assumption |].
  rewrite Forall_forall in *. intros y Hy.
  apply in_map_iff in Hy. destruct Hy as (z & <- & Hz). now apply Hx.
Qed.


(** *** First occurrences *)

Lemma first_index_in (w : pystr) (l : list pystr) :
  In w l -> (first_index w l < length l)%nat.
Proof.
  induction l as [| x l IH]; cbn; [intros [] |].
  destruct (pystr_eqb x w) eqn:E; [lia |].
  intros [-> | H]; [now rewrite pystr_eqb_refl in E |].
  apply IH in H. lia.
Qed.

Lemma first_index_app_in (w : pystr) (a b : list pystr) :
  In w a -> first_index w (a ++ b) = first_index w a.
Proof.
  induction a as [| x a IH]; cbn; [intros [] |].
  destruct (pystr_eqb x w) eqn:E; [reflexivity |].
  intros [-> | H]; [now rewrite pystr_eqb_refl in E |]. now rewrite IH.
Qed.

Lemma first_index_app_notin (w : pystr) (a b : list pystr) :
  ~ In w a -> (length a <= first_index w (a ++ b))%nat.
Proof.
  induction a as [| x a IH]; cbn; [lia |].
  intros H. destruct (pystr_eqb x w) eqn:E.
  - apply pystr_eqb_eq in E. subst. exfalso. apply H. now left.
  - assert (~ In w a) by tauto. apply IH in H0. lia.
Qed.

(** the table lists its words in the order of their first occurrence *)
Lemma counter_update_order (seen ws : list pystr) (tbl : Counter) :
  (forall k, In k (map fst tbl) <-> In k seen) ->
  StronglySorted
    (fun a b => (first_index a (seen ++ ws) < first_index b (seen ++ ws))%nat)
    (map fst tbl) ->
  StronglySorted
    (fun a b => (first_index a (seen ++ ws) < first_index b (seen ++ ws))%nat)
    (map fst (counter_update tbl ws)).
Proof.
  revert seen tbl. induction ws as [| w ws IH]; intros seen tbl Hkeys Hsorted.
  - exact Hsorted.
  - change (counter_update tbl (w :: ws))
      with (counter_update (counter_incr w tbl) ws).
    replace (seen ++ w :: ws) with ((seen ++ [w]) ++ ws) in *
      by (rewrite <- app_assoc; reflexivity).
    apply IH.
    + intros k. rewrite counter_incr_keys.
      destruct (existsb _ _) eqn:E.
      * apply existsb_eqb_in in E. rewrite in_app_iff. cbn.
        split.
        -- intros H. left. exact (proj1 (Hkeys k) H).
        -- intros [H | [<- | []]]; [exact (proj2 (Hkeys k) H) | assumption].
      * rewrite !in_app_iff, Hkeys. reflexivity.
    + rewrite counter_incr_keys.
      destruct (existsb _ _) eqn:E; [assumption |].
      assert (Hw : ~ In w seen).
      { rewrite <- Hkeys. intros H. apply existsb_eqb_in in H. congruence. }
      clear E.
      assert (Hseen : forall k, In k (map fst tbl) -> In k seen)
        by (intros k Hk; now apply Hkeys).
      clear Hkeys. revert Hseen.
      induction Hsorted as [| k l Hl IHl Hk]; intros Hseen; cbn.
      * repeat constructor.
      * constructor.
        -- apply IHl. intros k' Hk'. apply Hseen. now right.
        -- apply Forall_app. split; [assumption |].
           repeat constructor.
           assert (Hin : In k seen) by (apply Hseen; now left).
           rewrite <- !app_assoc.
           rewrite (@first_index_app_in k seen ([w] ++ ws) Hin).
           pose proof (@first_index_in k seen Hin).
           pose proof (@first_index_app_notin w seen ([w] ++ ws) Hw). lia.
Qed.

(** ** Theme extraction *)


Lemma StronglySorted_map_inv {A B : Type} (R : B -> B -> Prop) (f : A -> B)
  (l : list A) :
  StronglySorted R (map f l) -> StronglySorted (fun a b => R (f a) (f b)) l.
Proof.
  induction l as [| x l IH]; cbn; intros H; [constructor |].
  inversion H as [| ? ? Hl Hx]; subst. constructor; [now apply IH |].
  rewrite Forall_forall in *. intros y Hy. apply Hx. now apply in_map.
Qed.

(** the table built from the empty table lists the words in the order of
    their first occurrence *)
Lemma table_order (ws : list pystr) :
  StronglySorted
    (fun a b : pystr * Z =>
       (first_index (fst a) ws < first_index (fst b) ws)%nat)
    (counter_update [] ws).
Proof.
  apply StronglySorted_map_inv with (R := fun a b =>
    (first_index a ws < first_index b ws)%nat).
  apply (@counter_update_order [] ws []); [reflexivity | constructor].
Qed.





Example case_variants_collapse :
  extract_feedback_themes [Some (str "Python PYTHON python")] 10
  = [{| word := str "python"; count := 3 |}].
Proof. reflexivity. Qed.

(** C5: the output is in descending order of count and, for equal counts,
    in the order in which the words are first seen when the notes are
    scanned in input order: whenever an entry comes before another one in
    the output, either its count is strictly larger, or the counts are equal
    and its word is seen first. *)
Theorem themes_order (feedback_notes : list (option pystr)) (top_n : Z) :
  StronglySorted (ranked_before (counted_words feedback_notes))
                 (extract_feedback_themes feedback_notes top_n).
Proof.
  unfold extract_feedback_themes, most_common. rewrite count_words_spec.
  set (seen := counted_words feedback_notes).
  apply StronglySorted_map. apply StronglySorted_firstn.
  exact (sort_desc_sorted snd (fun a => first_index (fst a) seen)
           (table_order seen)).
Qed.

(** ** Binary64 rounding *)

Section Rounding.

Local Open Scope Q_scope.

Lemma pow2_pos (e : Z) : 0 < 2 ^ e.
Proof. apply Qpower_0_lt. reflexivity. Qed.

Lemma pow2_add (a b : Z) : 2 ^ (a + b) == 2 ^ a * 2 ^ b.
Proof. apply Qpower_plus. discriminate. Qed.

Lemma pow2_inject (m : Z) : (0 <= m)%Z -> 2 ^ m == inject_Z (2 ^ m).
Proof. intros H. symmetry. exact (Zpower_Qpower 2 m H). Qed.

Lemma pow2_le (a b : Z) : (a <= b)%Z -> 2 ^ a <= 2 ^ b.
Proof. intros H. apply Qpower_le_compat_l; [assumption | discriminate]. Qed.

Lemma pow2_div (a b : Z) : 2 ^ a / 2 ^ b == 2 ^ (a - b).
Proof.
  pose proof (pow2_pos b) as Hb.
  assert (E : 2 ^ a == 2 ^ (a - b) * 2 ^ b).
  { rewrite <- pow2_add. now replace (a - b + b)%Z with a by lia. }
  rewrite E. field. lra.
Qed.

Lemma round_half_even_mono (x y : Q) :
  x <= y -> (round_half_even x <= round_half_even y)%Z.
Proof.
  intros Hxy. pose proof (Qfloor_resp_le _ _ Hxy) as Hf.
  unfold round_half_even.
  destruct (Z.eq_dec (Qfloor x) (Qfloor y)) as [E | NE].
  - rewrite <- E.
    destruct (Qcompare_spec (x - inject_Z (Qfloor x)) (1 # 2));
      destruct (Qcompare_spec (y - inject_Z (Qfloor x)) (1 # 2));
      try lia; try (exfalso; lra); destruct (Z.even (Qfloor x)); lia.
  - destruct (Qcompare _ _); destruct (Qcompare _ _);
      repeat destruct (Z.even _); lia.
Qed.

Lemma round_half_even_inject (x : Q) (n : Z) :
  x == inject_Z n -> round_half_even x = n.
Proof.
  intros H. unfold round_half_even.
  rewrite (Qfloor_comp _ _ H), Qfloor_Z.
  destruct (Qcompare_spec (x - inject_Z n) (1 # 2)); [lra | reflexivity | lra].
Qed.

Lemma ilog2_spec (x : Q) :
  0 < x -> 2 ^ ilog2 x <= x /\ x < 2 ^ (ilog2 x + 1).
Proof.
  destruct x as [n d]. intros Hx.
  assert (Hn : (0 < n)%Z) by (unfold Qlt in Hx; cbn in Hx; lia).
  unfold ilog2. cbn [Qnum Qden].
  set (a := Z.log2 n). set (b := Z.log2 (Z.pos d)).
  assert (Ha : (0 <= a)%Z) by apply Z.log2_nonneg.
  assert (Hb : (0 <= b)%Z) by apply Z.log2_nonneg.
  destruct (Z.log2_spec n Hn) as [Ha1 Ha2]. fold a in Ha1, Ha2.
  destruct (Z.log2_spec (Z.pos d) eq_refl) as [Hb1 Hb2]. fold b in Hb1, Hb2.
  rewrite Zle_Qle in Ha1, Hb1. rewrite Zlt_Qlt in Ha2, Hb2.
  rewrite <- pow2_inject in Ha1, Hb1 by lia.
  rewrite <- pow2_inject in Ha2, Hb2 by lia.
  replace (Z.succ a) with (a + 1)%Z in Ha2 by lia.
  replace (Z.succ b) with (b + 1)%Z in Hb2 by lia.
  assert (Hq : n # d == inject_Z n / inject_Z (Z.pos d)) by apply Qmake_Qdiv.
  assert (Hd : 0 < inject_Z (Z.pos d)) by (unfold Qlt; cbn; lia).
  destruct (Qle_bool (2 ^ (a - b)) (n # d)) eqn:E.
  - apply Qle_bool_iff in E. split; [exact E |].
    rewrite Hq. apply Qlt_shift_div_r; [exact Hd |].
    pose proof (pow2_pos (a - b + 1)) as Hp.
    assert (Hmul : 2 ^ (a - b + 1) * 2 ^ b == 2 ^ (a + 1)).
    { rewrite <- pow2_add. now replace (a - b + 1 + b)%Z with (a + 1)%Z by lia. }
    nra.
  - assert (E' : n # d < 2 ^ (a - b)).
    { apply Qnot_le_lt. intros H. apply Qle_bool_iff in H. congruence. }
    split.
    + rewrite Hq. apply Qle_shift_div_l; [exact Hd |].
      pose proof (pow2_pos (a - b - 1)) as Hp.
      assert (Hmul : 2 ^ (a - b - 1) * 2 ^ (b + 1) == 2 ^ a).
      { rewrite <- pow2_add. now replace (a - b - 1 + (b + 1))%Z with a by lia. }
      nra.
    + now replace (a - b - 1 + 1)%Z with (a - b)%Z by lia.
Qed.

Lemma ilog2_mono (x y : Q) : 0 < x -> x <= y -> (ilog2 x <= ilog2 y)%Z.
Proof.
  intros Hx Hxy.
  destruct (ilog2_spec Hx) as [H1 _].
  assert (Hy : 0 < y) by lra.
  destruct (ilog2_spec Hy) as [_ H2].
  assert (H : 2 ^ ilog2 x < 2 ^ (ilog2 y + 1)) by lra.
  apply Qpower_lt_compat_l_inv in H; [lia | reflexivity].
Qed.

Lemma rne_pos_value (x : Q) :
  rne_pos x
  == inject_Z (round_half_even (x / 2 ^ fexp (ilog2 x))) * 2 ^ fexp (ilog2 x).
Proof. unfold rne_pos. apply Qred_correct. Qed.

Lemma div_pow2_le (x y : Q) (e : Z) : x <= y -> x / 2 ^ e <= y / 2 ^ e.
Proof.
  intros H. pose proof (pow2_pos e).
  apply Qle_shift_div_l; [assumption |].
  unfold Qdiv. rewrite <- Qmult_assoc, (Qmult_comm (/ 2 ^ e)), Qmult_inv_r by lra.
  lra.
Qed.

Lemma rne_pos_mono (x y : Q) : 0 < x -> x <= y -> rne_pos x <= rne_pos y.
Proof.
  intros Hx Hxy. assert (Hy : 0 < y) by lra.
  rewrite !rne_pos_value.
  pose proof (ilog2_mono Hx Hxy) as Hk.
  set (kx := ilog2 x) in *. set (ky := ilog2 y) in *.
  destruct (Z.eq_dec (fexp kx) (fexp ky)) as [E | NE].
  - rewrite E. pose proof (pow2_pos (fexp ky)) as Hp.
    pose proof (round_half_even_mono (div_pow2_le (fexp ky) Hxy)) as Hr.
    rewrite Zle_Qle in Hr. nra.
  - assert (Hlt : (kx < ky)%Z) by (unfold fexp in NE; lia).
    assert (Hey : fexp ky = (ky - 52)%Z) by (unfold fexp in *; lia).
    assert (Hex : (fexp kx < fexp ky)%Z) by (unfold fexp in *; lia).
    destruct (ilog2_spec Hx) as [_ Hx2]. fold kx in Hx2.
    destruct (ilog2_spec Hy) as [Hy1 _]. fold ky in Hy1.
    assert (Hmid : 2 ^ (kx + 1) <= 2 ^ ky) by (apply pow2_le; lia).
    apply Qle_trans with (y := 2 ^ ky).
    + assert (Hr : (round_half_even (x / 2 ^ fexp kx) <= 2 ^ (ky - fexp kx))%Z).
      { rewrite <- (@round_half_even_inject (2 ^ ky / 2 ^ fexp kx)
                      (2 ^ (ky - fexp kx))).
        - apply round_half_even_mono, div_pow2_le. lra.
        - rewrite pow2_div. apply pow2_inject. lia. }
      rewrite Zle_Qle in Hr. rewrite <- pow2_inject in Hr by lia.
      pose proof (pow2_pos (fexp kx)) as Hp.
      assert (Hmul : 2 ^ (ky - fexp kx) * 2 ^ fexp kx == 2 ^ ky).
      { rewrite <- pow2_add. now replace (ky - fexp kx + fexp kx)%Z with ky by lia. }
      nra.
    + assert (Hr : (2 ^ 52 <= round_half_even (y / 2 ^ fexp ky))%Z).
      { rewrite <- (@round_half_even_inject (2 ^ ky / 2 ^ fexp ky) (2 ^ 52)).
        - apply round_half_even_mono, div_pow2_le. exact Hy1.
        - rewrite pow2_div, Hey. replace (ky - (ky - 52))%Z with 52%Z by lia.
          apply pow2_inject. lia. }
      rewrite Zle_Qle in Hr. rewrite <- pow2_inject in Hr by lia.
      pose proof (pow2_pos (fexp ky)) as Hp.
      assert (Hmul : 2 ^ 52 * 2 ^ fexp ky == 2 ^ ky).
      { rewrite <- pow2_add, Hey. now replace (52 + (ky - 52))%Z with ky by lia. }
      nra.
Qed.

End Rounding.

Section Bounds.

Local Open Scope Q_scope.

Lemma rne_of_pos (x : Q) : 0 < x -> rne x = rne_pos x.
Proof.
  destruct x as [n d]. unfold Qlt, rne. cbn. intros H.
  destruct n; [lia | reflexivity | lia].
Qed.

Lemma rne_of_zero (x : Q) : x == 0 -> rne x = 0.
Proof.
  destruct x as [n d]. unfold Qeq, rne. cbn. intros H.
  destruct n; [reflexivity | lia | lia].
Qed.

Lemma rne_pos_nonneg (x : Q) : 0 < x -> 0 <= rne_pos x.
Proof.
  intros Hx. rewrite rne_pos_value.
  pose proof (pow2_pos (fexp (ilog2 x))) as Hp.
  assert (H : (0 <= round_half_even (x / 2 ^ fexp (ilog2 x)))%Z).
  { rewrite <- (@round_half_even_inject 0 0) by reflexivity.
    apply round_half_even_mono. apply Qle_shift_div_l; [lra | nra]. }
  rewrite Zle_Qle in H. change (inject_Z 0) with 0 in H.
  apply Qmult_le_0_compat; [exact H | lra].
Qed.

(** rounding is monotone on the non-negative numbers *)
Lemma rne_mono (x y : Q) : 0 <= x -> x <= y -> rne x <= rne y.
Proof.
  intros Hx Hxy.
  destruct (Qlt_le_dec 0 x) as [Hpos | Hzero].
  - rewrite !rne_of_pos by lra. now apply rne_pos_mono.
  - rewrite (@rne_of_zero x) by lra.
    destruct (Qlt_le_dec 0 y) as [Hy | Hy].
    + rewrite rne_of_pos by exact Hy. now apply rne_pos_nonneg.
    + rewrite (@rne_of_zero y) by lra. lra.
Qed.

Lemma rne_nonneg (x : Q) : 0 <= x -> 0 <= rne x.
Proof.
  intros H. change 0 with (rne 0) at 1. apply rne_mono; lra.
Qed.

(** a rounded value below 128 is a finite float *)
Lemma round64_bounded (x : Q) (b : Q) :
  0 <= x -> x <= b -> b <= 128 ->
  round64 x = FFinite (rne x) /\ 0 <= rne x /\ rne x <= rne b.
Proof.
  intros H0 Hb H128.
  pose proof (rne_nonneg H0) as Hr0.
  pose proof (rne_mono H0 Hb) as Hrb.
  assert (Hr128 : rne x <= 128).
  { change 128 with (rne 128). apply rne_mono; lra. }
  split; [| split; assumption].
  unfold round64. cbv zeta.
  destruct (Qle_bool overflow_threshold (Qabs (rne x))) eqn:E; [| reflexivity].
  apply Qle_bool_iff in E. rewrite Qabs_pos in E by assumption.
  assert (128 < overflow_threshold) by reflexivity. lra.
Qed.

Lemma literal_07 : literal (7 # 10) = FFinite c07.
Proof. reflexivity. Qed.

Lemma literal_03 : literal (3 # 10) = FFinite c03.
Proof. reflexivity. Qed.

Lemma literal_100 : literal 100 = FFinite 100.
Proof. reflexivity. Qed.

Lemma int_truediv_ratio (a b : Z) :
  (0 <= a <= b)%Z -> (0 < b)%Z ->
  exists q, int_truediv a b = Ok (FFinite q) /\ 0 <= q <= 1.
Proof.
  intros Ha Hb. unfold int_truediv.
  destruct (Z.eqb_spec b 0) as [E | _]; [lia |].
  assert (Hb' : 0 < inject_Z b) by (rewrite (Zlt_Qlt 0 b) in Hb; exact Hb).
  assert (Ha0 : inject_Z 0 <= inject_Z a) by (rewrite <- Zle_Qle; lia).
  change (inject_Z 0) with 0 in Ha0.
  assert (Hab : inject_Z a <= inject_Z b) by (rewrite <- Zle_Qle; lia).
  assert (H0 : 0 <= inject_Z a / inject_Z b)
    by (apply Qle_shift_div_l; lra).
  assert (H1 : inject_Z a / inject_Z b <= 1)
    by (apply Qle_shift_div_r; lra).
  destruct (@round64_bounded _ 1 H0 H1) as (-> & Hq0 & Hq1); [lra |].
  eexists. split; [reflexivity |]. split; [assumption | exact Hq1].
Qed.

(** the score of the formula is a float between 0 and 100 written with two
    decimal places *)
Lemma score_formula_bounds (p f t : Z) :
  (0 <= p <= f)%Z -> (0 < f <= t)%Z ->
  exists q k,
    score_formula p f t = Ok (FFinite q)
    /\ 0 <= q /\ q <= 100
    /\ (0 <= k <= 10000)%Z
    /\ FFinite q = two_decimals k.
Proof.
  intros Hp Hf. unfold score_formula.
  destruct (@int_truediv_ratio p f) as (x1 & -> & Hx1); [lia | lia |].
  destruct (@int_truediv_ratio f t) as (x2 & -> & Hx2); [lia | lia |].
  cbn [bind]. rewrite literal_07, literal_03, literal_100.
  cbn [float_mul].
  assert (Hc07 : 0 <= c07 /\ c07 <= 1)
    by (split; vm_compute; discriminate).
  assert (Hc03 : 0 <= c03 /\ c03 <= 1)
    by (split; vm_compute; discriminate).
  destruct (@round64_bounded (x1 * c07) c07) as (-> & Ha0 & Ha1);
    [nra | nra | lra |].
  destruct (@round64_bounded (x2 * c03) c03) as (-> & Hb0 & Hb1);
    [nra | nra | lra |].
  change (rne c07) with c07 in Ha1. change (rne c03) with c03 in Hb1.
  cbn [float_add].
  destruct (@round64_bounded (rne (x1 * c07) + rne (x2 * c03)) (c07 + c03))
    as (-> & Hs0 & Hs1); [lra | lra | lra |].
  change (rne (c07 + c03)) with 1 in Hs1.
  cbn [float_mul].
  set (s := rne (rne (x1 * c07) + rne (x2 * c03))) in *.
  destruct (@round64_bounded (s * 100) 100) as (-> & Hy0 & Hy1);
    [lra | lra | lra |].
  change (rne 100) with 100 in Hy1.
  set (y := rne (s * 100)) in *.
  cbn [round2].
  set (k := round_half_even (y * 100)).
  assert (Hk0 : (0 <= k)%Z).
  { unfold k. rewrite <- (@round_half_even_inject 0 0) by reflexivity.
    apply round_half_even_mono. lra. }
  assert (Hk1 : (k <= 10000)%Z).
  { unfold k. rewrite <- (@round_half_even_inject (100 * 100) 10000)
      by reflexivity.
    apply round_half_even_mono. lra. }
  assert (Hq0 : 0 <= inject_Z k / 100).
  { apply Qle_shift_div_l; [reflexivity |]. rewrite Zle_Qle in Hk0.
    change (inject_Z 0) with 0 in Hk0. lra. }
  assert (Hq1 : inject_Z k / 100 <= 100).
  { apply Qle_shift_div_r; [reflexivity |]. rewrite Zle_Qle in Hk1.
    change (inject_Z 10000) with 10000 in Hk1. lra. }
  destruct (@round64_bounded (inject_Z k / 100) 100 Hq0 Hq1)
    as (E & Hr0 & Hr1); [lra |].
  change (rne 100) with 100 in Hr1.
  exists (rne (inject_Z k / 100)), k.
  split; [now rewrite E |]. split; [assumption |]. split; [assumption |].
  split; [lia |]. unfold two_decimals. now rewrite E.
Qed.

(** a ratio of counts as a percentage with two decimal places *)
Lemma percent_rounded_bounds (a b : Z) :
  (0 <= a <= b)%Z -> (0 < b)%Z ->
  exists q k,
    percent_rounded a b = Ok (FFinite q)
    /\ 0 <= q /\ q <= 100
    /\ (0 <= k <= 10000)%Z
    /\ FFinite q = two_decimals k.
Proof.
  intros Ha Hb. unfold percent_rounded.
  destruct (@int_truediv_ratio a b Ha Hb) as (x & -> & Hx).
  cbn [bind]. rewrite literal_100. cbn [float_mul].
  destruct (@round64_bounded (x * 100) 100) as (-> & Hy0 & Hy1);
    [lra | lra | lra |].
  change (rne 100) with 100 in Hy1.
  set (y := rne (x * 100)) in *.
  cbn [round2].
  set (k := round_half_even (y * 100)).
  assert (Hk0 : (0 <= k)%Z).
  { unfold k. rewrite <- (@round_half_even_inject 0 0) by reflexivity.
    apply round_half_even_mono. lra. }
  assert (Hk1 : (k <= 10000)%Z).
  { unfold k. rewrite <- (@round_half_even_inject (100 * 100) 10000)
      by reflexivity.
    apply round_half_even_mono. lra. }
  assert (Hq0 : 0 <= inject_Z k / 100).
  { apply Qle_shift_div_l; [reflexivity |]. rewrite Zle_Qle in Hk0.
    change (inject_Z 0) with 0 in Hk0. lra. }
  assert (Hq1 : inject_Z k / 100 <= 100).
  { apply Qle_shift_div_r; [reflexivity |]. rewrite Zle_Qle in Hk1.
    change (inject_Z 10000) with 10000 in Hk1. lra. }
  destruct (@round64_bounded (inject_Z k / 100) 100 Hq0 Hq1)
    as (E & Hr0 & Hr1); [lra |].
  change (rne 100) with 100 in Hr1.
  exists (rne (inject_Z k / 100)), k.
  split; [now rewrite E |]. split; [assumption |]. split; [assumption |].
  split; [lia |]. unfold two_decimals. now rewrite E.
Qed.

End Bounds.

(** ** Quality score: formula and range *)

Lemma filter_and_length {A : Type} (f g : A -> bool) (l : list A) :
  (length (filter (fun x => f x && g x) l) <= length (filter f l))%nat.
Proof.
  induction l as [| x l IH]; cbn; [lia |].
  destruct (f x), (g x); cbn; lia.
Qed.

Lemma positive_le_feedback (s : Store) (conv : Conversation) :
  (0 <= positive_count_of s conv <= feedback_count_of s conv)%Z.
Proof.
  unfold positive_count_of, feedback_count_of, len.
  pose proof (filter_and_length
                (message_in (messages_with_role s conv ROLE_AI)) fb_rating
                (feedbacks s)).
  lia.
Qed.

(** selecting rows keeps the message keys distinct *)
Lemma selected_messages_distinct (select : Feedback -> bool)
  (rows : list Feedback) :
  NoDup (map fb_message rows) -> NoDup (map fb_message (filter select rows)).
Proof.
  induction rows as [| fb rows IH]; cbn; [auto |].
  intros H. inversion H as [| ? ? Hfb Hrows]; subst.
  destruct (select fb); cbn; [| auto].
  constructor; [| auto].
  intros Hin. apply Hfb. apply in_map_iff in Hin.
  destruct Hin as (y & Hy & Hin). apply filter_In in Hin.
  rewrite <- Hy. apply in_map. tauto.
Qed.

(** in a well-formed store a conversation has at most as many rated AI
    messages as AI messages *)
Lemma feedback_count_le_total_ai (s : Store) (conv : Conversation) :
  store_ok s -> (feedback_count_of s conv <= total_ai_of s conv)%Z.
Proof.
  intros Hok. unfold feedback_count_of, total_ai_of, len.
  set (ai := messages_with_role s conv ROLE_AI).
  assert (H : (length (map fb_message (filter (message_in ai) (feedbacks s)))
               <= length (map msg_id ai))%nat).
  { apply NoDup_incl_length.
    - apply selected_messages_distinct. exact (ok_one_feedback Hok).
    - intros k Hk. apply in_map_iff in Hk. destruct Hk as (fb & <- & Hfb).
      apply filter_In in Hfb. destruct Hfb as [_ Hin].
      unfold message_in in Hin. apply existsb_exists in Hin.
      destruct Hin as (m & Hm & E). apply Z.eqb_eq in E.
      rewrite <- E. now apply in_map. }
  rewrite !length_map in H. lia.
Qed.

(** past the two guards the function evaluates the formula *)
Lemma quality_score_unfold (s : Store) (conv : Conversation) :
  (0 < total_ai_of s conv)%Z -> (0 < feedback_count_of s conv)%Z ->
  calculate_quality_score s conv
  = (score <- score_formula (positive_count_of s conv)
                (feedback_count_of s conv) (total_ai_of s conv) ;;
     Ok (Some score)).
Proof.
  intros Ht Hf. unfold calculate_quality_score, score_formula. cbv zeta.
  fold (total_ai_of s conv). fold (feedback_count_of s conv).
  fold (positive_count_of s conv).
  destruct (Z.eqb_spec (total_ai_of s conv) 0) as [E0 | _]; [lia |].
  destruct (Z.eqb_spec (feedback_count_of s conv) 0) as [E0 | _]; [lia |].
  destruct (int_truediv (positive_count_of s conv) (feedback_count_of s conv));
    [| reflexivity].
  cbn [bind].
  destruct (int_truediv (feedback_count_of s conv) (total_ai_of s conv));
    reflexivity.
Qed.

(** in a well-formed store the score of every conversation is computed:
    nothing is raised *)
Lemma quality_score_defined (s : Store) (conv : Conversation) :
  store_ok s -> exists r, calculate_quality_score s conv = Ok r.
Proof.
  intros Hok.
  destruct (Z.eq_dec (total_ai_of s conv) 0) as [Ht | Ht].
  { exists None. unfold calculate_quality_score. cbv zeta.
    fold (total_ai_of s conv). now rewrite Ht. }
  destruct (Z.eq_dec (feedback_count_of s conv) 0) as [Hf | Hf].
  { exists None. unfold calculate_quality_score. cbv zeta.
    fold (total_ai_of s conv). fold (feedback_count_of s conv).
    rewrite Hf. now destruct (total_ai_of s conv =? 0)%Z. }
  assert (Ht0 : (0 <= total_ai_of s conv)%Z) by (unfold total_ai_of, len; lia).
  assert (Hf0 : (0 <= feedback_count_of s conv)%Z)
    by (unfold feedback_count_of, len; lia).
  pose proof (feedback_count_le_total_ai conv Hok) as Hle.
  destruct (@score_formula_bounds (positive_count_of s conv)
              (feedback_count_of s conv) (total_ai_of s conv)
              (positive_le_feedback s conv))
    as (q & k & Hscore & _); [lia |].
  exists (Some (FFinite q)).
  rewrite quality_score_unfold by lia. now rewrite Hscore.
Qed.

(** C1: for a conversation with at least one AI message and at least one
    feedback on its AI messages, the score is the value of
    [round((positiveCount / feedbackCount * 0.7
            + feedbackCount / totalAI * 0.3) * 100, 2)];
    when moreover [feedbackCount <= totalAI], the score is defined, lies
    between 0 and 100, and is the float written with two decimal places as
    [k / 100] for an integer [k] between 0 and 10000. *)
Theorem quality_score_formula_and_range (s : Store) (conv : Conversation) :
  let total_ai := total_ai_of s conv in
  let feedback_count := feedback_count_of s conv in
  let positive_count := positive_count_of s conv in
  (0 < total_ai)%Z -> (0 < feedback_count)%Z ->
  calculate_quality_score s conv
  = (score <- score_formula positive_count feedback_count total_ai ;;
     Ok (Some score))
  /\ ((feedback_count <= total_ai)%Z ->
      exists q k,
        calculate_quality_score s conv = Ok (Some (FFinite q))
        /\ (0 <= q)%Q /\ (q <= 100)%Q
        /\ (0 <= k <= 10000)%Z
        /\ FFinite q = two_decimals k).
Proof.
  cbv zeta. intros Ht Hf.
  pose proof (quality_score_unfold s conv Ht Hf) as E.
  split; [exact E |].
  intros Hle.
  destruct (@score_formula_bounds (positive_count_of s conv)
              (feedback_count_of s conv) (total_ai_of s conv)
              (positive_le_feedback s conv) (conj Hf Hle))
    as (q & k & Hscore & Hq0 & Hq1 & Hk & Hdec).
  exists q, k. rewrite E, Hscore. cbn [bind]. auto.
Qed.

Lemma quality_score_formula_and_range_witness :
  calculate_quality_score three_ratings rated_conversation
  = Ok (Some (two_decimals 7667)).
Proof.
  rewrite (proj1 (@quality_score_formula_and_range three_ratings
                    rated_conversation eq_refl eq_refl)).
  reflexivity.
Defined.

(** the scores of the conversations the tests build *)
Example score_all_negative :
  score_formula 0 2 2 = Ok (two_decimals 3000).
Proof. reflexivity. Qed.

Example score_all_positive :
  score_formula 2 2 2 = Ok (two_decimals 10000).
Proof. reflexivity. Qed.

Example score_partial_feedback :
  score_formula 1 1 3 = Ok (two_decimals 8000).
Proof. reflexivity. Qed.

(** ** Rates of the insights report *)

Lemma percentage_spec (a b : Z) (v : number) :
  (0 <= b)%Z -> percentage a b = Ok v ->
  (b = 0%Z -> v = NInt 0)
  /\ (b <> 0%Z ->
      exists ratio, int_truediv a b = Ok ratio
                    /\ v = NFloat (float_mul ratio (literal 100))).
Proof.
  intros Hb. unfold percentage.
  destruct (Z.gtb_spec b 0) as [Hpos | Hzero].
  - destruct (int_truediv a b) as [ratio | e]; cbn [bind]; [| discriminate].
    intros [= <-]. split; [lia |]. intros _. eauto.
  - intros [= <-]. split; [reflexivity | lia].
Qed.

Lemma percent_rounded_spec (a b : Z) (ratio : pyfloat) :
  int_truediv a b = Ok ratio ->
  percent_rounded a b = Ok (round2 (float_mul ratio (literal 100))).
Proof. unfold percent_rounded. now intros ->. Qed.

(** the part of the report that does not depend on the summary *)
Lemma insights_feedback_stats (generate_reply : Generator) (s : Store)
  (param : option pystr) (report : InsightsReport) :
  response (InsightsView_get generate_reply s param)
  = Ok {| status := 200; body := InsightsBody report |} ->
  exists sat rate,
    percentage (len (filter fb_rating (feedbacks s))) (len (feedbacks s))
    = Ok sat
    /\ percentage (len (feedbacks s))
         (len (filter (fun m => role_eqb (msg_role m) ROLE_AI) (messages s)))
       = Ok rate
    /\ feedback report
       = {| total_feedback := len (feedbacks s);
            positive_feedback := len (filter fb_rating (feedbacks s));
            negative_feedback :=
              len (filter (fun fb => negb (fb_rating fb)) (feedbacks s));
            satisfaction_rate := round_number sat;
            feedback_rate := round_number rate |}
    /\ total_ai_messages (usage report)
       = len (filter (fun m => role_eqb (msg_role m) ROLE_AI) (messages s)).
Proof.
  unfold InsightsView_get.
  destruct (percentage (len (filter fb_rating (feedbacks s)))
                       (len (feedbacks s))) as [sat | e]; cbn [bind];
    [| discriminate].
  destruct (percentage (len (feedbacks s)) _) as [rate | e]; cbn [bind];
    [| discriminate].
  destruct (map_result _ _) as [convs | e]; cbn [bind]; [| discriminate].
  destruct (average_of _) as [avg | e]; cbn [bind]; [| discriminate].
  destruct (include_summary_of param).
  - destruct (generate_reply _ _) as [text | e]; [| destruct e];
      cbn [response respond escape]; intros H; inversion H; subst;
      exists sat, rate; auto.
  - cbn [response respond]. intros H. inversion H; subst.
    exists sat, rate. auto.
Qed.

(** C6: in a report, [satisfaction_rate] is
    [positive_feedback / total_feedback * 100] rounded to two decimal places,
    and 0 when [total_feedback] is 0; [feedback_rate] is
    [total_feedback / total_ai_messages * 100] rounded to two decimal places,
    and 0 when [total_ai_messages] is 0.  The satisfaction rate, when it is
    not 0 by the guard, is a float between 0 and 100 written with two decimal
    places. *)
Theorem insights_rates (generate_reply : Generator) (s : Store)
  (param : option pystr) (report : InsightsReport) :
  response (InsightsView_get generate_reply s param)
  = Ok {| status := 200; body := InsightsBody report |} ->
  let stats := feedback report in
  let total_ai := total_ai_messages (usage report) in
  total_feedback stats = len (feedbacks s)
  /\ positive_feedback stats = len (filter fb_rating (feedbacks s))
  /\ total_ai
     = len (filter (fun m => role_eqb (msg_role m) ROLE_AI) (messages s))
  /\ (total_feedback stats = 0%Z -> satisfaction_rate stats = NInt 0)
  /\ (total_feedback stats <> 0%Z ->
      exists x,
        percent_rounded (positive_feedback stats) (total_feedback stats) = Ok x
        /\ satisfaction_rate stats = NFloat x)
  /\ (total_feedback stats <> 0%Z ->
      exists q k,
        satisfaction_rate stats = NFloat (FFinite q)
        /\ (0 <= q)%Q /\ (q <= 100)%Q /\ FFinite q = two_decimals k)
  /\ (total_ai = 0%Z -> feedback_rate stats = NInt 0)
  /\ (total_ai <> 0%Z ->
      exists x,
        percent_rounded (total_feedback stats) total_ai = Ok x
        /\ feedback_rate stats = NFloat x).
Proof.
  intros H. cbv zeta.
  destruct (insights_feedback_stats _ _ _ H)
    as (sat & rate & Hsat & Hrate & -> & ->).
  cbn [total_feedback positive_feedback satisfaction_rate feedback_rate].
  apply percentage_spec in Hsat; [| unfold len; lia].
  apply percentage_spec in Hrate; [| unfold len; lia].
  destruct Hsat as [Hsat0 Hsat1]. destruct Hrate as [Hrate0 Hrate1].
  repeat split.
  - intros E. now rewrite (Hsat0 E).
  - intros E. destruct (Hsat1 E) as (ratio & Hdiv & ->).
    eexists. split; [apply percent_rounded_spec; exact Hdiv |]. reflexivity.
  - intros E. destruct (Hsat1 E) as (ratio & Hdiv & ->).
    destruct (@percent_rounded_bounds (len (filter fb_rating (feedbacks s)))
                (len (feedbacks s)))
      as (q & k & Hq & Hq0 & Hq1 & _ & Hk).
    + unfold len. pose proof (filter_length_le fb_rating (feedbacks s)). lia.
    + unfold len in *. lia.
    + rewrite (@percent_rounded_spec _ _ _ Hdiv) in Hq. inversion Hq as [Hq'].
      exists q, k. cbn [round_number]. rewrite Hq'. auto.
  - intros E. now rewrite (Hrate0 E).
  - intros E. destruct (Hrate1 E) as (ratio & Hdiv & ->).
    eexists. split; [apply percent_rounded_spec; exact Hdiv |]. reflexivity.
Qed.

(** two positive out of three feedback on three AI messages: 66.67 and
    100.0 *)
Lemma insights_rates_witness :
  percent_rounded 2 3 = Ok (two_decimals 6667)
  /\ percent_rounded 3 3 = Ok (two_decimals 10000)
  /\ exists report,
       response (InsightsView_get failing_generator three_ratings None)
       = Ok {| status := 200; body := InsightsBody report |}
       /\ satisfaction_rate (feedback report) = NFloat (two_decimals 6667)
       /\ feedback_rate (feedback report) = NFloat (two_decimals 10000).
Proof.
  split; [vm_compute; reflexivity |]. split; [vm_compute; reflexivity |].
  assert (H : exists report,
             response (InsightsView_get failing_generator three_ratings None)
             = Ok {| status := 200; body := InsightsBody report |})
    by (eexists; vm_compute; reflexivity).
  destruct H as [report H]. exists report. split; [exact H |].
  destruct (@insights_rates failing_generator three_ratings None report H)
    as (Htotal & Hpos & Hai & _ & Hsat & _ & _ & Hrate).
  rewrite Htotal, Hpos in Hsat. rewrite Htotal, Hai in Hrate.
  destruct Hsat as (x & Hx & ->); [discriminate |].
  destruct Hrate as (y & Hy & ->); [discriminate |].
  vm_compute in Hx. vm_compute in Hy.
  inversion Hx. inversion Hy. split; vm_compute; reflexivity.
Defined.

(** ** Cross-checks of the float model *)

(** on all counts up to 20 the rounding of [Float64] returns what the
    Standard Library's binary64 operations return *)
Example binary64_cross_check : scores_agree 20 = true.
Proof. vm_compute. reflexivity. Qed.

(** [round(x, 2)] rounds the exact binary value, ties to even:
    [round(2.675, 2) == 2.67], [round(0.125, 2) == 0.12],
    [round(0.375, 2) == 0.38] *)
Example round2_examples :
  round2 (literal (2675 # 1000)) = literal (267 # 100)
  /\ round2 (literal (125 # 1000)) = literal (12 # 100)
  /\ round2 (literal (375 # 1000)) = literal (38 # 100).
Proof. vm_compute. repeat split. Qed.

(** below the normal range and at overflow the rounding agrees with the
    Standard Library's operations as well: [5 / 2^1076] rounds to the
    smallest subnormal [2^-1074], and [2^1024] is not a finite float *)
Example binary64_range_cross_check :
  Q_of_SF (SFdiv 53 1024 (SFdiv 53 1024 (SF_of_Z 5) (SF_of_Z (2 ^ 1000)))
                         (SF_of_Z (2 ^ 76)))
  = finite_value (round64 (5 / 2 ^ 1076))
  /\ finite_value (round64 (5 / 2 ^ 1076)) = Some (Qred (1 / 2 ^ 1074))
  /\ SF_of_Z (2 ^ 1024) = S754_infinity false
  /\ round64 (inject_Z (2 ^ 1024)) = FInf false.
Proof. vm_compute. repeat split. Qed.

(** ** The statistics of the insights report are always computed *)

Section Totality.

Local Open Scope Q_scope.

Lemma rne_pow2_1000 : rne (2 ^ 1000) == 2 ^ 1000.
Proof. vm_compute. reflexivity. Qed.

Lemma round64_in_range (x : Q) :
  0 <= x -> x <= 2 ^ 1000 -> round64 x = FFinite (rne x) /\ 0 <= rne x.
Proof.
  intros H0 Hb.
  pose proof (rne_nonneg H0) as Hr0.
  pose proof (rne_mono H0 Hb) as Hrb. rewrite rne_pow2_1000 in Hrb.
  split; [| assumption].
  unfold round64. cbv zeta.
  destruct (Qle_bool overflow_threshold (Qabs (rne x))) eqn:E; [| reflexivity].
  apply Qle_bool_iff in E. rewrite Qabs_pos in E by assumption.
  assert (H : 2 ^ 1000 < overflow_threshold).
  { unfold overflow_threshold. apply Qpower_lt_compat_l; [lia | reflexivity]. }
  lra.
Qed.

(** the conversion of a count below 2^53 is a finite float, not zero for a
    positive count *)
Lemma float_of_count (n : Z) :
  (0 < n < 2 ^ 53)%Z ->
  exists q, float_of_int n = Ok (FFinite q) /\ is_zero q = false.
Proof.
  intros Hn. unfold float_of_int.
  assert (H1 : 1 <= inject_Z n).
  { change 1 with (inject_Z 1). rewrite <- Zle_Qle. lia. }
  assert (H2 : inject_Z n <= 2 ^ 1000).
  { apply Qle_trans with (y := 2 ^ 53).
    - rewrite pow2_inject by lia. rewrite <- Zle_Qle. lia.
    - apply pow2_le. lia. }
  destruct (@round64_in_range (inject_Z n)) as [-> Hr]; [lra | exact H2 |].
  eexists. split; [reflexivity |].
  assert (Hge : 1 <= rne (inject_Z n)).
  { change 1 with (rne 1) at 1. apply rne_mono; lra. }
  unfold is_zero. destruct (rne (inject_Z n)) as [num den].
  unfold Qle in Hge. cbn in *. apply Z.eqb_neq. lia.
Qed.

End Totality.

Lemma map_result_defined {A B : Type} (f : A -> result B) (l : list A) :
  (forall x, In x l -> exists y, f x = Ok y) ->
  exists ys, map_result f l = Ok ys /\ length ys = length l.
Proof.
  induction l as [| x l IH]; intros H; cbn.
  - exists []. auto.
  - destruct (H x (or_introl eq_refl)) as [y ->].
    destruct IH as (ys & -> & Hlen); [intros z Hz; apply H; now right |].
    cbn. exists (y :: ys). cbn. auto.
Qed.

Lemma defined_scores_length (l : list ConversationScore) :
  (length (defined_scores l) <= length l)%nat.
Proof.
  unfold defined_scores.
  induction l as [| c l IH]; cbn; [lia |].
  destruct (cs_quality_score c); cbn; lia.
Qed.

(** in a well-formed store there are at most as many feedback rows as AI
    messages *)
Lemma total_feedback_le_total_ai (s : Store) :
  store_ok s ->
  (len (feedbacks s)
   <= len (filter (fun m => role_eqb (msg_role m) ROLE_AI) (messages s)))%Z.
Proof.
  intros Hok. unfold len.
  assert (H : (length (map fb_message (feedbacks s))
               <= length (map msg_id
                            (filter (fun m => role_eqb (msg_role m) ROLE_AI)
                                    (messages s))))%nat).
  { apply NoDup_incl_length; [exact (ok_one_feedback Hok) |].
    intros k Hk. apply in_map_iff in Hk. destruct Hk as (fb & <- & Hfb).
    destruct (ok_feedback_on_ai Hok fb Hfb) as (m & Hm & Hid & Hrole).
    rewrite <- Hid. apply in_map. apply filter_In. split; [assumption |].
    now rewrite Hrole. }
  rewrite !length_map in H. lia.
Qed.

Lemma percentage_defined (a b : Z) :
  (0 <= a <= b)%Z -> exists v, percentage a b = Ok v.
Proof.
  intros H. unfold percentage.
  destruct (Z.gtb_spec b 0) as [Hb | Hb]; [| eauto].
  destruct (@int_truediv_ratio a b) as (q & -> & _); [lia | lia |].
  cbn. eauto.
Qed.

Lemma average_defined (scores : list pyfloat) :
  (len scores < 2 ^ 53)%Z -> exists avg, average_of scores = Ok avg.
Proof.
  intros H. unfold average_of.
  destruct scores as [| x scores]; [eauto |].
  destruct (@float_of_count (len (x :: scores))) as (q & -> & Hq).
  { unfold len in *. cbn [length] in *. lia. }
  cbn [bind]. unfold float_truediv. rewrite Hq.
  destruct (py_sum (x :: scores)); cbn; eauto.
Qed.

(** in a well-formed store with fewer than 2^53 conversations the view
    answers: no statistic raises *)
Lemma insights_statistics_defined (generate_reply : Generator) (s : Store) :
  store_ok s -> (len (conversations s) < 2 ^ 53)%Z ->
  exists report,
    response (InsightsView_get generate_reply s no_summary)
    = Ok {| status := 200; body := InsightsBody report |}.
Proof.
  intros Hok Hsize. unfold InsightsView_get.
  rewrite include_summary_of_false.
  destruct (@percentage_defined (len (filter fb_rating (feedbacks s)))
              (len (feedbacks s))) as [sat ->].
  { unfold len. pose proof (filter_length_le fb_rating (feedbacks s)). lia. }
  destruct (@percentage_defined (len (feedbacks s))
              (len (filter (fun m => role_eqb (msg_role m) ROLE_AI)
                           (messages s)))) as [rate ->].
  { pose proof (total_feedback_le_total_ai Hok). unfold len in *. lia. }
  cbn [bind].
  destruct (@map_result_defined _ _ (score_conversation s) (conversations s))
    as (convs & -> & Hlen).
  { intros conv _. unfold score_conversation.
    destruct (quality_score_defined conv Hok) as [r ->]. cbn. eauto. }
  cbn [bind].
  destruct (@average_defined (defined_scores convs)) as [avg ->].
  { pose proof (defined_scores_length convs). unfold len in *. lia. }
  cbn [bind response respond]. eauto.
Qed.

(** ** Checks of the model against the Python library

    The right-hand sides are the values that [re.findall], [str.lower],
    [str.strip], [collections.Counter.most_common], the float arithmetic and
    [round] of the interpreter return on these inputs. *)

Example findall_check_1 :
  findall_words (lower (str "a_b c-d e1 1f g"))
  = [(str "c"); (str "d"); (str "g")].
Proof. reflexivity. Qed.

Example findall_check_2 :
  findall_words (lower (str "don't stop"))
  = [(str "don"); (str "t"); (str "stop")].
Proof. reflexivity. Qed.

Example findall_check_3 :
  findall_words (lower (str "Hello, World! Hello... world?"))
  = [(str "hello"); (str "world"); (str "hello"); (str "world")].
Proof. reflexivity. Qed.

Example findall_check_4 :
  findall_words (lower (codes [120; 178; 32; 121]%nat))
  = [(str "y")].
Proof. reflexivity. Qed.

Example findall_check_5 :
  findall_words (lower (codes [99; 97; 102; 233; 32; 108; 97; 116; 116; 101]%nat))
  = [(str "latte")].
Proof. reflexivity. Qed.

Example findall_check_6 :
  findall_words (lower (codes [192; 66; 32; 99; 100]%nat))
  = [(str "cd")].
Proof. reflexivity. Qed.

Example findall_check_7 :
  findall_words (lower (codes [110; 97; 239; 118; 101]%nat))
  = [].
Proof. reflexivity. Qed.

Example findall_check_8 :
  findall_words (lower (str "ab1cd"))
  = [].
Proof. reflexivity. Qed.

Example findall_check_9 :
  findall_words (lower (str "_abc_ def"))
  = [(str "def")].
Proof. reflexivity. Qed.

Example findall_check_10 :
  findall_words (lower (codes [65; 133; 98; 32; 99; 160; 100]%nat))
  = [(str "a"); (str "b"); (str "c"); (str "d")].
Proof. reflexivity. Qed.

Example findall_check_11 :
  findall_words (lower (codes [111; 110; 101; 9; 116; 119; 111; 10; 116; 104; 114; 101; 101]%nat))
  = [(str "one"); (str "two"); (str "three")].
Proof. reflexivity. Qed.

Example findall_check_12 :
  findall_words (lower (codes [223; 32; 115; 115]%nat))
  = [(str "ss")].
Proof. reflexivity. Qed.

Example findall_check_13 :
  findall_words (lower (str "MiXeD CaSe123 ok"))
  = [(str "mixed"); (str "ok")].
Proof. reflexivity. Qed.

Example strip_check_1 :
  strip (str "  hello  ") = (str "hello").
Proof. reflexivity. Qed.

Example strip_check_2 :
  strip (codes [9; 10; 32; 120; 32; 121; 32; 13; 10]%nat) = (str "x y").
Proof. reflexivity. Qed.

Example strip_check_3 :
  strip (codes [160; 97; 133]%nat) = (str "a").
Proof. reflexivity. Qed.

Example strip_check_4 :
  strip (codes [28; 31; 122; 11; 12]%nat) = (str "z").
Proof. reflexivity. Qed.

Example strip_check_5 :
  strip (str "   ") = [].
Proof. reflexivity. Qed.

Example strip_check_6 :
  strip (str "a") = (str "a").
Proof. reflexivity. Qed.

Example strip_check_7 :
  strip (codes [0; 32; 97; 32; 0]%nat) = (codes [0; 32; 97; 32; 0]%nat).
Proof. reflexivity. Qed.

Example lower_check_1 :
  lower (str "ABCxyz") = (str "abcxyz").
Proof. reflexivity. Qed.

Example lower_check_2 :
  lower (codes [192; 214; 215; 216; 222; 223; 255]%nat) = (codes [224; 246; 215; 248; 254; 223; 255]%nat).
Proof. reflexivity. Qed.

Example lower_check_3 :
  lower (str "@[`{") = (str "@[`{").
Proof. reflexivity. Qed.

Example lower_check_4 :
  lower (codes [181; 170; 186]%nat) = (codes [181; 170; 186]%nat).
Proof. reflexivity. Qed.

Example themes_check_1 :
  extract_feedback_themes
    [Some (str "Python programming is great"); Some (str "Python code examples were helpful"); Some (str "Excellent Python tutorial")] (5)
  = [{| word := (str "python"); count := 3 |}; {| word := (str "programming"); count := 1 |}; {| word := (str "great"); count := 1 |}; {| word := (str "code"); count := 1 |}; {| word := (str "examples"); count := 1 |}].
Proof. reflexivity. Qed.

Example themes_check_2 :
  extract_feedback_themes
    [Some (str "apple banana cherry date elderberry fig grape")] (3)
  = [{| word := (str "apple"); count := 1 |}; {| word := (str "banana"); count := 1 |}; {| word := (str "cherry"); count := 1 |}].
Proof. reflexivity. Qed.

Example themes_check_3 :
  extract_feedback_themes
    [Some (str "delta alpha charlie bravo alpha charlie delta echo")] (2)
  = [{| word := (str "delta"); count := 2 |}; {| word := (str "alpha"); count := 2 |}].
Proof. reflexivity. Qed.

Example themes_check_4 :
  extract_feedback_themes
    [Some (str "delta alpha charlie bravo alpha charlie delta echo")] (1)
  = [{| word := (str "delta"); count := 2 |}].
Proof. reflexivity. Qed.

Example themes_check_5 :
  extract_feedback_themes
    [Some (str "delta alpha charlie bravo alpha charlie delta echo")] (10)
  = [{| word := (str "delta"); count := 2 |}; {| word := (str "alpha"); count := 2 |}; {| word := (str "charlie"); count := 2 |}; {| word := (str "bravo"); count := 1 |}; {| word := (str "echo"); count := 1 |}].
Proof. reflexivity. Qed.

Example themes_check_6 :
  extract_feedback_themes
    [Some (str "delta alpha charlie bravo alpha charlie delta echo")] (0)
  = [].
Proof. reflexivity. Qed.

Example themes_check_7 :
  extract_feedback_themes
    [Some (str "delta alpha charlie bravo alpha charlie delta echo")] (-1)
  = [].
Proof. reflexivity. Qed.

Example themes_check_8 :
  extract_feedback_themes
    [Some (str "zeta zeta yank"); None; Some []; Some (str "yank xray xray xray"); Some (str "west yank vote vote")] (3)
  = [{| word := (str "yank"); count := 3 |}; {| word := (str "xray"); count := 3 |}; {| word := (str "zeta"); count := 2 |}].
Proof. reflexivity. Qed.

Example themes_check_9 :
  extract_feedback_themes
    [Some (str "zeta zeta yank"); None; Some []; Some (str "yank xray xray xray"); Some (str "west yank vote vote")] (4)
  = [{| word := (str "yank"); count := 3 |}; {| word := (str "xray"); count := 3 |}; {| word := (str "zeta"); count := 2 |}; {| word := (str "vote"); count := 2 |}].
Proof. reflexivity. Qed.

Example themes_check_10 :
  extract_feedback_themes
    [Some (str "This response was excellent and helpful")] (10)
  = [{| word := (str "excellent"); count := 1 |}].
Proof. reflexivity. Qed.

Example themes_check_11 :
  extract_feedback_themes
    [Some (str "a be cat dog elephant")] (10)
  = [{| word := (str "elephant"); count := 1 |}].
Proof. reflexivity. Qed.

Example themes_check_12 :
  extract_feedback_themes
    [Some (str "word1 word_two three3 four five-six seven")] (10)
  = [{| word := (str "four"); count := 1 |}; {| word := (str "five"); count := 1 |}; {| word := (str "seven"); count := 1 |}].
Proof. reflexivity. Qed.

Example auto_title_check_1 :
  auto_title (str "Hello") = (str "Hello").
Proof. reflexivity. Qed.

Example auto_title_check_2 :
  auto_title (str "xxxxxxxxxxxxxxxxxxxxxxxxxxxxxxxxxxxxxxxxxxxxxxxxxx") = (str "xxxxxxxxxxxxxxxxxxxxxxxxxxxxxxxxxxxxxxxxxxxxxxxxxx").
Proof. reflexivity. Qed.

Example auto_title_check_3 :
  auto_title (str "xxxxxxxxxxxxxxxxxxxxxxxxxxxxxxxxxxxxxxxxxxxxxxxxxxx") = (str "xxxxxxxxxxxxxxxxxxxxxxxxxxxxxxxxxxxxxxxxxxxxxxxxxx...").
Proof. reflexivity. Qed.

Example auto_title_check_4 :
  auto_title (str "aaaaaaaaaaaaaaaaaaaaaaaaaaaaaaaaaaaaaaaaaaaaa     bcdefg") = (str "aaaaaaaaaaaaaaaaaaaaaaaaaaaaaaaaaaaaaaaaaaaaa...").
Proof. reflexivity. Qed.

Example auto_title_check_5 :
  auto_title (str "This is a very long message that should be truncated") = (str "This is a very long message that should be truncat...").
Proof. reflexivity. Qed.

Example score_checks :
  score_formula 0 1 1 = Ok (two_decimals 3000)
  /\ score_formula 1 1 1 = Ok (two_decimals 10000)
  /\ score_formula 1 2 2 = Ok (two_decimals 6500)
  /\ score_formula 1 3 3 = Ok (two_decimals 5333)
  /\ score_formula 2 3 3 = Ok (two_decimals 7667)
  /\ score_formula 1 1 3 = Ok (two_decimals 8000)
  /\ score_formula 1 3 7 = Ok (two_decimals 3619)
  /\ score_formula 5 7 9 = Ok (two_decimals 7333)
  /\ score_formula 3 11 13 = Ok (two_decimals 4448)
  /\ score_formula 7 9 1000 = Ok (two_decimals 5471)
  /\ score_formula 123 456 789 = Ok (two_decimals 3622)
  /\ score_formula 1 1 1000000 = Ok (two_decimals 7000)
  /\ score_formula 999 1000 1001 = Ok (two_decimals 9990)
  /\ score_formula 2 7 7 = Ok (two_decimals 5000)
  /\ score_formula 1 6 6 = Ok (two_decimals 4167)
  /\ score_formula 5 6 6 = Ok (two_decimals 8833)
  /\ score_formula 1 7 8 = Ok (two_decimals 3625).
Proof. vm_compute. repeat split. Qed.

Example percent_checks :
  percent_rounded 2 3 = Ok (two_decimals 6667)
  /\ percent_rounded 3 3 = Ok (two_decimals 10000)
  /\ percent_rounded 1 3 = Ok (two_decimals 3333)
  /\ percent_rounded 1 7 = Ok (two_decimals 1429)
  /\ percent_rounded 5 9 = Ok (two_decimals 5556)
  /\ percent_rounded 0 4 = Ok (two_decimals 0)
  /\ percent_rounded 1 1000 = Ok (two_decimals 10)
  /\ percent_rounded 617 1234 = Ok (two_decimals 5000)
  /\ percent_rounded 1 8 = Ok (two_decimals 1250)
  /\ percent_rounded 3 8 = Ok (two_decimals 3750)
  /\ percent_rounded 5 8 = Ok (two_decimals 6250)
  /\ percent_rounded 1 16 = Ok (two_decimals 625)
  /\ percent_rounded 1 32 = Ok (two_decimals 312)
  /\ percent_rounded 1 40 = Ok (two_decimals 250)
  /\ percent_rounded 1 80 = Ok (two_decimals 125)
  /\ percent_rounded 3 80 = Ok (two_decimals 375)
  /\ percent_rounded 7 80 = Ok (two_decimals 875).
Proof. vm_compute. repeat split. Qed.

(** * Further properties of the code *)

(** ** Query parameters *)

Lemma clamp_within (min_val max_val : option Z) (v : Z) :
  (forall lo hi, min_val = Some lo -> max_val = Some hi -> (lo <= hi)%Z) ->
  within min_val max_val (clamp min_val max_val v).
Proof.
  unfold within, clamp. intros H.
  destruct min_val as [lo |], max_val as [hi |]; try (split; trivial; lia).
  specialize (H lo hi eq_refl eq_refl). lia.
Qed.

Lemma parse_int_query_param_cases (max_str_digits : Z) (query_params : QueryDict)
  (param_name : pystr) (default : Z) (min_val max_val : option Z) :
  parse_int_query_param max_str_digits query_params param_name default
                        min_val max_val
  = match query_get query_params param_name with
    | None => clamp min_val max_val default
    | Some text =>
        match int_of_str max_str_digits text with
        | Some value => clamp min_val max_val value
        | None => default
        end
    end.
Proof.
  unfold parse_int_query_param, clamp.
  destruct (query_get query_params param_name) as [text |]; [| reflexivity].
  now destruct (int_of_str max_str_digits text).
Qed.

(** X1: with bounds that do not cross, the parsed parameter respects the
    bounds or is the default itself, which is returned as it is when the
    text is not an integer; so a default within the bounds keeps every
    result within them. *)
Theorem parse_int_query_param_within (max_str_digits : Z)
  (query_params : QueryDict) (param_name : pystr) (default : Z)
  (min_val max_val : option Z) :
  (forall lo hi, min_val = Some lo -> max_val = Some hi -> (lo <= hi)%Z) ->
  let value :=
    parse_int_query_param max_str_digits query_params param_name default
                          min_val max_val in
  (within min_val max_val value \/ value = default)
  /\ (within min_val max_val default -> within min_val max_val value)
  /\ (forall text,
        query_get query_params param_name = Some text ->
        int_of_str max_str_digits text = None -> value = default).
Proof.
  intros Hb value. subst value. rewrite parse_int_query_param_cases.
  pose proof (clamp_within (min_val := min_val) (max_val := max_val)) as Hc.
  destruct (query_get query_params param_name) as [text |].
  - destruct (int_of_str max_str_digits text) as [v |] eqn:E.
    + split; [left; now apply Hc |]. split; [intros _; now apply Hc |].
      intros t [= <-] H. congruence.
    + split; [now right |]. split; [trivial |]. reflexivity.
  - split; [left; now apply Hc |]. split; [intros _; now apply Hc |].
    discriminate.
Qed.

Lemma parse_int_query_param_within_witness :
  let value :=
    parse_int_query_param 4300 [(str "limit", str " -7_0 ")] (str "limit") 20
                          (Some 1%Z) (Some 100%Z) in
  (within (Some 1%Z) (Some 100%Z) value \/ value = 20%Z)
  /\ (within (Some 1%Z) (Some 100%Z) 20 -> within (Some 1%Z) (Some 100%Z) value)
  /\ (forall text,
        query_get [(str "limit", str " -7_0 ")] (str "limit") = Some text ->
        int_of_str 4300 text = None -> value = 20%Z).
Proof.
  apply (@parse_int_query_param_within 4300 [(str "limit", str " -7_0 ")]
           (str "limit") 20 (Some 1%Z) (Some 100%Z)).
  intros lo hi [= <-] [= <-]. lia.
Defined.

(** ** Pages of messages *)

Lemma parse_int_query_param_bounded (max_str_digits : Z)
  (query_params : QueryDict) (param_name : pystr) (default : Z)
  (min_val max_val : option Z) :
  (forall lo hi, min_val = Some lo -> max_val = Some hi -> (lo <= hi)%Z) ->
  within min_val max_val default ->
  within min_val max_val
    (parse_int_query_param max_str_digits query_params param_name default
                           min_val max_val).
Proof.
  intros Hb Hd. rewrite parse_int_query_param_cases.
  destruct (query_get query_params param_name) as [text |];
    [destruct (int_of_str max_str_digits text) |];
    auto using clamp_within.
Qed.

Lemma since_of_nonneg (max_str_digits : Z) (query_params : QueryDict) :
  (0 <= since_of max_str_digits query_params)%Z.
Proof.
  unfold since_of.
  apply (@parse_int_query_param_bounded max_str_digits query_params
           (str "since") 0 (Some 0%Z) None); [discriminate |].
  split; [lia | trivial].
Qed.

Lemma message_limit_of_bounds (max_str_digits : Z) (query_params : QueryDict) :
  (1 <= message_limit_of max_str_digits query_params <= 200)%Z.
Proof.
  unfold message_limit_of.
  apply (@parse_int_query_param_bounded max_str_digits query_params
           (str "limit") 50 (Some 1%Z) (Some 200%Z)).
  - intros lo hi [= <-] [= <-]. lia.
  - split; lia.
Qed.

(** *** Messages in the order of their sequence numbers *)

Lemma insert_message_perm (m : Message) (l : list Message) :
  Permutation (insert_asc msg_sequence m l) (m :: l).
Proof.
  induction l as [| y l IH]; cbn; [reflexivity |].
  destruct (msg_sequence y <=? msg_sequence m)%Z; [| reflexivity].
  rewrite IH. apply perm_swap.
Qed.

Lemma sort_messages_perm (l : list Message) :
  Permutation (sort_asc msg_sequence l) l.
Proof.
  unfold sort_asc.
  enough (H : forall acc,
             Permutation
               (fold_left (fun acc x => insert_asc msg_sequence x acc) l acc)
               (acc ++ l)) by apply (H []).
  induction l as [| x l IH]; intros acc; cbn.
  - now rewrite app_nil_r.
  - rewrite IH, insert_message_perm. apply Permutation_middle.
Qed.

Lemma insert_message_sorted (m : Message) (l : list Message) :
  StronglySorted by_sequence l ->
  StronglySorted by_sequence (insert_asc msg_sequence m l).
Proof.
  induction 1 as [| y l Hl IH Hy]; cbn.
  - repeat constructor.
  - destruct (Z.leb_spec (msg_sequence y) (msg_sequence m)) as [Hle | Hlt].
    + constructor; [assumption |].
      rewrite Forall_forall in *. intros z Hz.
      apply (Permutation_in _ (insert_message_perm m l)) in Hz.
      destruct Hz as [<- | Hz]; [exact Hle | now apply Hy].
    + constructor; [now constructor |].
      constructor; [unfold by_sequence; lia |].
      rewrite Forall_forall in *. intros z Hz.
      specialize (Hy z Hz). unfold by_sequence in *. lia.
Qed.

Lemma sort_messages_sorted (l : list Message) :
  StronglySorted by_sequence (sort_asc msg_sequence l).
Proof.
  unfold sort_asc.
  enough (H : forall acc,
             StronglySorted by_sequence acc ->
             StronglySorted by_sequence
               (fold_left (fun acc x => insert_asc msg_sequence x acc) l acc))
    by (apply H; constructor).
  induction l as [| x l IH]; intros acc Hacc; cbn; [assumption |].
  apply IH. now apply insert_message_sorted.
Qed.

Lemma sorted_split {A : Type} (R : A -> A -> Prop) (l1 l2 : list A) :
  StronglySorted R (l1 ++ l2) ->
  StronglySorted R l1 /\ StronglySorted R l2
  /\ forall x y, In x l1 -> In y l2 -> R x y.
Proof.
  induction l1 as [| a l1 IH]; cbn; intros H.
  - repeat split; [constructor | assumption | intros x y []].
  - inversion H as [| ? ? Hl Ha]; subst.
    destruct (IH Hl) as (H1 & H2 & H12).
    rewrite Forall_forall in Ha.
    repeat split.
    + constructor; [assumption |].
      rewrite Forall_forall. intros z Hz. apply Ha, in_or_app. now left.
    + assumption.
    + intros x y [<- | Hx] Hy; [apply Ha, in_or_app; now right | now apply H12].
Qed.

(** the last message of a sorted page carries its largest sequence number *)
Lemma sorted_last (l : list Message) (m : Message) (r : list Message) :
  StronglySorted by_sequence l -> rev l = m :: r ->
  In m l /\ forall x, In x l -> by_sequence x m.
Proof.
  intros Hs Hr.
  assert (El : l = rev r ++ [m]).
  { rewrite <- (rev_involutive l), Hr. reflexivity. }
  subst l. split; [apply in_or_app; right; now left |].
  destruct (sorted_split _ _ Hs) as (_ & _ & H).
  intros x Hx. apply in_app_or in Hx. destruct Hx as [Hx | [<- | []]].
  - apply H; [assumption | now left].
  - unfold by_sequence. lia.
Qed.

Lemma message_data_fst (s : Store) (l : list Message)
  (data : list (Message * option Feedback)) :
  map_result (message_data s) l = Ok data ->
  map fst data = l
  /\ forall m fb, In (m, fb) data -> message_feedback s m = Ok fb.
Proof.
  revert data. induction l as [| x l IH]; cbn; intros data H.
  - injection H as <-. split; [reflexivity | intros ? ? []].
  - unfold message_data at 1 in H.
    destruct (message_feedback s x) as [fb |] eqn:E; cbn in H; [| discriminate].
    destruct (map_result (message_data s) l) as [ys |]; cbn in H;
      [| discriminate].
    injection H as <-. destruct (IH ys eq_refl) as [Hfst Hfb].
    cbn. split; [now rewrite Hfst |].
    intros m f [[= <- <-] | Hin]; [assumption | now apply Hfb].
Qed.

Lemma message_page_unfold (max_str_digits : Z) (s : Store) (pk : Z)
  (query_params : QueryDict) (data : list (Message * option Feedback))
  (lastSeq : Z) :
  MessageListCreateView_get max_str_digits s pk query_params
  = Ok {| page_status := 200; page_body := MessagePage data lastSeq |} ->
  let since := since_of max_str_digits query_params in
  let limit := message_limit_of max_str_digits query_params in
  exists qs,
    qs = (if (since =? 0)%Z
          then filter (fun m => (msg_conversation m =? pk)%Z) (messages s)
          else filter (fun m => (since <? msg_sequence m)%Z)
                      (filter (fun m => (msg_conversation m =? pk)%Z)
                              (messages s)))
    /\ map fst data = firstn (Z.to_nat limit) (sort_asc msg_sequence qs)
    /\ (forall m fb, In (m, fb) data -> message_feedback s m = Ok fb)
    /\ lastSeq = match rev (map fst data) with
                 | m :: _ => msg_sequence m
                 | [] => since
                 end.
Proof.
  cbv zeta. unfold MessageListCreateView_get.
  fold (since_of max_str_digits query_params).
  fold (message_limit_of max_str_digits query_params).
  destruct (get_conversation s pk) as [conv |] eqn:Hc; [| discriminate].
  apply get_conversation_id in Hc. unfold conversation_messages. rewrite Hc.
  intros H.
  set (since := since_of max_str_digits query_params) in *.
  set (limit := message_limit_of max_str_digits query_params) in *.
  match type of H with
  | context [map_result _ (firstn _ (sort_asc _ ?q))] => set (qs := q) in *
  end.
  destruct (map_result (message_data s)
              (firstn (Z.to_nat limit) (sort_asc msg_sequence qs)))
    as [d |] eqn:E; cbn in H; [| discriminate].
  injection H as <- <-.
  destruct (message_data_fst _ _ E) as [Hfst Hfb].
  exists qs. split.
  { subst qs. now destruct (since =? 0)%Z. }
  split; [assumption |]. split; [assumption |]. now rewrite Hfst.
Qed.

(** X2: a page of messages holds at most [limit] messages, [limit] being
    between 1 and 200, in ascending order of their sequence numbers; they
    belong to the conversation and lie above [since] when that is not 0;
    [lastSeq] is the largest sequence number on the page, or [since] for an
    empty page; and a message of the conversation above [since] is missing
    from the page only when the page is full and ends before it. *)
Theorem message_page_contents (max_str_digits : Z) (s : Store) (pk : Z)
  (query_params : QueryDict) (data : list (Message * option Feedback))
  (lastSeq : Z) :
  MessageListCreateView_get max_str_digits s pk query_params
  = Ok {| page_status := 200; page_body := MessagePage data lastSeq |} ->
  let since := since_of max_str_digits query_params in
  let limit := message_limit_of max_str_digits query_params in
  (0 <= since /\ 1 <= limit <= 200 /\ len data <= limit)%Z
  /\ StronglySorted by_sequence (map fst data)
  /\ (forall m fb, In (m, fb) data ->
        In m (messages s) /\ msg_conversation m = pk
        /\ (since <> 0 -> since < msg_sequence m)%Z
        /\ message_feedback s m = Ok fb)
  /\ (data = [] -> lastSeq = since)
  /\ (data <> [] -> exists m, In m (map fst data) /\ lastSeq = msg_sequence m)
  /\ (forall m, In m (map fst data) -> (msg_sequence m <= lastSeq)%Z)
  /\ (forall m, In m (messages s) -> msg_conversation m = pk ->
        (since = 0 \/ since < msg_sequence m)%Z ->
        In m (map fst data)
        \/ (len data = limit /\ lastSeq <= msg_sequence m)%Z).
Proof.
  intros H since limit.
  destruct (message_page_unfold _ _ _ _ H) as (qs & Hqs & Hfst & Hfb & Hlast).
  fold since in Hqs, Hlast. fold limit in Hfst.
  pose proof (since_of_nonneg max_str_digits query_params) as Hsince.
  pose proof (message_limit_of_bounds max_str_digits query_params) as Hlimit.
  fold since in Hsince. fold limit in Hlimit.
  assert (Hsorted : StronglySorted by_sequence (sort_asc msg_sequence qs))
    by apply sort_messages_sorted.
  assert (Hin : forall m, In m qs <->
                  In m (messages s) /\ msg_conversation m = pk
                  /\ (since = 0 \/ since < msg_sequence m)%Z).
  { intros m. rewrite Hqs. destruct (Z.eqb_spec since 0) as [E | E].
    - rewrite filter_In, Z.eqb_eq. intuition.
    - rewrite !filter_In, Z.eqb_eq, Z.ltb_lt. intuition. }
  assert (Hlen : (len data <= limit)%Z).
  { unfold len. rewrite <- (length_map fst data), Hfst, length_firstn. lia. }
  split; [repeat split; lia |].
  split; [rewrite Hfst; now apply StronglySorted_firstn |].
  split.
  { intros m fb Hm. specialize (Hfb m fb Hm).
    assert (Hm' : In m (map fst data)) by (apply (in_map fst _ _ Hm)).
    rewrite Hfst in Hm'. apply in_firstn in Hm'.
    apply (Permutation_in _ (sort_messages_perm qs)) in Hm'.
    apply Hin in Hm'. destruct Hm' as (H1 & H2 & H3).
    repeat split; try assumption. lia. }
  split; [intros ->; exact Hlast |].
  assert (Hpage : StronglySorted by_sequence (map fst data))
    by (rewrite Hfst; now apply StronglySorted_firstn).
  split.
  { intros Hne. destruct (rev (map fst data)) as [| m r] eqn:Er.
    - exfalso. apply Hne.
      apply (f_equal (@rev _)) in Er. rewrite rev_involutive in Er.
      now destruct data.
    - exists m. split; [| assumption]. now apply (sorted_last Hpage Er). }
  split.
  { intros m Hm. destruct (rev (map fst data)) as [| m' r] eqn:Er.
    - apply (f_equal (@rev _)) in Er. rewrite rev_involutive in Er.
      rewrite Er in Hm. destruct Hm.
    - rewrite Hlast. now apply (sorted_last Hpage Er). }
  intros m Hm Hpk Hs.
  assert (Hq : In m (sort_asc msg_sequence qs)).
  { apply (Permutation_in _ (Permutation_sym (sort_messages_perm qs))).
    apply Hin. auto. }
  rewrite <- (firstn_skipn (Z.to_nat limit) (sort_asc msg_sequence qs)) in Hq.
  apply in_app_or in Hq. destruct Hq as [Hq | Hq]; [left; now rewrite Hfst |].
  right.
  assert (Hfull : (Z.to_nat limit <= length (sort_asc msg_sequence qs))%nat).
  { destruct (Nat.le_gt_cases (Z.to_nat limit)
                (length (sort_asc msg_sequence qs))) as [Hle | Hgt]; [exact Hle |].
    rewrite skipn_all2 in Hq by lia. destruct Hq. }
  split.
  { unfold len. rewrite <- (length_map fst data), Hfst, length_firstn. lia. }
  destruct (rev (map fst data)) as [| m' r] eqn:Er.
  { apply (f_equal (@rev _)) in Er. rewrite rev_involutive in Er. cbn in Er.
    rewrite Hfst in Er.
    apply (f_equal (@length _)) in Er. rewrite length_firstn in Er.
    cbn in Er. lia. }
  rewrite Hlast.
  destruct (sorted_last Hpage Er) as [Hm' _]. rewrite Hfst in Hm'.
  rewrite <- (firstn_skipn (Z.to_nat limit) (sort_asc msg_sequence qs))
    in Hsorted.
  destruct (sorted_split _ _ Hsorted) as (_ & _ & H12).
  exact (H12 m' m Hm' Hq).
Qed.

(** *** Polling: the next page starts where the last one ended *)

Lemma sequences_filter_nodup (f : Message -> bool) (l : list Message) :
  NoDup (map msg_sequence l) -> NoDup (map msg_sequence (filter f l)).
Proof.
  induction l as [| m l IH]; cbn; [trivial |].
  intros H. inversion H as [| ? ? Hm Hl]; subst.
  destruct (f m); cbn; [| now apply IH].
  constructor; [| now apply IH].
  intros Hin. apply Hm. apply in_map_iff in Hin.
  destruct Hin as (x & Ex & Hx). apply filter_In in Hx.
  apply in_map_iff. exists x. tauto.
Qed.

Lemma filter_conversation_and (pk : Z) (f : Message -> bool)
  (l : list Message) :
  filter f (filter (fun m => (msg_conversation m =? pk)%Z) l)
  = filter (fun m => (msg_conversation m =? pk)%Z && f m) l.
Proof.
  induction l as [| m l IH]; cbn; [reflexivity |].
  destruct (msg_conversation m =? pk)%Z; cbn; [| assumption].
  destruct (f m); now rewrite IH.
Qed.

Lemma sorted_strictly (l : list Message) :
  StronglySorted by_sequence l -> NoDup (map msg_sequence l) ->
  StronglySorted before l.
Proof.
  induction 1 as [| m l Hl IH Hm]; cbn; intros Hnd; [constructor |].
  inversion Hnd as [| ? ? Hnot Hnd']; subst.
  constructor; [now apply IH |].
  rewrite Forall_forall in *. intros x Hx. specialize (Hm x Hx).
  unfold by_sequence, before in *.
  assert (msg_sequence m <> msg_sequence x).
  { intros E. apply Hnot. rewrite E. now apply in_map. }
  lia.
Qed.

Lemma strictly_sorted_same (l1 l2 : list Message) :
  StronglySorted before l1 -> StronglySorted before l2 ->
  (forall x, In x l1 <-> In x l2) -> l1 = l2.
Proof.
  intros H1. revert l2.
  induction H1 as [| a l1 Hl1 IH Ha]; intros l2 H2 Hsame.
  - destruct l2 as [| b l2]; [reflexivity |].
    exfalso. apply (Hsame b). now left.
  - destruct H2 as [| b l2 Hl2 Hb].
    { exfalso. apply (Hsame a). now left. }
    rewrite Forall_forall in Ha, Hb.
    assert (E : a = b).
    { assert (Hab : In a (b :: l2)) by (apply Hsame; now left).
      assert (Hba : In b (a :: l1)) by (apply Hsame; now left).
      destruct Hab as [Hab | Hab]; [now symmetry |].
      destruct Hba as [Hba | Hba]; [assumption |].
      specialize (Ha b Hba). specialize (Hb a Hab).
      unfold before in *. lia. }
    subst b. f_equal. apply IH; [assumption |].
    intros x. split; intros Hx.
    + assert (Hx' : In x (a :: l2)) by (apply Hsame; now right).
      destruct Hx' as [<- | Hx']; [| assumption].
      specialize (Ha a Hx). unfold before in Ha. lia.
    + assert (Hx' : In x (a :: l1)) by (apply Hsame; now right).
      destruct Hx' as [<- | Hx']; [| assumption].
      specialize (Hb a Hx). unfold before in Hb. lia.
Qed.

Lemma page_then_page (n k : nat) (l : list Message) :
  firstn n l ++ firstn k (skipn n l) = firstn (n + k) l.
Proof.
  revert l. induction n as [| n IH]; intros l; cbn; [reflexivity |].
  destruct l as [| x l]; cbn; [now rewrite firstn_nil | now rewrite IH].
Qed.

Lemma messages_after_in (s : Store) (pk since : Z) (m : Message) :
  In m (messages_after s pk since)
  <-> In m (messages s) /\ msg_conversation m = pk
      /\ (since < msg_sequence m)%Z.
Proof.
  unfold messages_after. split.
  - intros H. apply (Permutation_in _ (sort_messages_perm _)) in H.
    apply filter_In in H. destruct H as [H E].
    apply andb_true_iff in E. rewrite Z.eqb_eq, Z.ltb_lt in E. tauto.
  - intros (H & E1 & E2).
    apply (Permutation_in _ (Permutation_sym (sort_messages_perm _))).
    apply filter_In. split; [assumption |].
    apply andb_true_iff. now rewrite Z.eqb_eq, Z.ltb_lt.
Qed.

Lemma messages_after_strict (s : Store) (pk since : Z) :
  NoDup (sequences_of s pk) ->
  StronglySorted before (messages_after s pk since).
Proof.
  intros Hnd. apply sorted_strictly; [apply sort_messages_sorted |].
  unfold messages_after.
  eapply Permutation_NoDup.
  { apply Permutation_map, Permutation_sym, sort_messages_perm. }
  rewrite <- filter_conversation_and. now apply sequences_filter_nodup.
Qed.

(** the messages above the last sequence number of a page are those that
    follow the page *)
Lemma messages_after_page (s : Store) (pk since : Z) (n : nat) :
  NoDup (sequences_of s pk) -> (1 <= n)%nat ->
  let shown := firstn n (messages_after s pk since) in
  let lastSeq :=
    match rev shown with m :: _ => msg_sequence m | [] => since end in
  messages_after s pk lastSeq = skipn n (messages_after s pk since)
  /\ forall x y, In x shown -> In y (messages_after s pk lastSeq) ->
                 before x y.
Proof.
  intros Hnd Hn shown lastSeq.
  pose proof (messages_after_strict s pk since Hnd) as Hstrict.
  pose proof (sort_messages_sorted
                (filter (fun m => (msg_conversation m =? pk)%Z
                                  && (since <? msg_sequence m)%Z)
                        (messages s))) as Hweak.
  fold (messages_after s pk since) in Hweak.
  rewrite <- (firstn_skipn n (messages_after s pk since)) in Hstrict.
  fold shown in Hstrict.
  destruct (sorted_split _ _ Hstrict) as (_ & Hrest & Hcross).
  assert (Hshown : StronglySorted by_sequence shown)
    by (now apply StronglySorted_firstn).
  assert (Hlast : forall x, In x shown -> (msg_sequence x <= lastSeq)%Z).
  { intros x Hx. subst lastSeq. destruct (rev shown) as [| m r] eqn:Er.
    - apply (f_equal (@rev _)) in Er. rewrite rev_involutive in Er.
      rewrite Er in Hx. destruct Hx.
    - now apply (sorted_last Hshown Er). }
  assert (Hsince : (since <= lastSeq)%Z).
  { subst lastSeq. destruct (rev shown) as [| m r] eqn:Er; [lia |].
    destruct (sorted_last Hshown Er) as [Hm _].
    apply in_firstn, messages_after_in in Hm. lia. }
  assert (Hbelow : forall y, In y (skipn n (messages_after s pk since)) ->
                     (lastSeq < msg_sequence y)%Z).
  { intros y Hy. subst lastSeq. destruct (rev shown) as [| m r] eqn:Er.
    - apply (f_equal (@rev _)) in Er. rewrite rev_involutive in Er. cbn in Er.
      subst shown.
      destruct (messages_after s pk since) as [| z l]; [now rewrite skipn_nil in Hy |].
      destruct n; [lia | discriminate].
    - destruct (sorted_last Hshown Er) as [Hm _]. exact (Hcross m y Hm Hy). }
  assert (E : messages_after s pk lastSeq = skipn n (messages_after s pk since)).
  { apply strictly_sorted_same.
    - now apply messages_after_strict.
    - assumption.
    - intros x. rewrite messages_after_in. split.
      + intros (H1 & H2 & H3).
        assert (Hx : In x (messages_after s pk since))
          by (apply messages_after_in; repeat split; try assumption; lia).
        rewrite <- (firstn_skipn n (messages_after s pk since)) in Hx.
        apply in_app_or in Hx. destruct Hx as [Hx | Hx]; [| assumption].
        specialize (Hlast x Hx). lia.
      + intros Hx.
        assert (Hx' : In x (messages_after s pk since)).
        { rewrite <- (firstn_skipn n (messages_after s pk since)).
          apply in_or_app. now right. }
        apply messages_after_in in Hx'. specialize (Hbelow x Hx). tauto. }
  split; [exact E |].
  intros x y Hx Hy. rewrite E in Hy. exact (Hcross x y Hx Hy).
Qed.

Lemma message_page_after (max_str_digits : Z) (s : Store) (pk : Z)
  (query_params : QueryDict) (data : list (Message * option Feedback))
  (lastSeq : Z) :
  (forall m, In m (messages s) -> msg_conversation m = pk ->
             (1 <= msg_sequence m)%Z) ->
  MessageListCreateView_get max_str_digits s pk query_params
  = Ok {| page_status := 200; page_body := MessagePage data lastSeq |} ->
  map fst data
  = firstn (Z.to_nat (message_limit_of max_str_digits query_params))
           (messages_after s pk (since_of max_str_digits query_params))
  /\ lastSeq = match rev (map fst data) with
               | m :: _ => msg_sequence m
               | [] => since_of max_str_digits query_params
               end.
Proof.
  intros Hpos H.
  destruct (message_page_unfold _ _ _ _ H) as (qs & Hqs & Hfst & _ & Hlast).
  split; [| exact Hlast]. rewrite Hfst. unfold messages_after.
  do 2 f_equal. rewrite Hqs.
  destruct (Z.eqb_spec (since_of max_str_digits query_params) 0) as [E | E].
  - rewrite E. apply filter_ext_in. intros m Hm.
    destruct (Z.eqb_spec (msg_conversation m) pk) as [Epk | Epk];
      [| reflexivity].
    specialize (Hpos m Hm Epk). cbn. symmetry. apply Z.ltb_lt. lia.
  - apply filter_conversation_and.
Qed.

(** X3: polling.  In a conversation whose messages carry distinct, positive
    sequence numbers, a request with [since] set to the [lastSeq] of the
    previous answer continues exactly where that answer ended: the two
    pages together are the first messages above the first [since], in
    ascending order, none skipped and none repeated. *)
Theorem message_polling_continues (max_str_digits : Z) (s : Store) (pk : Z)
  (first_query next_query : QueryDict)
  (first_page next_page : list (Message * option Feedback))
  (lastSeq lastSeq' : Z) :
  (forall m, In m (messages s) -> msg_conversation m = pk ->
             (1 <= msg_sequence m)%Z) ->
  NoDup (sequences_of s pk) ->
  MessageListCreateView_get max_str_digits s pk first_query
  = Ok {| page_status := 200; page_body := MessagePage first_page lastSeq |} ->
  since_of max_str_digits next_query = lastSeq ->
  MessageListCreateView_get max_str_digits s pk next_query
  = Ok {| page_status := 200; page_body := MessagePage next_page lastSeq' |} ->
  map fst first_page ++ map fst next_page
  = firstn (Z.to_nat (message_limit_of max_str_digits first_query)
            + Z.to_nat (message_limit_of max_str_digits next_query))
           (messages_after s pk (since_of max_str_digits first_query))
  /\ forall x y, In x (map fst first_page) -> In y (map fst next_page) ->
                 before x y.
Proof.
  intros Hpos Hnd H1 Hsince H2.
  destruct (message_page_after _ _ _ Hpos H1) as [E1 L1].
  destruct (message_page_after _ _ _ Hpos H2) as [E2 _].
  pose proof (message_limit_of_bounds max_str_digits first_query) as Hlimit.
  destruct (@messages_after_page s pk (since_of max_str_digits first_query)
              (Z.to_nat (message_limit_of max_str_digits first_query)) Hnd)
    as [Hnext Hcross]; [lia |].
  rewrite <- E1, <- L1 in Hnext, Hcross.
  rewrite Hsince in E2. split.
  - rewrite E2, Hnext, E1. apply page_then_page.
  - intros x y Hx Hy. apply Hcross; [assumption |].
    rewrite E2 in Hy. now apply in_firstn in Hy.
Qed.

(** ** Stripped texts *)

Lemma lstrip_head (s : pystr) (c : ascii) (r : pystr) :
  lstrip s = c :: r -> isspace c = false.
Proof.
  induction s as [| a s IH]; cbn; [discriminate |].
  destruct (isspace a) eqn:E; [assumption |]. now intros [= <- _].
Qed.

Lemma lstrip_keeps (c : ascii) (r : pystr) :
  isspace c = false -> lstrip (c :: r) = c :: r.
Proof. cbn. now intros ->. Qed.

Lemma lstrip_twice (s : pystr) : lstrip (lstrip s) = lstrip s.
Proof.
  destruct (lstrip s) as [| c r] eqn:E; [reflexivity |].
  apply lstrip_keeps. exact (lstrip_head _ E).
Qed.

(** [lstrip] removes a prefix of spaces *)
Lemma lstrip_suffix (s : pystr) :
  exists p, s = p ++ lstrip s /\ Forall (fun c => isspace c = true) p.
Proof.
  induction s as [| a s (p & E & Hp)]; cbn.
  - exists []. split; [reflexivity | constructor].
  - destruct (isspace a) eqn:Ea.
    + exists (a :: p). cbn. split; [now f_equal | now constructor].
    + exists []. split; [reflexivity | constructor].
Qed.

(** [rstrip] removes a suffix of spaces *)
Lemma rstrip_prefix (s : pystr) :
  exists q, s = rstrip s ++ q /\ Forall (fun c => isspace c = true) q.
Proof.
  unfold rstrip. destruct (lstrip_suffix (rev s)) as (p & E & Hp).
  exists (rev p). split.
  - rewrite <- rev_app_distr, <- E. now rewrite rev_involutive.
  - apply Forall_rev. exact Hp.
Qed.

Lemma rstrip_twice (s : pystr) : rstrip (rstrip s) = rstrip s.
Proof. unfold rstrip. now rewrite rev_involutive, lstrip_twice. Qed.

Lemma strip_head (s : pystr) (c : ascii) (r : pystr) :
  strip s = c :: r -> isspace c = false.
Proof.
  unfold strip. intros E.
  destruct (rstrip_prefix (lstrip s)) as (q & Eq & _).
  rewrite E in Eq. cbn in Eq. exact (lstrip_head _ Eq).
Qed.

(** stripping a stripped text changes nothing *)
Lemma strip_twice (s : pystr) : strip (strip s) = strip s.
Proof.
  destruct (strip s) as [| c r] eqn:E; [reflexivity |].
  pose proof (strip_head _ E) as Hc.
  rewrite <- E at 2. unfold strip at 1. rewrite lstrip_keeps by exact Hc.
  rewrite <- E. unfold strip. apply rstrip_twice.
Qed.

Lemma lstrip_length (s : pystr) : (length (lstrip s) <= length s)%nat.
Proof.
  destruct (lstrip_suffix s) as (p & E & _).
  rewrite E at 2. rewrite length_app. lia.
Qed.

Lemma strip_length (s : pystr) : (length (strip s) <= length s)%nat.
Proof.
  unfold strip, rstrip. rewrite length_rev.
  pose proof (lstrip_length (rev (lstrip s))) as H. rewrite length_rev in H.
  pose proof (lstrip_length s). lia.
Qed.

Lemma lstrip_not_empty (s : pystr) (c : ascii) :
  In c s -> isspace c = false -> lstrip s <> [].
Proof.
  induction s as [| a s IH]; cbn; [contradiction |].
  intros [-> | Hin] Hc.
  - now rewrite Hc.
  - destruct (isspace a); [now apply IH | discriminate].
Qed.

(** a text that begins with a character other than a space keeps that
    character when stripped *)
Lemma strip_keeps_head (c : ascii) (r : pystr) :
  isspace c = false -> exists r', strip (c :: r) = c :: r'.
Proof.
  intros Hc. unfold strip. rewrite lstrip_keeps by exact Hc.
  destruct (rstrip_prefix (c :: r)) as (q & E & Hq).
  destruct (rstrip (c :: r)) as [| a r'] eqn:Er.
  - exfalso. cbn in E. subst q. inversion Hq; subst. congruence.
  - exists r'. cbn in E. now injection E as <- _.
Qed.

(** ** The validated fields of [chat/serializers.py] *)

Lemma validate_char_accepts (max_length : Z) (allow_blank : bool)
  (data v : pystr) :
  validate_char max_length allow_blank data = Some v ->
  v = strip data /\ strip v = v
  /\ (v = [] \/ (len v <= max_length)%Z)
  /\ (v = [] -> allow_blank = true)
  /\ Forall (fun c => code c <> 0%N) v.
Proof.
  intros H. pose proof (validate_char_strip _ _ _ H) as E.
  split; [assumption |]. split; [rewrite E; apply strip_twice |].
  unfold validate_char in H. rewrite <- E in H.
  destruct v as [| c r].
  - repeat split; auto. destruct allow_blank; [reflexivity | discriminate].
  - destruct ((max_length <? len (c :: r))%Z
              || existsb (fun c => (code c =? 0)%N) (c :: r)) eqn:Ho;
      [discriminate |].
    apply orb_false_iff in Ho. destruct Ho as [El Ez].
    split; [right; apply Z.ltb_ge; exact El |].
    split; [discriminate |].
    apply Forall_forall. intros x Hx E0.
    assert (Hex : existsb (fun c => (code c =? 0)%N) (c :: r) = true)
      by (apply existsb_exists; exists x; split;
          [exact Hx | now apply N.eqb_eq]).
    congruence.
Qed.

(** X9: a text accepted for a new message is the stripped input; it is not
    empty, has at most 1000 characters, none of them the null character, and
    neither begins nor ends with white space, so that validating it again
    returns it unchanged. *)
Theorem message_text_is_normalised (data : Field pystr) (text : pystr) :
  CreateMessageSerializer data = Some text ->
  (exists raw, data = Value raw /\ text = strip raw)
  /\ text <> [] /\ (len text <= 1000)%Z
  /\ Forall (fun c => code c <> 0%N) text
  /\ strip text = text
  /\ CreateMessageSerializer (Value text) = Some text.
Proof.
  unfold CreateMessageSerializer. destruct data as [| | raw |]; try discriminate.
  intros H. pose proof H as H0.
  destruct (validate_char_accepts _ _ _ H) as (E & Es & Hl & Hb & Hz).
  assert (Hne : text <> []) by (intros Ht; specialize (Hb Ht); discriminate).
  split; [now exists raw |]. split; [assumption |].
  split; [destruct Hl; [contradiction | assumption] |].
  split; [assumption |]. split; [assumption |].
  unfold validate_char in *. rewrite Es. now rewrite <- E in H0.
Qed.

Lemma message_text_is_normalised_witness :
  str "Hello, there" <> []
  /\ CreateMessageSerializer (Value (str "Hello, there"))
     = Some (str "Hello, there").
Proof.
  destruct (@message_text_is_normalised (Value (str "  Hello, there  "))
              (str "Hello, there") eq_refl) as (_ & H1 & _ & _ & _ & H2).
  split; assumption.
Defined.

(** X10: the title accepted for an update is either absent or a text that is
    not empty, stripped and of at most 200 characters; a title of white
    space only, like a null or a missing title, gives no title. *)
Theorem updated_title_is_normalised (data : Field pystr)
  (title : option pystr) :
  UpdateConversationSerializer data = Some title ->
  match title with
  | Some t =>
      t <> [] /\ strip t = t /\ (len t <= 200)%Z
      /\ exists raw, data = Value raw /\ t = strip raw
  | None =>
      match data with
      | Value raw => strip raw = []
      | _ => data <> WrongType
      end
  end.
Proof.
  unfold UpdateConversationSerializer.
  destruct data as [| | raw |]; try discriminate.
  - intros [= <-]. discriminate.
  - intros [= <-]. discriminate.
  - destruct (validate_char 200 true raw) as [v |] eqn:Hv; cbn; [| discriminate].
    destruct (validate_char_accepts _ _ _ Hv) as (E & Es & Hl & _ & _).
    rewrite Es. intros [= <-].
    destruct v as [| c r]; [now symmetry |].
    split; [discriminate |]. split; [assumption |].
    split; [destruct Hl; [discriminate | assumption] |].
    now exists raw.
Qed.

Lemma updated_title_is_normalised_witness :
  strip (str "   ") = []
  /\ strip (str "New Title") = str "New Title".
Proof.
  split.
  - exact (@updated_title_is_normalised (Value (str "   ")) None eq_refl).
  - destruct (@updated_title_is_normalised (Value (str " New Title "))
                (Some (str "New Title")) eq_refl) as (_ & H & _).
    exact H.
Defined.

(** ** [generate_reply] *)

(** X11: the reply generator either returns the stripped text of the
    service's answer, which is then not empty, or fails with its own
    classified error, whatever went wrong underneath; without an API key it
    fails whatever the client would do. *)
Theorem generate_reply_outcomes (env : Gemini.Environment)
  (history : list (Role * pystr)) (prompt : Prompt) :
  match Gemini.generate_reply env history prompt with
  | Ok text =>
      text <> [] /\ strip text = text
      /\ truthy (Gemini.GEMINI_API_KEY env) = true
      /\ exists answer,
           Gemini.generate_content env prompt = Ok answer
           /\ text = strip (match answer with Some t => t | None => [] end)
  | Raise e => exists msg, e = GeminiServiceError msg
  end
  /\ (truthy (Gemini.GEMINI_API_KEY env) = false ->
      Gemini.generate_reply env history prompt
      = Raise (GeminiServiceError
                 (str "Gemini API key is missing; set GEMINI_API_KEY in .env"))).
Proof.
  unfold Gemini.generate_reply.
  destruct (truthy (Gemini.GEMINI_API_KEY env)); cbn [negb].
  2: { split; [eauto | reflexivity]. }
  split; [| discriminate].
  destruct (Gemini.genai_import env); [| eauto].
  destruct (Gemini.generate_content env prompt) as [answer | e];
    cbn [bind]; [| eauto].
  destruct (strip (match answer with Some t => t | None => [] end))
    as [| c r] eqn:E; cbn [truthy negb]; [eauto |].
  split; [discriminate |]. split; [rewrite <- E; apply strip_twice |].
  split; [reflexivity |]. exists answer. now rewrite E.
Qed.

(** ** The automatic title *)

(** X12: the title derived from an accepted message text is never empty and
    has at most 53 characters; a text of at most 50 characters is its own
    title, a longer one gives its first 50 characters, stripped, followed by
    three dots. *)
Theorem auto_title_shape (data : Field pystr) (text : pystr) :
  CreateMessageSerializer data = Some text ->
  auto_title text <> []
  /\ (len (auto_title text) <= 53)%Z
  /\ ((len text <= 50)%Z -> auto_title text = text)
  /\ ((50 < len text)%Z ->
      auto_title text = strip (firstn 50 text) ++ str "..."
      /\ strip (firstn 50 text) <> []).
Proof.
  unfold CreateMessageSerializer. destruct data as [| | raw |]; try discriminate.
  intros H. destruct (validate_char_accepts _ _ _ H) as (E & Es & _ & Hb & _).
  assert (Hne : text <> []) by (intros Ht; specialize (Hb Ht); discriminate).
  destruct text as [| c r]; [contradiction |].
  assert (Hc : isspace c = false) by (eapply strip_head; exact Es).
  assert (Hcut : strip (firstn 50 (c :: r)) <> []).
  { change (firstn 50 (c :: r)) with (c :: firstn 49 r).
    destruct (@strip_keeps_head c (firstn 49 r) Hc) as (r0 & ->). discriminate. }
  assert (Hlen : (len (strip (firstn 50 (c :: r))) <= 50)%Z).
  { unfold len. pose proof (strip_length (firstn 50 (c :: r))) as Hs.
    rewrite length_firstn in Hs. lia. }
  unfold auto_title. destruct (Z.ltb_spec 50 (len (c :: r))) as [Hlong | Hshort].
  - split; [intros E0; apply app_eq_nil in E0; destruct E0; contradiction |].
    split.
    { unfold len in *. rewrite length_app.
      change (length (str "...")) with 3%nat. lia. }
    split; [lia | auto].
  - split; [assumption |]. split; [lia |]. split; [| lia].
    intros _. rewrite firstn_all2; [exact Es | unfold len in Hshort; lia].
Qed.

Lemma auto_title_shape_witness :
  auto_title (str "Hello") = str "Hello".
Proof.
  destruct (@auto_title_shape (Value (str " Hello ")) (str "Hello") eq_refl)
    as (_ & _ & H & _).
  apply H. vm_compute. discriminate.
Defined.

(** ** What the API keeps true of conversations and sequence numbers *)

Lemma create_message_sequence (s s' : Store) conv role text m :
  create_message s conv role text = Ok (m, s') ->
  msg_sequence m = (1 + len (conversation_messages s conv))%Z.
Proof.
  unfold create_message.
  destruct (existsb _ _); [discriminate |]. now intros [= <- _].
Qed.

Lemma sequences_of_length (s : Store) (pk : Z) :
  length (sequences_of s pk)
  = length (filter (fun m => (msg_conversation m =? pk)%Z) (messages s)).
Proof. unfold sequences_of. apply length_map. Qed.

Lemma count_up_in (n : nat) (z : Z) :
  In z (count_up n) <-> (1 <= z <= Z.of_nat n)%Z.
Proof.
  unfold count_up. rewrite in_map_iff. split.
  - intros (k & <- & Hk). apply in_seq in Hk. lia.
  - intros H. exists (Z.to_nat z). split; [lia |]. apply in_seq. lia.
Qed.

Lemma count_up_nodup (n : nat) : NoDup (count_up n).
Proof.
  unfold count_up. apply Finite.Injective_map_NoDup.
  - intros a b. lia.
  - apply seq_NoDup.
Qed.

(** with the sequence numbers 1..n in place, the next message is accepted *)
Lemma create_message_accepted (s : Store) conv role text :
  sequences_of s (conv_id conv)
  = count_up (length (sequences_of s (conv_id conv))) ->
  exists m s', create_message s conv role text = Ok (m, s').
Proof.
  intros Hseq. unfold create_message.
  destruct (existsb _ _) eqn:E; [| eauto].
  exfalso. apply existsb_exists in E. destruct E as (m & Hm & Em).
  apply Z.eqb_eq in Em.
  assert (Hin : In (msg_sequence m) (sequences_of s (conv_id conv))).
  { unfold sequences_of. now apply in_map. }
  rewrite Hseq in Hin. apply count_up_in in Hin.
  rewrite sequences_of_length in Hin.
  unfold len, conversation_messages in Em. lia.
Qed.

Lemma sequences_create_message (s s' : Store) conv role text m :
  create_message s conv role text = Ok (m, s') ->
  (forall pk, sequences_of s pk = count_up (length (sequences_of s pk))) ->
  forall pk, sequences_of s' pk = count_up (length (sequences_of s' pk)).
Proof.
  intros H Hs pk. pose proof (create_message_sequence _ _ _ _ H) as Hq.
  apply create_message_spec in H.
  destruct H as (_ & Hm & _ & _ & _ & _ & _ & Hc & _).
  unfold sequences_of in *. rewrite Hm, filter_app. cbn [filter].
  destruct (Z.eqb_spec (msg_conversation m) pk) as [E | E].
  - rewrite map_app, length_app. cbn [map length].
    rewrite Nat.add_1_r. unfold count_up in *. rewrite seq_S, map_app.
    cbn [map]. rewrite <- Hs. f_equal. f_equal.
    rewrite Hq. unfold len, conversation_messages.
    rewrite <- Hc, E, length_map. lia.
  - rewrite app_nil_r. apply Hs.
Qed.

Lemma chat_ok_ext (s s' : Store) :
  conversations s' = conversations s ->
  next_conversation_id s' = next_conversation_id s ->
  messages s' = messages s ->
  chat_ok s -> chat_ok s'.
Proof.
  intros Hc Hn Hm [H1 H2 H3 H4].
  constructor; unfold sequences_of in *; rewrite ?Hc, ?Hn, ?Hm; assumption.
Qed.

Lemma chat_ok_empty : chat_ok empty_store.
Proof.
  constructor; cbn; try constructor; try (intros ? []).
Qed.

Lemma chat_ok_create_message (s s' : Store) conv role text m :
  chat_ok s -> create_message s conv role text = Ok (m, s') -> chat_ok s'.
Proof.
  intros [H1 H2 H3 H4] H.
  pose proof (sequences_create_message _ _ _ _ H H4) as H4'.
  apply create_message_spec in H. destruct H as (Hc & _ & _ & Hn & _).
  constructor; rewrite ?Hc, ?Hn; assumption.
Qed.

(** saving a conversation under its own key with a title that is not the
    empty text *)
Lemma chat_ok_save_conversation (s : Store) (conv : Conversation) :
  chat_ok s -> conv_title conv <> Some [] ->
  chat_ok (save_conversation s conv).
Proof.
  intros [H1 H2 H3 H4] Ht.
  assert (Hids : map conv_id
                   (map (fun c => if (conv_id c =? conv_id conv)%Z
                                  then conv else c) (conversations s))
                 = map conv_id (conversations s)).
  { rewrite map_map. apply map_ext. intros c.
    destruct (Z.eqb_spec (conv_id c) (conv_id conv)); congruence. }
  constructor; cbn [conversations save_conversation next_conversation_id].
  - now rewrite Hids.
  - intros c Hc. apply in_map_iff in Hc. destruct Hc as (c0 & <- & Hc0).
    destruct (Z.eqb_spec (conv_id c0) (conv_id conv)) as [E | E];
      [rewrite <- E |]; now apply H2.
  - intros c Hc. apply in_map_iff in Hc. destruct Hc as (c0 & <- & Hc0).
    destruct (conv_id c0 =? conv_id conv)%Z; [assumption | now apply H3].
  - exact H4.
Qed.

Lemma chat_ok_conversation_post (s : Store) title :
  chat_ok s -> chat_ok (store_after (ConversationListCreateView_post s title)).
Proof.
  intros [H1 H2 H3 H4]. unfold ConversationListCreateView_post.
  set (t := match title with Value t => Some t | _ => None end).
  unfold create_conversation.
  enough (Hs : chat_ok
                 {| conversations :=
                      conversations s
                      ++ [{| conv_id := next_conversation_id s;
                             conv_title := if truthy t then t else None |}];
                    messages := messages s;
                    feedbacks := feedbacks s;
                    next_conversation_id := next_conversation_id s + 1;
                    next_message_id := next_message_id s;
                    next_feedback_id := next_feedback_id s |})
    by (destruct (calculate_quality_score _ _); exact Hs).
  constructor; cbn [conversations next_conversation_id].
  - rewrite map_app. cbn. apply NoDup_app; [assumption | repeat constructor; intros [] |].
    intros x Hx [<- | []]. apply in_map_iff in Hx.
    destruct Hx as (c & Ec & Hc). apply H2 in Hc. lia.
  - intros c Hc. apply in_app_iff in Hc. destruct Hc as [Hc | [<- | []]].
    + apply H2 in Hc. lia.
    + cbn. lia.
  - intros c Hc. apply in_app_iff in Hc. destruct Hc as [Hc | [<- | []]].
    + now apply H3.
    + cbn. destruct t as [[| a r] |]; cbn; discriminate.
  - exact H4.
Qed.

Lemma chat_ok_conversation_patch (s : Store) pk title :
  chat_ok s -> chat_ok (store_after (ConversationDetailView_patch s pk title)).
Proof.
  intros H. unfold ConversationDetailView_patch.
  destruct (get_conversation s pk) as [conv |]; [| assumption].
  destruct (UpdateConversationSerializer title) as [t |] eqn:Ht; [| assumption].
  assert (Hs : chat_ok (save_conversation s
                          {| conv_id := conv_id conv; conv_title := t |})).
  { apply chat_ok_save_conversation; [assumption |]. cbn.
    unfold UpdateConversationSerializer in Ht.
    destruct title as [| | raw |]; try discriminate;
      try (injection Ht as <-; discriminate).
    destruct (validate_char 200 true raw) as [v |]; [| discriminate].
    cbn in Ht. injection Ht as <-. destruct (strip v); discriminate. }
  destruct (calculate_quality_score _ _); exact Hs.
Qed.

Lemma accepted_text_title (data : Field pystr) (text : pystr) :
  CreateMessageSerializer data = Some text -> auto_title text <> [].
Proof.
  unfold CreateMessageSerializer. destruct data as [| | raw |]; try discriminate.
  intros H. destruct (validate_char_accepts _ _ _ H) as (E & Es & _ & Hb & _).
  destruct text as [| c r]; [specialize (Hb eq_refl); discriminate |].
  assert (Hc : isspace c = false) by (eapply strip_head; exact Es).
  unfold auto_title. change (firstn 50 (c :: r)) with (c :: firstn 49 r).
  destruct (@strip_keeps_head c (firstn 49 r) Hc) as (r0 & ->).
  destruct (50 <? len (c :: r))%Z; discriminate.
Qed.

Lemma chat_ok_message_post (generate_reply : Generator) (s : Store) pk data :
  chat_ok s ->
  chat_ok (store_after (MessageListCreateView_post generate_reply s pk data)).
Proof.
  intros H. unfold MessageListCreateView_post.
  destruct (get_conversation s pk) as [conv |]; [| assumption].
  destruct (CreateMessageSerializer data) as [text |] eqn:Htext; [| assumption].
  destruct (create_message s conv ROLE_USER text) as [[um s1] | e] eqn:Hum;
    [| assumption].
  pose proof (chat_ok_create_message _ _ _ H Hum) as H1.
  destruct (generate_reply _ _) as [reply | e]; [| destruct e; assumption].
  destruct (create_message s1 conv ROLE_AI reply) as [[am s2] | e] eqn:Ham;
    [| assumption].
  pose proof (chat_ok_create_message _ _ _ H1 Ham) as H2.
  cbn [store_after respond].
  destruct (negb _ && _); [| assumption].
  apply chat_ok_save_conversation; [assumption |]. cbn.
  pose proof (accepted_text_title _ Htext). congruence.
Qed.

Lemma feedback_post_tables (s : Store) (message_id : Z) (data : FeedbackData) :
  let s' := store_after (MessageFeedbackView_post s message_id data) in
  conversations s' = conversations s
  /\ next_conversation_id s' = next_conversation_id s
  /\ messages s' = messages s.
Proof.
  cbv zeta. unfold MessageFeedbackView_post.
  destruct (get_message s message_id) as [m |]; [| auto].
  destruct (negb _); [auto |].
  destruct (CreateFeedbackSerializer data) as [valid |]; [| auto].
  unfold get_or_create_feedback.
  destruct (filter _ (feedbacks s)) as [| fb [| fb' l]]; cbn; auto.
  unfold create_feedback. destruct (existsb _ _); cbn; auto.
Qed.

Lemma chat_api_step (s s' : Store) : chat_ok s -> api_step s s' -> chat_ok s'.
Proof.
  intros H [title | pk title | generate_reply pk data | message_id data].
  - now apply chat_ok_conversation_post.
  - now apply chat_ok_conversation_patch.
  - now apply chat_ok_message_post.
  - destruct (feedback_post_tables s message_id data) as (H1 & H2 & H3).
    now apply chat_ok_ext with (s := s).
Qed.

Lemma reachable_chat_ok (s : Store) : reachable s -> chat_ok s.
Proof.
  induction 1 as [| s s' _ IH Hstep].
  - apply chat_ok_empty.
  - exact (chat_api_step IH Hstep).
Qed.

Lemma rated_store_reachable : reachable rated_store.
Proof.
  unfold rated_store.
  eapply reachable_step; [| apply step_post_feedback].
  eapply reachable_step; [| apply step_post_message].
  eapply reachable_step; [| apply step_create_conversation].
  apply reachable_empty.
Qed.

Lemma two_exchanges_reachable : reachable two_exchanges.
Proof.
  unfold two_exchanges.
  eapply reachable_step; [apply rated_store_reachable | apply step_post_message].
Qed.

(** X17: in every store reached through the API the conversations have
    distinct keys, no conversation has the empty text as title (it has no
    title instead), and the messages of each conversation carry the sequence
    numbers 1, 2, ..., n in the order of their creation. *)
Theorem reachable_conversations_and_sequences (s : Store) :
  reachable s ->
  NoDup (map conv_id (conversations s))
  /\ (forall c, In c (conversations s) -> conv_title c <> Some [])
  /\ (forall pk, sequences_of s pk = count_up (length (sequences_of s pk)))
  /\ (forall pk, NoDup (sequences_of s pk))
  /\ (forall m, In m (messages s) -> (1 <= msg_sequence m)%Z).
Proof.
  intros H. destruct (reachable_chat_ok H) as [H1 _ H3 H4].
  split; [assumption |]. split; [assumption |]. split; [assumption |].
  split.
  - intros pk. rewrite H4. apply count_up_nodup.
  - intros m Hm.
    assert (Hin : In (msg_sequence m) (sequences_of s (msg_conversation m))).
    { unfold sequences_of. apply in_map, filter_In. split;
        [assumption | apply Z.eqb_refl]. }
    rewrite H4 in Hin. apply count_up_in in Hin. lia.
Qed.

Lemma reachable_conversations_and_sequences_witness :
  sequences_of two_exchanges 1 = [1; 2; 3; 4]%Z.
Proof.
  destruct (@reachable_conversations_and_sequences two_exchanges
              two_exchanges_reachable) as (_ & _ & H & _).
  rewrite (H 1%Z). vm_compute. reflexivity.
Defined.

(** X18: on a store reached through the API, posting a message with the
    Gemini reply generator never ends in an exception: the view answers 404
    or 400 without touching the store, 502 when the service fails, and 201
    otherwise. *)
Theorem message_post_always_answers (env : Gemini.Environment) (s : Store)
  (pk : Z) (data : Field pystr) :
  reachable s ->
  exists r,
    response (MessageListCreateView_post (Gemini.generate_reply env) s pk data)
    = Ok r
    /\ (status r = 404%Z \/ status r = 400%Z \/ status r = 502%Z
        \/ status r = 201%Z).
Proof.
  intros Hr. pose proof (reachable_chat_ok Hr) as H.
  unfold MessageListCreateView_post.
  destruct (get_conversation s pk) as [conv |];
    [| eexists; split; [reflexivity | cbn; auto]].
  destruct (CreateMessageSerializer data) as [text |];
    [| eexists; split; [reflexivity | cbn; auto]].
  destruct (@create_message_accepted s conv ROLE_USER text) as (um & s1 & Hum);
    [apply (ok_sequences H) |].
  rewrite Hum. pose proof (chat_ok_create_message _ _ _ H Hum) as H1.
  destruct (Gemini.generate_reply env _ _) as [reply | e] eqn:Hg.
  - destruct (@create_message_accepted s1 conv ROLE_AI reply) as (am & s2 & Ham);
      [apply (ok_sequences H1) |].
    rewrite Ham. eexists; split; [reflexivity | cbn; auto].
  - destruct (generate_reply_classified _ _ _ Hg) as (msg & ->).
    eexists; split; [reflexivity | cbn; auto].
Qed.

Lemma message_post_always_answers_witness :
  exists r,
    response (MessageListCreateView_post
                (Gemini.generate_reply (answering (str "Hi")))
                rated_store 1 (Value (str "Hello again")))
    = Ok r
    /\ (status r = 404%Z \/ status r = 400%Z \/ status r = 502%Z
        \/ status r = 201%Z).
Proof.
  apply (@message_post_always_answers (answering (str "Hi")) rated_store 1
           (Value (str "Hello again"))).
  exact rated_store_reachable.
Defined.

(** ** Reading back what was written *)





(** X6: after an update that answers 200, a GET returns the conversation
    of the answer: the same key, the validated title (none for a title of
    white space only) and the same quality score. *)
Theorem conversation_patch_then_get (s : Store) (pk : Z) (title : Field pystr)
  (conv : Conversation) (q : option pyfloat) :
  response (ConversationDetailView_patch s pk title)
  = Ok {| status := 200; body := ConversationBody conv q |} ->
  ConversationDetailView_get
    (store_after (ConversationDetailView_patch s pk title)) pk
  = Ok {| page_status := 200; page_body := ConversationItem conv q |}
  /\ conv_id conv = pk
  /\ UpdateConversationSerializer title = Some (conv_title conv).
Proof.
  unfold ConversationDetailView_patch.
  destruct (get_conversation s pk) as [c |] eqn:Hget; [| discriminate].
  destruct (UpdateConversationSerializer title) as [t |] eqn:Ht;
    [| discriminate].
  pose proof (get_conversation_id _ _ Hget) as Hid.
  destruct (calculate_quality_score _ _) as [q0 |] eqn:Hq; [| discriminate].
  cbn [response respond store_after]. intros [= <- <-].
  split; [| split; [exact Hid | reflexivity]].
  unfold ConversationDetailView_get.
  rewrite (@get_conversation_save s pk c
             {| conv_id := conv_id c; conv_title := t |} Hget Hid).
  unfold conversation_data. rewrite Hq. reflexivity.
Qed.

Lemma conversation_patch_then_get_witness :
  ConversationDetailView_get
    (store_after (ConversationDetailView_patch rated_store 1 (Value (str "  "))))
    1
  = Ok {| page_status := 200;
          page_body :=
            ConversationItem {| conv_id := 1; conv_title := None |}
                             (Some (FFinite 100)) |}.
Proof.
  apply (@conversation_patch_then_get rated_store 1 (Value (str "  "))
           {| conv_id := 1; conv_title := None |} (Some (FFinite 100))).
  vm_compute. reflexivity.
Defined.

Lemma feedback_post_messages (s : Store) (message_id : Z) (data : FeedbackData) :
  messages (store_after (MessageFeedbackView_post s message_id data))
  = messages s.
Proof. exact (proj2 (proj2 (feedback_post_tables s message_id data))). Qed.

(** X7: on a well-formed store, after a feedback submission that answers
    201 or 200 a GET for the message returns the feedback of the answer;
    and a message that a GET reports to be without feedback is answered 201
    by a valid submission. *)
Theorem feedback_post_then_get (s : Store) (message_id : Z)
  (data : FeedbackData) (code : Z) (fb : Feedback) :
  store_ok s ->
  (code = 201 \/ code = 200)%Z ->
  response (MessageFeedbackView_post s message_id data)
  = Ok {| status := code; body := FeedbackBody fb |} ->
  MessageFeedbackView_get
    (store_after (MessageFeedbackView_post s message_id data)) message_id
  = Ok {| page_status := 200; page_body := FeedbackItem fb |}
  /\ (code = 201%Z <->
      MessageFeedbackView_get s message_id
      = Ok {| page_status := 404;
              page_body :=
                PageDetail (str "No feedback found for this message.") |}).
Proof.
  intros Hok Hcode Hresp.
  pose proof (store_ok_feedback_post message_id data Hok) as Hok'.
  pose proof (feedback_post_messages s message_id data) as Hmsgs.
  destruct (feedback_post_cases s message_id data)
    as [(_ & H201 & H200)
       | [(m & valid & Hget & _ & _ & Hfilter & Hr & Hs)
         | (m & valid & fb0 & Hget & _ & _ & Hfilter & Hr & Hs)]].
  - exfalso. destruct Hcode as [-> | ->];
      [exact (H201 fb Hresp) | exact (H200 fb Hresp)].
  - cbv zeta in Hr, Hs. rewrite Hr in Hresp. injection Hresp as <- <-.
    destruct (get_message_spec _ _ Hget) as [_ Hid].
    assert (Hget' : get_message
                      (store_after (MessageFeedbackView_post s message_id data))
                      message_id = Some m).
    { unfold get_message in *. now rewrite Hmsgs. }
    split.
    + unfold MessageFeedbackView_get, message_feedback. rewrite Hget', Hid.
      rewrite Hs. cbn [feedbacks]. rewrite filter_app, Hfilter. cbn.
      now rewrite Z.eqb_refl.
    + split; [intros _ | reflexivity].
      unfold MessageFeedbackView_get, message_feedback.
      now rewrite Hget, Hid, Hfilter.
  - rewrite Hr in Hresp. injection Hresp as <- <-.
    destruct (get_message_spec _ _ Hget) as [_ Hid].
    assert (Hget' : get_message
                      (store_after (MessageFeedbackView_post s message_id data))
                      message_id = Some m).
    { unfold get_message in *. now rewrite Hmsgs. }
    destruct (filter_single _ _ Hfilter) as [Hin0 Hm0].
    split.
    + unfold MessageFeedbackView_get, message_feedback. rewrite Hget', Hid.
      assert (Hin : In (updated_feedback fb0 valid)
                       (feedbacks (store_after
                          (MessageFeedbackView_post s message_id data)))).
      { rewrite Hs. unfold save_feedback. cbn [feedbacks].
        apply in_map_iff. exists fb0. split; [| assumption].
        cbn. now rewrite Z.eqb_refl. }
      pose proof (filter_unique_key _ _ (ok_one_feedback Hok') Hin) as Hone.
      cbn [updated_feedback fb_message] in Hone. rewrite Hm0 in Hone.
      now rewrite Hone.
    + split; [discriminate |].
      unfold MessageFeedbackView_get, message_feedback.
      rewrite Hget, Hid, Hfilter. discriminate.
Qed.

Lemma feedback_post_then_get_witness :
  MessageFeedbackView_get rated_store 2
  = Ok {| page_status := 200;
          page_body :=
            FeedbackItem {| fb_id := 1; fb_message := 2; fb_rating := true;
                            fb_note := Some (str "Great response!") |} |}.
Proof.
  refine (proj1 (@feedback_post_then_get
                   (store_after
                      (MessageListCreateView_post echo_generator
                         (store_after
                            (ConversationListCreateView_post empty_store Absent))
                         1 (Value (str "Hello"))))
                   2 thumbs_up 201
                   {| fb_id := 1; fb_message := 2; fb_rating := true;
                      fb_note := Some (str "Great response!") |} _ _ _)).
  - apply reachable_ok.
    eapply reachable_step; [| apply step_post_message].
    eapply reachable_step; [| apply step_create_conversation].
    apply reachable_empty.
  - now left.
  - vm_compute. reflexivity.
Defined.

(** ** Pages of conversations *)

Lemma conversation_data_fst (s : Store) (l : list Conversation)
  (data : list (Conversation * option pyfloat)) :
  map_result (conversation_data s) l = Ok data ->
  map fst data = l
  /\ forall c q, In (c, q) data -> calculate_quality_score s c = Ok q.
Proof.
  revert data. induction l as [| x l IH]; cbn; intros data H.
  - injection H as <-. split; [reflexivity | intros ? ? []].
  - unfold conversation_data at 1 in H.
    destruct (calculate_quality_score s x) as [q |] eqn:E; cbn in H;
      [| discriminate].
    destruct (map_result (conversation_data s) l) as [ys |]; cbn in H;
      [| discriminate].
    injection H as <-. destruct (IH ys eq_refl) as [Hfst Hq].
    cbn. split; [now rewrite Hfst |].
    intros c q0 [[= <- <-] | Hin]; [assumption | now apply Hq].
Qed.

(** X4: on a well-formed store the list of conversations always answers
    200, with a limit between 1 and 100, an offset that is not negative and
    the number of all conversations as count; the results are the window of
    [limit] rows from [offset] on in the order by update time, each with its
    quality score, so there are min(limit, count - offset) of them, none
    when the offset is past the end. *)
Theorem conversation_page_window (max_str_digits : Z)
  (order_by_updated_at : list Conversation -> list Conversation) (s : Store)
  (query_params : QueryDict) :
  store_ok s ->
  (forall l, Permutation (order_by_updated_at l) l) ->
  let limit := conversation_limit_of max_str_digits query_params in
  let offset := offset_of max_str_digits query_params in
  let count := len (conversations s) in
  exists data,
    ConversationListCreateView_get max_str_digits order_by_updated_at s
                                   query_params
    = Ok {| page_status := 200;
            page_body := ConversationPage data count offset limit |}
    /\ (1 <= limit <= 100)%Z /\ (0 <= offset)%Z
    /\ map fst data
       = firstn (Z.to_nat limit)
                (skipn (Z.to_nat offset)
                       (order_by_updated_at (conversations s)))
    /\ len data = Z.max 0 (Z.min limit (count - offset))
    /\ forall c q, In (c, q) data ->
         In c (conversations s) /\ calculate_quality_score s c = Ok q.
Proof.
  intros Hok Hperm limit offset count.
  unfold ConversationListCreateView_get.
  fold (conversation_limit_of max_str_digits query_params).
  fold (offset_of max_str_digits query_params). fold limit. fold offset.
  set (items := firstn (Z.to_nat limit)
                  (skipn (Z.to_nat offset)
                         (order_by_updated_at (conversations s)))).
  destruct (@map_result_defined _ _ (conversation_data s) items)
    as (data & Hdata & Hlen).
  { intros c _. unfold conversation_data.
    destruct (quality_score_defined c Hok) as [q ->]. cbn. eauto. }
  destruct (conversation_data_fst _ _ Hdata) as [Hfst Hq].
  exists data. rewrite Hdata. cbn [bind]. split; [reflexivity |].
  assert (Hlimit : (1 <= limit <= 100)%Z).
  { apply (@parse_int_query_param_bounded max_str_digits query_params
             (str "limit") 20 (Some 1%Z) (Some 100%Z)).
    - intros lo hi [= <-] [= <-]. lia.
    - split; lia. }
  assert (Hoffset : (0 <= offset)%Z).
  { apply (@parse_int_query_param_bounded max_str_digits query_params
             (str "offset") 0 (Some 0%Z) None); [discriminate |].
    split; [lia | trivial]. }
  split; [assumption |]. split; [assumption |]. split; [assumption |].
  split.
  { unfold len, count, len. rewrite Hlen. subst items.
    rewrite length_firstn, length_skipn.
    rewrite (Permutation_length (Hperm (conversations s))). lia. }
  intros c q Hc. split; [| now apply Hq].
  apply (in_map fst) in Hc. rewrite Hfst in Hc. cbn in Hc. subst items.
  apply in_firstn in Hc.
  apply (Permutation_in _ (Hperm (conversations s))).
  rewrite <- (firstn_skipn (Z.to_nat offset)). apply in_or_app. now right.
Qed.

Lemma conversation_page_window_witness :
  exists data,
    ConversationListCreateView_get 4300 (@rev Conversation) rated_store
      [(str "limit", str "200"); (str "offset", str "abc")]
    = Ok {| page_status := 200; page_body := ConversationPage data 1 0 100 |}
    /\ len data = 1%Z.
Proof.
  destruct (@conversation_page_window 4300 (@rev Conversation) rated_store
              [(str "limit", str "200"); (str "offset", str "abc")])
    as (data & H & _ & _ & _ & Hlen & _).
  - apply reachable_ok, rated_store_reachable.
  - intros l. apply Permutation_sym, Permutation_rev.
  - exists data. split; [exact H | exact Hlen].
Defined.

Lemma message_page_contents_witness :
  StronglySorted by_sequence
    (map fst
       (page_rows
          (MessageListCreateView_get 4300 two_exchanges 1
             (page_query "1" "2")))).
Proof.
  assert (H : MessageListCreateView_get 4300 two_exchanges 1
                (page_query "1" "2")
              = Ok {| page_status := 200;
                      page_body :=
                        MessagePage
                          (page_rows
                             (MessageListCreateView_get 4300 two_exchanges 1
                                (page_query "1" "2")))
                          3 |})
    by (vm_compute; reflexivity).
  destruct (message_page_contents _ _ _ _ H) as (_ & Hsorted & _).
  exact Hsorted.
Defined.

Lemma message_polling_continues_witness :
  map fst
    (page_rows
       (MessageListCreateView_get 4300 two_exchanges 1 (page_query "0" "2")))
  ++ map fst
       (page_rows
          (MessageListCreateView_get 4300 two_exchanges 1
             (page_query "2" "2")))
  = firstn 4 (messages_after two_exchanges 1 0).
Proof.
  refine (proj1 (@message_polling_continues 4300 two_exchanges 1
                   (page_query "0" "2") (page_query "2" "2")
                   (page_rows
                      (MessageListCreateView_get 4300 two_exchanges 1
                         (page_query "0" "2")))
                   (page_rows
                      (MessageListCreateView_get 4300 two_exchanges 1
                         (page_query "2" "2")))
                   2 4 _ _ _ _ _)).
  - intros m Hm _. vm_compute in Hm.
    repeat (destruct Hm as [<- | Hm]; [vm_compute; discriminate |]).
    destruct Hm.
  - vm_compute. repeat constructor; cbn; intuition discriminate.
  - vm_compute. reflexivity.
  - vm_compute. reflexivity.
  - vm_compute. reflexivity.
Defined.

(** ** Posting a message *)

(** X13: a message posting answered 404 or 400 has changed nothing and has
    not called the reply generator; 404 is the answer for an unknown
    conversation, 400 the answer for a text that is rejected. *)
Theorem message_post_rejected (generate_reply : Generator) (s : Store)
  (pk : Z) (data : Field pystr) (r : Response) :
  let o := MessageListCreateView_post generate_reply s pk data in
  response o = Ok r ->
  (status r = 404 \/ status r = 400)%Z ->
  store_after o = s /\ generator_calls o = []
  /\ (status r = 404%Z <-> get_conversation s pk = None)
  /\ (status r = 400%Z -> CreateMessageSerializer data = None).
Proof.
  cbv zeta. unfold MessageListCreateView_post.
  destruct (get_conversation s pk) as [conv |].
  2: { cbn. intros [= <-] _. cbn. repeat split; auto; discriminate. }
  destruct (CreateMessageSerializer data) as [text |].
  2: { cbn. intros [= <-] _. cbn. repeat split; auto; discriminate. }
  destruct (create_message s conv ROLE_USER text) as [[um s1] | e];
    [| discriminate].
  destruct (generate_reply _ _) as [reply | e].
  - destruct (create_message s1 conv ROLE_AI reply) as [[am s2] | e];
      [| discriminate].
    cbn. intros [= <-]. cbn. intros [H | H]; discriminate.
  - destruct e; try discriminate.
    cbn. intros [= <-]. cbn. intros [H | H]; discriminate.
Qed.

Lemma message_post_rejected_witness :
  store_after (MessageListCreateView_post echo_generator rated_store 1
                 (Value (str "   ")))
  = rated_store.
Proof.
  refine (proj1 (@message_post_rejected echo_generator rated_store 1
                   (Value (str "   "))
                   {| status := 400; body := invalid |} _ _)).
  - vm_compute. reflexivity.
  - right. reflexivity.
Defined.

(** X14: a message posting answered 502 has stored the user message and
    nothing else: one message more, of the user, with the validated text,
    in the conversation asked for; no reply, no change of a title or of a
    feedback; the detail of the answer is the message of the error that the
    generator raised on its single call. *)
Theorem message_post_service_failure (generate_reply : Generator) (s : Store)
  (pk : Z) (data : Field pystr) (b : Body) :
  let o := MessageListCreateView_post generate_reply s pk data in
  response o = Ok {| status := 502; body := b |} ->
  exists text user_msg call,
    CreateMessageSerializer data = Some text
    /\ messages (store_after o) = messages s ++ [user_msg]
    /\ msg_role user_msg = ROLE_USER /\ msg_text user_msg = text
    /\ msg_conversation user_msg = pk
    /\ conversations (store_after o) = conversations s
    /\ feedbacks (store_after o) = feedbacks s
    /\ generator_calls o = [call]
    /\ call_prompt call = TextPrompt text
    /\ exists msg,
         generate_reply (call_history call) (TextPrompt text)
         = Raise (GeminiServiceError msg)
         /\ b = Detail msg.
Proof.
  cbv zeta. unfold MessageListCreateView_post.
  destruct (get_conversation s pk) as [conv |] eqn:Hget; [| discriminate].
  destruct (CreateMessageSerializer data) as [text |]; [| discriminate].
  destruct (create_message s conv ROLE_USER text) as [[um s1] | e] eqn:Hum;
    [| discriminate].
  pose proof (create_message_spec _ _ _ _ Hum)
    as (Hc & Hm & Hf & _ & _ & _ & _ & Hconv & Hrole & Htext).
  apply get_conversation_id in Hget.
  destruct (generate_reply _ _) as [reply | e] eqn:Hg.
  - destruct (create_message s1 conv ROLE_AI reply) as [[am s2] | e];
      discriminate.
  - destruct e; try discriminate.
    cbn [response respond store_after generator_calls]. intros [= <-].
    exists text, um. eexists. repeat split; try eassumption; try reflexivity.
    + congruence.
    + exists msg. split; [exact Hg | reflexivity].
Qed.

Lemma message_post_service_failure_witness :
  exists user_msg,
    messages (store_after (MessageListCreateView_post failing_generator
                             rated_store 1 (Value (str " Anyone? "))))
    = messages rated_store ++ [user_msg]
    /\ msg_text user_msg = str "Anyone?".
Proof.
  destruct (@message_post_service_failure failing_generator rated_store 1
              (Value (str " Anyone? ")) (Detail (str "API Error")) eq_refl)
    as (text & user_msg & call & Htext & Hm & _ & Ht & _).
  exists user_msg. split; [exact Hm |].
  rewrite Ht. vm_compute in Htext. now injection Htext as <-.
Defined.

(** X15: a message posting answered 201 has appended exactly two messages
    to the conversation, the user message with the validated text followed
    by the reply of the generator as message of the AI, with consecutive
    sequence numbers; the answer shows these two messages and no feedback
    has changed. *)
Theorem message_post_appends_exchange (generate_reply : Generator) (s : Store)
  (pk : Z) (data : Field pystr) (b : Body) :
  let o := MessageListCreateView_post generate_reply s pk data in
  response o = Ok {| status := 201; body := b |} ->
  exists text reply user_msg ai_msg call,
    b = MessagesBody user_msg ai_msg
    /\ CreateMessageSerializer data = Some text
    /\ generator_calls o = [call]
    /\ generate_reply (call_history call) (call_prompt call) = Ok reply
    /\ call_prompt call = TextPrompt text
    /\ messages (store_after o) = messages s ++ [user_msg; ai_msg]
    /\ msg_role user_msg = ROLE_USER /\ msg_text user_msg = text
    /\ msg_role ai_msg = ROLE_AI /\ msg_text ai_msg = reply
    /\ msg_conversation user_msg = pk /\ msg_conversation ai_msg = pk
    /\ msg_sequence ai_msg = (msg_sequence user_msg + 1)%Z
    /\ msg_id ai_msg = (msg_id user_msg + 1)%Z
    /\ feedbacks (store_after o) = feedbacks s.
Proof.
  cbv zeta. unfold MessageListCreateView_post.
  destruct (get_conversation s pk) as [conv |] eqn:Hget; [| discriminate].
  destruct (CreateMessageSerializer data) as [text |]; [| discriminate].
  destruct (create_message s conv ROLE_USER text) as [[um s1] | e] eqn:Hum;
    [| discriminate].
  pose proof (create_message_sequence _ _ _ _ Hum) as Hseq.
  pose proof (create_message_spec _ _ _ _ Hum)
    as (Hc & Hm & Hf & _ & Hn & _ & Hid & Hconv & Hrole & Htext).
  apply get_conversation_id in Hget.
  destruct (generate_reply _ _) as [reply | e] eqn:Hg.
  2: { destruct e; discriminate. }
  destruct (create_message s1 conv ROLE_AI reply) as [[am s2] | e] eqn:Ham;
    [| discriminate].
  pose proof (create_message_sequence _ _ _ _ Ham) as Hseq'.
  pose proof (create_message_spec _ _ _ _ Ham)
    as (Hc' & Hm' & Hf' & _ & _ & _ & Hid' & Hconv' & Hrole' & Htext').
  cbn [response respond store_after generator_calls]. intros [= <-].
  exists text, reply, um, am. eexists.
  split; [reflexivity |]. split; [reflexivity |]. split; [reflexivity |].
  split; [exact Hg |]. split; [reflexivity |].
  assert (Hmsgs : messages s2 = messages s ++ [um; am]).
  { rewrite Hm', Hm, <- app_assoc. reflexivity. }
  split.
  { destruct (negb _ && _); [cbn [save_conversation messages] |]; exact Hmsgs. }
  repeat (split; [congruence |]).
  split.
  { rewrite Hseq', Hseq. unfold conversation_messages, len.
    rewrite Hm, filter_app, length_app. cbn [filter].
    rewrite Hconv, Z.eqb_refl. cbn [length]. lia. }
  split; [lia |].
  destruct (negb _ && _); [cbn [save_conversation feedbacks] |]; congruence.
Qed.

Lemma message_post_appends_exchange_witness :
  exists user_msg ai_msg,
    messages two_exchanges = messages rated_store ++ [user_msg; ai_msg]
    /\ msg_sequence ai_msg = (msg_sequence user_msg + 1)%Z.
Proof.
  destruct (@message_post_appends_exchange echo_generator rated_store 1
              (Value (str "Tell me more"))
              (MessagesBody
                 {| msg_id := 3; msg_conversation := 1; msg_role := ROLE_USER;
                    msg_text := str "Tell me more"; msg_sequence := 3 |}
                 {| msg_id := 4; msg_conversation := 1; msg_role := ROLE_AI;
                    msg_text := str "AI Response"; msg_sequence := 4 |}))
    as (text & reply & um & am & call & _ & _ & _ & _ & _ & Hm & _ & _ & _ & _
        & _ & _ & Hs & _).
  - vm_compute. reflexivity.
  - exists um, am. split; [exact Hm | exact Hs].
Defined.

(** *** The history handed to the generator *)

Lemma newest_first_head (m : Message) (l : list Message) :
  (forall x, In x l -> (msg_sequence x < msg_sequence m)%Z) ->
  exists r, sort_desc msg_sequence (l ++ [m]) = m :: r
            /\ Permutation r l.
Proof.
  induction l as [| x l IH]; intros H.
  - exists []. split; [reflexivity | constructor].
  - destruct IH as (r & E & Hr); [intros y Hy; apply H; now right |].
    cbn. change (fold_right (insert_desc msg_sequence) [] (l ++ [m]))
      with (sort_desc msg_sequence (l ++ [m])).
    rewrite E. cbn.
    assert (Hx : (msg_sequence x < msg_sequence m)%Z) by (apply H; now left).
    destruct (Z.leb_spec (msg_sequence m) (msg_sequence x)); [lia |].
    exists (insert_desc msg_sequence x r). split; [reflexivity |].
    rewrite insert_desc_perm. now constructor.
Qed.

(** X16: on a store reached through the API, a message posting that gets
    past validation calls the generator exactly once, with the validated
    text as prompt and a history of at most ten entries, all of them
    messages of the conversation, that ends with the message just posted. *)
Theorem message_post_history (generate_reply : Generator) (s : Store)
  (pk : Z) (data : Field pystr) (conv : Conversation) (text : pystr) :
  reachable s ->
  get_conversation s pk = Some conv ->
  CreateMessageSerializer data = Some text ->
  exists earlier,
    generator_calls (MessageListCreateView_post generate_reply s pk data)
    = [{| call_history := earlier ++ [(ROLE_USER, text)];
          call_prompt := TextPrompt text |}]
    /\ (length earlier <= 9)%nat
    /\ forall entry, In entry earlier ->
         exists m, In m (messages s) /\ msg_conversation m = pk
                   /\ entry = (msg_role m, msg_text m).
Proof.
  intros Hr Hget Htext. pose proof (reachable_chat_ok Hr) as Hok.
  unfold MessageListCreateView_post. rewrite Hget, Htext.
  destruct (@create_message_accepted s conv ROLE_USER text) as (um & s1 & Hum);
    [apply (ok_sequences Hok) |].
  rewrite Hum.
  pose proof (create_message_sequence _ _ _ _ Hum) as Hseq.
  pose proof (create_message_spec _ _ _ _ Hum)
    as (_ & Hm & _ & _ & _ & _ & _ & Hconv & Hrole & Hmt).
  pose proof (get_conversation_id _ _ Hget) as Hpk.
  assert (Hmsgs : conversation_messages s1 conv
                  = conversation_messages s conv ++ [um]).
  { unfold conversation_messages. rewrite Hm, filter_app. cbn [filter].
    now rewrite Hconv, Z.eqb_refl. }
  destruct (@newest_first_head um (conversation_messages s conv))
    as (r & Esort & Hperm).
  { intros x Hx.
    assert (Hin : In (msg_sequence x) (sequences_of s (conv_id conv))).
    { unfold sequences_of. now apply in_map. }
    rewrite (ok_sequences Hok) in Hin. apply count_up_in in Hin.
    rewrite sequences_of_length in Hin.
    rewrite Hseq. unfold len, conversation_messages. lia. }
  rewrite Hmsgs, Esort.
  cbn [map firstn rev]. rewrite Hrole, Hmt.
  exists (rev (firstn 9 (map (fun m => (msg_role m, msg_text m)) r))).
  split.
  { destruct (generate_reply _ _) as [reply | e].
    - destruct (create_message s1 conv ROLE_AI reply) as [[am s2] | e];
        reflexivity.
    - destruct e; reflexivity. }
  split; [rewrite length_rev, length_firstn; lia |].
  intros entry He. apply in_rev, in_firstn, in_map_iff in He.
  destruct He as (m & <- & Hin).
  apply (Permutation_in _ Hperm) in Hin. unfold conversation_messages in Hin.
  apply filter_In in Hin. destruct Hin as [Hin E]. apply Z.eqb_eq in E.
  exists m. repeat split; [assumption | congruence].
Qed.

Lemma message_post_history_witness :
  exists earlier,
    generator_calls
      (MessageListCreateView_post echo_generator rated_store 1
         (Value (str "Tell me more")))
    = [{| call_history := earlier ++ [(ROLE_USER, str "Tell me more")];
          call_prompt := TextPrompt (str "Tell me more") |}]
    /\ (length earlier <= 9)%nat.
Proof.
  destruct (@message_post_history echo_generator rated_store 1
              (Value (str "Tell me more"))
              {| conv_id := 1; conv_title := Some (str "Hello") |}
              (str "Tell me more") rated_store_reachable eq_refl eq_refl)
    as (earlier & H1 & H2 & _).
  exists earlier. split; assumption.
Defined.

(** ** The note of a feedback *)

(** X8: a feedback submission sets the rating to the one submitted.  When
    it creates the feedback (201), the note is the submitted note, stripped,
    or the empty text when no note is given; when it updates a feedback
    (200), a note that is missing or null leaves the stored note as it is,
    and a note that is given, even an empty one, replaces it. *)
Theorem feedback_note_kept_or_replaced (s : Store) (message_id : Z)
  (data : FeedbackData) (code : Z) (fb : Feedback) :
  (code = 201 \/ code = 200)%Z ->
  response (MessageFeedbackView_post s message_id data)
  = Ok {| status := code; body := FeedbackBody fb |} ->
  data_rating data = Value (fb_rating fb)
  /\ fb_message fb = message_id
  /\ match data_note data with
     | Value text => fb_note fb = Some (strip text)
     | WrongType => False
     | _ =>
         (code = 201%Z -> fb_note fb = Some [])
         /\ (code = 200%Z ->
             exists old,
               filter (fun f => (fb_message f =? message_id)%Z) (feedbacks s)
               = [old]
               /\ fb_note fb = fb_note old /\ fb_id fb = fb_id old)
     end.
Proof.
  intros Hcode Hresp.
  destruct (feedback_post_cases s message_id data)
    as [(_ & H201 & H200)
       | [(m & valid & Hget & _ & Hvalid & Hfilter & Hr & _)
         | (m & valid & old & Hget & _ & Hvalid & Hfilter & Hr & _)]].
  - exfalso. destruct Hcode as [-> | ->];
      [exact (H201 fb Hresp) | exact (H200 fb Hresp)].
  - cbv zeta in Hr. rewrite Hr in Hresp. injection Hresp as <- <-.
    unfold CreateFeedbackSerializer in Hvalid.
    destruct (data_rating data) as [| | rating |]; try discriminate.
    destruct (data_note data) as [| | text |]; cbn [fb_rating fb_message fb_note].
    + injection Hvalid as <-. cbn. repeat split; auto; discriminate.
    + injection Hvalid as <-. cbn. repeat split; auto; discriminate.
    + destruct (validate_char 1000 true text) as [v |] eqn:Hv; [| discriminate].
      cbn in Hvalid. injection Hvalid as <-. cbn.
      rewrite (validate_char_strip _ _ _ Hv). auto.
    + discriminate.
  - rewrite Hr in Hresp. injection Hresp as <- <-.
    destruct (filter_single _ _ Hfilter) as [_ Hmsg].
    unfold CreateFeedbackSerializer in Hvalid.
    destruct (data_rating data) as [| | rating |]; try discriminate.
    destruct (data_note data) as [| | text |];
      cbn [updated_feedback fb_rating fb_message fb_note fb_id].
    + injection Hvalid as <-. cbn. repeat split; auto; try discriminate.
      intros _. exists old. auto.
    + injection Hvalid as <-. cbn. repeat split; auto; try discriminate.
      intros _. exists old. auto.
    + destruct (validate_char 1000 true text) as [v |] eqn:Hv; [| discriminate].
      cbn in Hvalid. injection Hvalid as <-. cbn.
      rewrite (validate_char_strip _ _ _ Hv). auto.
    + discriminate.
Qed.

Lemma feedback_note_kept_or_replaced_witness :
  exists old,
    filter (fun f => (fb_message f =? 2)%Z) (feedbacks rated_store) = [old]
    /\ fb_note old = Some (str "Great response!").
Proof.
  assert (H : response (MessageFeedbackView_post rated_store 2
                          {| data_rating := Value false;
                             data_note := Absent |})
              = Ok {| status := 200;
                      body :=
                        FeedbackBody
                          {| fb_id := 1; fb_message := 2; fb_rating := false;
                             fb_note := Some (str "Great response!") |} |})
    by (vm_compute; reflexivity).
  destruct (@feedback_note_kept_or_replaced _ _ _ _ _ (or_intror eq_refl) H)
    as (_ & _ & _ & Hkept).
  destruct (Hkept eq_refl) as (old & Hf & Hn & _).
  exists old. split; [exact Hf | now rewrite <- Hn].
Defined.

(** ** The quality score as a function of the ratings *)

Section Scores.

Local Open Scope Q_scope.

Lemma ilog2_comp (x y : Q) : 0 < x -> x == y -> ilog2 x = ilog2 y.
Proof.
  intros Hx E. apply Z.le_antisymm; apply ilog2_mono; lra.
Qed.

(** rounding does not depend on the way the rational is written *)
Lemma rne_comp (x y : Q) : 0 < x -> x == y -> rne x = rne y.
Proof.
  intros Hx E. rewrite !rne_of_pos by lra. unfold rne_pos. cbv zeta.
  rewrite <- (ilog2_comp Hx E).
  assert (Hr : round_half_even (x / 2 ^ fexp (ilog2 x))
               = round_half_even (y / 2 ^ fexp (ilog2 x))).
  { apply Z.le_antisymm; apply round_half_even_mono; apply div_pow2_le; lra. }
  now rewrite Hr.
Qed.

Lemma ratio_bounds (a b : Z) :
  (0 <= a <= b)%Z -> (0 < b)%Z ->
  0 <= inject_Z a / inject_Z b /\ inject_Z a / inject_Z b <= 1.
Proof.
  intros Ha Hb.
  assert (Hb' : 0 < inject_Z b) by (rewrite (Zlt_Qlt 0 b) in Hb; exact Hb).
  assert (Ha0 : inject_Z 0 <= inject_Z a) by (rewrite <- Zle_Qle; lia).
  change (inject_Z 0) with 0 in Ha0.
  assert (Hab : inject_Z a <= inject_Z b) by (rewrite <- Zle_Qle; lia).
  split; [apply Qle_shift_div_l | apply Qle_shift_div_r]; lra.
Qed.

Lemma int_truediv_value (a b : Z) :
  (0 <= a <= b)%Z -> (0 < b)%Z ->
  int_truediv a b = Ok (FFinite (rne (inject_Z a / inject_Z b)))
  /\ 0 <= rne (inject_Z a / inject_Z b) <= 1.
Proof.
  intros Ha Hb. destruct (ratio_bounds Ha Hb) as [H0 H1].
  unfold int_truediv. destruct (Z.eqb_spec b 0) as [E | _]; [lia |].
  destruct (@round64_bounded _ 1 H0 H1) as (-> & Hq0 & Hq1); [lra |].
  split; [reflexivity |]. split; [assumption | exact Hq1].
Qed.

Lemma c07_bounds : 0 <= c07 /\ c07 <= 1.
Proof. split; vm_compute; discriminate. Qed.

Lemma c03_bounds : 0 <= c03 /\ c03 <= 1.
Proof. split; vm_compute; discriminate. Qed.

Lemma score_formula_value (p f t : Z) :
  (0 <= p <= f)%Z -> (0 < f <= t)%Z ->
  score_formula p f t = Ok (FFinite (score_value p f t)).
Proof.
  intros Hp Hf. unfold score_formula, score_value. cbv zeta.
  destruct (@int_truediv_value p f) as (-> & Hx1); [lia | lia |].
  destruct (@int_truediv_value f t) as (-> & Hx2); [lia | lia |].
  set (x1 := rne (inject_Z p / inject_Z f)) in *.
  set (x2 := rne (inject_Z f / inject_Z t)) in *.
  cbn [bind]. rewrite literal_07, literal_03, literal_100.
  cbn [float_mul].
  pose proof c07_bounds as Hc07. pose proof c03_bounds as Hc03.
  destruct (@round64_bounded (x1 * c07) c07) as (-> & Ha0 & Ha1);
    [nra | nra | lra |].
  destruct (@round64_bounded (x2 * c03) c03) as (-> & Hb0 & Hb1);
    [nra | nra | lra |].
  change (rne c07) with c07 in Ha1. change (rne c03) with c03 in Hb1.
  cbn [float_add].
  destruct (@round64_bounded (rne (x1 * c07) + rne (x2 * c03)) (c07 + c03))
    as (-> & Hs0 & Hs1); [lra | lra | lra |].
  change (rne (c07 + c03)) with 1 in Hs1.
  cbn [float_mul].
  set (w := rne (rne (x1 * c07) + rne (x2 * c03))) in *.
  destruct (@round64_bounded (w * 100) 100) as (-> & Hy0 & Hy1);
    [lra | lra | lra |].
  change (rne 100) with 100 in Hy1.
  set (y := rne (w * 100)) in *.
  cbn [round2].
  set (k := round_half_even (y * 100)).
  assert (Hk0 : (0 <= k)%Z).
  { unfold k. rewrite <- (@round_half_even_inject 0 0) by reflexivity.
    apply round_half_even_mono. lra. }
  assert (Hk1 : (k <= 10000)%Z).
  { unfold k. rewrite <- (@round_half_even_inject (100 * 100) 10000)
      by reflexivity.
    apply round_half_even_mono. lra. }
  assert (Hq0 : 0 <= inject_Z k / 100).
  { apply Qle_shift_div_l; [reflexivity |]. rewrite Zle_Qle in Hk0.
    change (inject_Z 0) with 0 in Hk0. lra. }
  assert (Hq1 : inject_Z k / 100 <= 100).
  { apply Qle_shift_div_r; [reflexivity |]. rewrite Zle_Qle in Hk1.
    change (inject_Z 10000) with 10000 in Hk1. lra. }
  destruct (@round64_bounded (inject_Z k / 100) 100 Hq0 Hq1)
    as (E & _); [lra |].
  now rewrite E.
Qed.

(** more positive ratings among the same ratings never lower the value *)
Lemma score_value_mono (p p' f t : Z) :
  (0 <= p <= p')%Z -> (p' <= f)%Z -> (0 < f <= t)%Z ->
  score_value p f t <= score_value p' f t.
Proof.
  intros Hp Hp' Hf. unfold score_value. cbv zeta.
  destruct (@ratio_bounds p f) as [Hr0 _]; [lia | lia |].
  destruct (@ratio_bounds f t) as [Hf0 _]; [lia | lia |].
  assert (Hf' : 0 < inject_Z f)
    by (rewrite (Zlt_Qlt 0 f) in Hf; exact (proj1 Hf)).
  assert (Hpp : inject_Z p <= inject_Z p') by (rewrite <- Zle_Qle; lia).
  assert (Hratio : inject_Z p / inject_Z f <= inject_Z p' / inject_Z f).
  { unfold Qdiv. apply Qmult_le_compat_r; [exact Hpp |].
    apply Qlt_le_weak, Qinv_lt_0_compat, Hf'. }
  pose proof c07_bounds as Hc07. pose proof c03_bounds as Hc03.
  pose proof (rne_nonneg Hr0) as Hx0.
  pose proof (rne_mono Hr0 Hratio) as Hx.
  set (x := rne (inject_Z p / inject_Z f)) in *.
  set (x' := rne (inject_Z p' / inject_Z f)) in *.
  pose proof (rne_nonneg Hf0) as Hz0.
  set (z := rne (inject_Z f / inject_Z t)) in *.
  assert (Ha0 : 0 <= x * c07) by nra.
  assert (Ha : x * c07 <= x' * c07) by nra.
  pose proof (rne_nonneg Ha0) as Hra0. pose proof (rne_mono Ha0 Ha) as Hra.
  assert (Hb0 : 0 <= z * c03) by nra.
  pose proof (rne_nonneg Hb0) as Hrb0.
  set (a := rne (x * c07)) in *. set (a' := rne (x' * c07)) in *.
  set (b := rne (z * c03)) in *.
  assert (Hs0 : 0 <= a + b) by lra.
  assert (Hs : a + b <= a' + b) by lra.
  pose proof (rne_nonneg Hs0) as Hw0. pose proof (rne_mono Hs0 Hs) as Hw.
  set (w := rne (a + b)) in *. set (w' := rne (a' + b)) in *.
  assert (Hy0 : 0 <= w * 100) by lra.
  assert (Hy : w * 100 <= w' * 100) by lra.
  pose proof (rne_nonneg Hy0) as Hry0. pose proof (rne_mono Hy0 Hy) as Hry.
  set (y := rne (w * 100)) in *. set (y' := rne (w' * 100)) in *.
  assert (Hk : (round_half_even (y * 100) <= round_half_even (y' * 100))%Z)
    by (apply round_half_even_mono; lra).
  assert (Hk0 : (0 <= round_half_even (y * 100))%Z).
  { rewrite <- (@round_half_even_inject 0 0) by reflexivity.
    apply round_half_even_mono. lra. }
  set (k := round_half_even (y * 100)) in *.
  set (k' := round_half_even (y' * 100)) in *.
  rewrite Zle_Qle in Hk, Hk0. change (inject_Z 0) with 0 in Hk0.
  apply rne_mono.
  - apply Qle_shift_div_l; [reflexivity | lra].
  - unfold Qdiv. apply Qmult_le_compat_r; [exact Hk | discriminate].
Qed.

Lemma score_value_all_positive (n : Z) : (0 < n)%Z -> score_value n n n = 100.
Proof.
  intros Hn. unfold score_value. cbv zeta.
  assert (Hn' : 0 < inject_Z n) by (rewrite (Zlt_Qlt 0 n) in Hn; exact Hn).
  assert (E : rne (inject_Z n / inject_Z n) = rne 1).
  { apply rne_comp; [apply Qlt_shift_div_l; lra | field; lra]. }
  rewrite E. vm_compute. reflexivity.
Qed.

Lemma score_value_all_negative (n : Z) : (0 < n)%Z -> score_value 0 n n = 30.
Proof.
  intros Hn. unfold score_value. cbv zeta.
  assert (Hn' : 0 < inject_Z n) by (rewrite (Zlt_Qlt 0 n) in Hn; exact Hn).
  assert (E : rne (inject_Z n / inject_Z n) = rne 1).
  { apply rne_comp; [apply Qlt_shift_div_l; lra | field; lra]. }
  assert (E0 : rne (inject_Z 0 / inject_Z n) = 0).
  { apply rne_of_zero. field. lra. }
  rewrite E, E0. vm_compute. reflexivity.
Qed.

End Scores.

(** X19: between two conversations with the same number of AI messages and
    the same number of rated ones (not more than there are AI messages),
    the one with at least as many positive ratings has at least as high a
    quality score: a positive rating in place of a negative one never
    lowers the score. *)
Theorem quality_score_grows_with_positives (s s' : Store)
  (conv conv' : Conversation) :
  total_ai_of s' conv' = total_ai_of s conv ->
  feedback_count_of s' conv' = feedback_count_of s conv ->
  (0 < feedback_count_of s conv <= total_ai_of s conv)%Z ->
  (positive_count_of s conv <= positive_count_of s' conv')%Z ->
  exists q q',
    calculate_quality_score s conv = Ok (Some (FFinite q))
    /\ calculate_quality_score s' conv' = Ok (Some (FFinite q'))
    /\ (q <= q')%Q.
Proof.
  intros Et Ef Hf Hp.
  pose proof (positive_le_feedback s conv) as H1.
  pose proof (positive_le_feedback s' conv') as H2.
  exists (score_value (positive_count_of s conv) (feedback_count_of s conv)
                      (total_ai_of s conv)),
         (score_value (positive_count_of s' conv') (feedback_count_of s conv)
                      (total_ai_of s conv)).
  split; [| split].
  - rewrite quality_score_unfold by lia.
    rewrite score_formula_value by lia. reflexivity.
  - rewrite quality_score_unfold by lia. rewrite Et, Ef.
    rewrite score_formula_value by lia. reflexivity.
  - apply score_value_mono; lia.
Qed.

Lemma quality_score_grows_with_positives_witness :
  exists q q',
    calculate_quality_score three_ratings rated_conversation
    = Ok (Some (FFinite q))
    /\ calculate_quality_score three_thumbs_up rated_conversation
       = Ok (Some (FFinite q'))
    /\ (q <= q')%Q.
Proof.
  apply (@quality_score_grows_with_positives three_ratings three_thumbs_up
           rated_conversation rated_conversation).
  - reflexivity.
  - reflexivity.
  - vm_compute. split; [reflexivity | discriminate].
  - vm_compute. discriminate.
Defined.

(** X20: when every AI message of a conversation is rated, the quality
    score is defined and lies between 30 and 100; it is exactly 30.0 when
    all the ratings are negative and exactly 100.0 when all are positive,
    whatever the number of messages. *)
Theorem quality_score_full_coverage (s : Store) (conv : Conversation) :
  (0 < total_ai_of s conv)%Z ->
  feedback_count_of s conv = total_ai_of s conv ->
  (exists q, calculate_quality_score s conv = Ok (Some (FFinite q))
             /\ (30 <= q)%Q /\ (q <= 100)%Q)
  /\ (positive_count_of s conv = 0%Z ->
      calculate_quality_score s conv = Ok (Some (FFinite 30)))
  /\ (positive_count_of s conv = feedback_count_of s conv ->
      calculate_quality_score s conv = Ok (Some (FFinite 100))).
Proof.
  intros Ht Ef. pose proof (positive_le_feedback s conv) as Hp.
  assert (E : calculate_quality_score s conv
              = Ok (Some (FFinite (score_value (positive_count_of s conv)
                                     (total_ai_of s conv)
                                     (total_ai_of s conv))))).
  { rewrite quality_score_unfold by lia. rewrite Ef.
    rewrite score_formula_value by lia. reflexivity. }
  rewrite Ef in Hp. split; [| split].
  - eexists. split; [exact E |]. split.
    + rewrite <- (score_value_all_negative Ht). apply score_value_mono; lia.
    + rewrite <- (score_value_all_positive Ht). apply score_value_mono; lia.
  - intros E0. rewrite E, E0. now rewrite (score_value_all_negative Ht).
  - intros E1. rewrite E, E1, Ef. now rewrite (score_value_all_positive Ht).
Qed.

Lemma quality_score_full_coverage_witness :
  calculate_quality_score three_thumbs_up rated_conversation
  = Ok (Some (FFinite 100)).
Proof.
  destruct (@quality_score_full_coverage three_thumbs_up rated_conversation)
    as (_ & _ & H).
  - vm_compute. reflexivity.
  - vm_compute. reflexivity.
  - apply H. vm_compute. reflexivity.
Defined.

(** ** The counts of the insights report *)

Lemma insights_report_parts (generate_reply : Generator) (s : Store)
  (param : option pystr) (report : InsightsReport) :
  response (InsightsView_get generate_reply s param)
  = Ok {| status := 200; body := InsightsBody report |} ->
  exists convs avg,
    map_result (score_conversation s) (conversations s) = Ok convs
    /\ average_of (defined_scores convs) = Ok avg
    /\ usage report
       = {| total_conversations := len (conversations s);
            total_messages := len (messages s);
            total_user_messages :=
              len (filter (fun m => role_eqb (msg_role m) ROLE_USER)
                          (messages s));
            total_ai_messages :=
              len (filter (fun m => role_eqb (msg_role m) ROLE_AI)
                          (messages s)) |}
    /\ quality_scores report
       = {| average := avg;
            distribution := quality_distribution_of (defined_scores convs);
            scored_conversations := firstn 20 convs |}
    /\ themes report = extract_feedback_themes (feedback_notes s) 10.
Proof.
  unfold InsightsView_get.
  destruct (percentage (len (filter fb_rating (feedbacks s)))
                       (len (feedbacks s))) as [sat | e]; cbn [bind];
    [| discriminate].
  destruct (percentage (len (feedbacks s)) _) as [rate | e]; cbn [bind];
    [| discriminate].
  destruct (map_result _ _) as [convs | e] eqn:Hc; cbn [bind];
    [| discriminate].
  destruct (average_of _) as [avg | e] eqn:Ha; cbn [bind]; [| discriminate].
  destruct (include_summary_of param).
  - destruct (generate_reply _ _) as [text | e]; [| destruct e];
      cbn [response respond escape]; intros H; inversion H; subst;
      exists convs, avg; (split; [reflexivity |]); (split; [exact Ha |]);
      repeat split; reflexivity.
  - cbn [response respond]. intros H. inversion H; subst.
    exists convs, avg. split; [reflexivity |]. split; [exact Ha |].
    repeat split; reflexivity.
Qed.

Lemma defined_score_finite (s : Store) (conv : Conversation) (x : pyfloat) :
  store_ok s -> calculate_quality_score s conv = Ok (Some x) ->
  exists q, x = FFinite q /\ (0 <= q)%Q /\ (q <= 100)%Q.
Proof.
  intros Hok.
  destruct (Z.eq_dec (total_ai_of s conv) 0) as [Ht | Ht].
  { unfold calculate_quality_score. cbv zeta.
    fold (total_ai_of s conv). rewrite Ht. discriminate. }
  destruct (Z.eq_dec (feedback_count_of s conv) 0) as [Hf | Hf].
  { unfold calculate_quality_score. cbv zeta.
    fold (total_ai_of s conv). fold (feedback_count_of s conv).
    rewrite Hf. destruct (total_ai_of s conv =? 0)%Z; discriminate. }
  assert (Ht0 : (0 <= total_ai_of s conv)%Z) by (unfold total_ai_of, len; lia).
  assert (Hf0 : (0 <= feedback_count_of s conv)%Z)
    by (unfold feedback_count_of, len; lia).
  pose proof (feedback_count_le_total_ai conv Hok) as Hle.
  rewrite quality_score_unfold by lia.
  destruct (@score_formula_bounds (positive_count_of s conv)
              (feedback_count_of s conv) (total_ai_of s conv)
              (positive_le_feedback s conv))
    as (q & k & -> & Hq0 & Hq1 & _); [lia |].
  cbn [bind]. intros [= <-]. exists q. auto.
Qed.

Lemma scored_rows (s : Store) (l : list Conversation)
  (convs : list ConversationScore) :
  map_result (score_conversation s) l = Ok convs ->
  len (defined_scores convs) = len (filter (has_score s) l)
  /\ length convs = length l
  /\ forall x, In x (defined_scores convs) ->
       exists conv, In conv l /\ calculate_quality_score s conv = Ok (Some x).
Proof.
  revert convs. induction l as [| c l IH]; cbn; intros convs H.
  - injection H as <-. cbn. repeat split; auto. intros ? [].
  - unfold score_conversation at 1 in H. unfold has_score at 1.
    destruct (calculate_quality_score s c) as [q |] eqn:Eq; cbn [bind] in H;
      [| discriminate].
    destruct (map_result (score_conversation s) l) as [ys |]; cbn [bind] in H;
      [| discriminate].
    injection H as <-. destruct (IH ys eq_refl) as (Hlen & Hn & Hin).
    unfold defined_scores in *. cbn [flat_map cs_quality_score length].
    split; [| split; [now rewrite Hn |]].
    + destruct q as [x |]; [| exact Hlen].
      unfold len in *. cbn [app length]. lia.
    + intros x Hx. apply in_app_or in Hx. destruct Hx as [Hx | Hx].
      * destruct q as [x0 |]; [| destruct Hx].
        destruct Hx as [<- | []]. exists c. auto.
      * destruct (Hin x Hx) as (conv & Hc & E). exists conv. auto.
Qed.

(** a finite score falls into exactly one of the four classes *)
Lemma distribution_partition (scores : list pyfloat) :
  Forall (fun x => exists q, x = FFinite q) scores ->
  let d := quality_distribution_of scores in
  (excellent d + good d + fair d + poor d = len scores)%Z.
Proof.
  cbv zeta. unfold quality_distribution_of, count_if, len. cbn.
  induction 1 as [| x l (q & ->) _ IH]; cbn [filter length]; [reflexivity |].
  change (literal 80) with (FFinite 80) in *.
  change (literal 60) with (FFinite 60) in *.
  change (literal 40) with (FFinite 40) in *.
  cbn [float_leb float_ltb].
  destruct (Qle_bool 80 q) eqn:E80, (Qle_bool 60 q) eqn:E60,
           (Qle_bool 40 q) eqn:E40; cbn [negb andb length]; try lia;
    exfalso;
    repeat match goal with
           | H : Qle_bool _ _ = true |- _ => apply Qle_bool_iff in H
           | H : Qle_bool _ _ = false |- _ =>
               apply not_true_iff_false in H; rewrite Qle_bool_iff in H
           end; lra.
Qed.

(** X21: in a report on a well-formed store the counts add up: the
    messages are those of the user and those of the AI, the feedback is the
    positive and the negative one, and the four classes of the quality
    distribution together count each conversation that has a quality score
    once; the list of scored conversations shows the first 20. *)
Theorem insights_counts_add_up (generate_reply : Generator) (s : Store)
  (param : option pystr) (report : InsightsReport) :
  store_ok s ->
  response (InsightsView_get generate_reply s param)
  = Ok {| status := 200; body := InsightsBody report |} ->
  let u := usage report in
  let f := feedback report in
  let d := distribution (quality_scores report) in
  (total_user_messages u + total_ai_messages u = total_messages u)%Z
  /\ (positive_feedback f + negative_feedback f = total_feedback f)%Z
  /\ (excellent d + good d + fair d + poor d
      = len (filter (has_score s) (conversations s)))%Z
  /\ (excellent d + good d + fair d + poor d <= total_conversations u)%Z
  /\ len (scored_conversations (quality_scores report))
     = Z.min 20 (total_conversations u).
Proof.
  intros Hok H. cbv zeta.
  destruct (insights_report_parts _ _ _ H)
    as (convs & avg & Hconvs & Havg & Eu & Eq & Et).
  destruct (insights_feedback_stats _ _ _ H)
    as (sat & rate & Hsat & Hrate & Ef & Eai).
  rewrite Eu, Eq, Ef.
  cbn [total_user_messages total_ai_messages total_messages
       positive_feedback negative_feedback total_feedback distribution
       total_conversations scored_conversations].
  destruct (scored_rows _ _ Hconvs) as (Hlen & Hn & Hin).
  assert (Hparts :
            let d := quality_distribution_of (defined_scores convs) in
            (excellent d + good d + fair d + poor d
             = len (defined_scores convs))%Z).
  { apply distribution_partition. apply Forall_forall. intros x Hx.
    destruct (Hin x Hx) as (conv & _ & E).
    destruct (defined_score_finite _ Hok E) as (q & -> & _). eauto. }
  cbv zeta in Hparts.
  split; [| split; [| split; [| split]]].
  - unfold len. rewrite <- (filter_length
                              (fun m => role_eqb (msg_role m) ROLE_USER)
                              (messages s)).
    rewrite Nat2Z.inj_add. f_equal. f_equal. f_equal.
    apply filter_ext. intros m. now destruct (msg_role m).
  - unfold len. rewrite <- (filter_length fb_rating (feedbacks s)).
    now rewrite Nat2Z.inj_add.
  - now rewrite Hparts.
  - rewrite Hparts, Hlen. unfold len.
    pose proof (filter_length_le (has_score s) (conversations s)). lia.
  - unfold len. rewrite length_firstn, Hn. lia.
Qed.

Lemma insights_counts_add_up_witness :
  exists report,
    response (InsightsView_get echo_generator rated_store no_summary)
    = Ok {| status := 200; body := InsightsBody report |}
    /\ (excellent (distribution (quality_scores report))
        + good (distribution (quality_scores report))
        + fair (distribution (quality_scores report))
        + poor (distribution (quality_scores report))
        = len (filter (has_score rated_store) (conversations rated_store)))%Z.
Proof.
  destruct (@insights_statistics_defined echo_generator rated_store
              (reachable_ok rated_store_reachable)) as [report H].
  { vm_compute. reflexivity. }
  exists report. split; [exact H |].
  destruct (@insights_counts_add_up echo_generator rated_store no_summary
              report (reachable_ok rated_store_reachable) H)
    as (_ & _ & Hd & _).
  exact Hd.
Defined.

(** ** The themes that are selected *)

Lemma lower_char_twice (c : ascii) : lower_char (lower_char c) = lower_char c.
Proof. destruct c as [[] [] [] [] [] [] [] []]; reflexivity. Qed.

Lemma lower_twice (s : pystr) : lower (lower s) = lower s.
Proof.
  unfold lower. rewrite map_map. apply map_ext. exact lower_char_twice.
Qed.

Lemma count_words_lower (notes : list (option pystr)) :
  count_words (map (option_map lower) notes) = count_words notes.
Proof.
  unfold count_words. generalize (@nil (pystr * Z)) as tbl.
  induction notes as [| note notes IH]; intros tbl; [reflexivity |].
  cbn [map fold_left]. rewrite IH. f_equal.
  destruct note as [[| c r] |]; [reflexivity | | reflexivity].
  cbn [option_map]. change (lower (c :: r)) with (lower_char c :: lower r).
  unfold note_words. change (lower_char c :: lower r) with (lower (c :: r)).
  now rewrite lower_twice.
Qed.

Lemma count_words_present (notes : list (option pystr)) :
  count_words (filter truthy notes) = count_words notes.
Proof.
  unfold count_words. generalize (@nil (pystr * Z)) as tbl.
  induction notes as [| note notes IH]; intros tbl; [reflexivity |].
  cbn [filter]. destruct note as [[| c r] |]; cbn [truthy fold_left];
    now rewrite IH.
Qed.

(** X23: the themes do not depend on the letter case of the notes, nor on
    the notes that are absent or empty: lower-casing every note, or leaving
    out the absent and the empty ones, gives the same themes. *)
Theorem themes_ignore_case_and_blanks (notes : list (option pystr))
  (top_n : Z) :
  extract_feedback_themes (map (option_map lower) notes) top_n
  = extract_feedback_themes notes top_n
  /\ extract_feedback_themes (filter truthy notes) top_n
     = extract_feedback_themes notes top_n.
Proof.
  unfold extract_feedback_themes.
  now rewrite count_words_lower, count_words_present.
Qed.

Lemma counted_word_in_table (seen : list pystr) (w : pystr) :
  In w seen -> In (w, occurrences w seen) (counter_update [] seen).
Proof.
  intros Hw.
  assert (Hk : In w (map fst (counter_update [] seen)))
    by (apply counter_update_keys; now right).
  apply in_map_iff in Hk. destruct Hk as ([k c] & Ek & Hin). cbn in Ek. subst k.
  assert (Hnd : NoDup (map fst (counter_update [] seen)))
    by (apply counter_update_nodup; constructor).
  pose proof (@counter_get_in _ _ _ Hnd Hin) as Hc.
  rewrite counter_get_update in Hc.
  change (counter_get w []) with 0%Z in Hc. rewrite Z.add_0_l in Hc.
  now rewrite Hc.
Qed.

Lemma themes_first (notes : list (option pystr)) (n top_n : Z) :
  (n <= top_n)%Z ->
  extract_feedback_themes notes n
  = firstn (Z.to_nat n) (extract_feedback_themes notes top_n).
Proof.
  intros Hn. unfold extract_feedback_themes, most_common.
  rewrite firstn_map, firstn_firstn. f_equal. f_equal. lia.
Qed.

(** X24: the themes are the most frequent words: a counted word is left out
    only when [top_n] themes are given and each of them is more frequent, or
    as frequent and seen earlier; and the themes for a smaller [top_n] are
    the first ones of the themes for a larger. *)
Theorem themes_keep_the_most_frequent (notes : list (option pystr))
  (top_n : Z) :
  let seen := counted_words notes in
  let out := extract_feedback_themes notes top_n in
  (forall w, In w seen ->
     In w (map word out)
     \/ (len out = Z.max 0 top_n
         /\ forall t, In t out ->
              ranked_before seen t
                {| word := w; count := occurrences w seen |}))
  /\ (forall n, (n <= top_n)%Z ->
        extract_feedback_themes notes n = firstn (Z.to_nat n) out).
Proof.
  cbv zeta. unfold extract_feedback_themes, most_common.
  rewrite count_words_spec. set (seen := counted_words notes).
  set (sorted := sort_desc snd (counter_update [] seen)).
  assert (Hsorted : StronglySorted
                      (key_rank_order snd (fun a => first_index (fst a) seen))
                      sorted)
    by exact (sort_desc_sorted snd (fun a => first_index (fst a) seen)
                (table_order seen)).
  split.
  - intros w Hw. apply counted_word_in_table in Hw.
    apply (Permutation_in _ (Permutation_sym (sort_desc_perm snd _))) in Hw.
    fold sorted in Hw.
    rewrite <- (firstn_skipn (Z.to_nat top_n) sorted) in Hw, Hsorted.
    apply in_app_or in Hw. destruct Hw as [Hw | Hw].
    + left. rewrite map_map. cbn.
      change w with (fst (w, occurrences w seen)). now apply in_map.
    + right. split.
      * unfold len. rewrite length_map, length_firstn.
        destruct (Nat.le_gt_cases (Z.to_nat top_n) (length sorted))
          as [Hle | Hgt]; [lia |].
        rewrite skipn_all2 in Hw by lia. destruct Hw.
      * destruct (sorted_split _ _ Hsorted) as (_ & _ & Hcross).
        intros t Ht. apply in_map_iff in Ht. destruct Ht as ([k c] & <- & Hin).
        exact (Hcross _ _ Hin Hw).
  - intros n Hn. fold sorted. fold seen.
    pose proof (themes_first notes Hn) as E.
    unfold extract_feedback_themes, most_common in E.
    rewrite count_words_spec in E. exact E.
Qed.

(** ** The prompt of the summary *)

(** X22: when the summary is asked for and the statistics are computed, the
    generator is called once, without history, with a prompt that carries
    the counts of the report and, as top themes, the five most frequent
    themes (none when there is no theme); the summary of the report is the
    reply, or nothing when the generator fails with its classified error. *)
Theorem summary_prompt_contents (generate_reply : Generator) (s : Store)
  (param : option pystr) (report : InsightsReport) :
  include_summary_of param = true ->
  response (InsightsView_get generate_reply s param)
  = Ok {| status := 200; body := InsightsBody report |} ->
  exists stats,
    generator_calls (InsightsView_get generate_reply s param)
    = [{| call_history := []; call_prompt := SummaryPrompt stats |}]
    /\ in_total_conversations stats = total_conversations (usage report)
    /\ in_total_messages stats = total_messages (usage report)
    /\ in_total_feedback stats = total_feedback (feedback report)
    /\ in_distribution stats = distribution (quality_scores report)
    /\ in_top_themes stats
       = match themes report with
         | [] => None
         | _ => Some (map word (extract_feedback_themes (feedback_notes s) 5))
         end
    /\ summary report
       = match generate_reply [] (SummaryPrompt stats) with
         | Ok text => Some text
         | Raise _ => None
         end.
Proof.
  intros Hinc. unfold InsightsView_get. rewrite Hinc.
  destruct (percentage (len (filter fb_rating (feedbacks s)))
                       (len (feedbacks s))) as [sat | e]; cbn [bind];
    [| discriminate].
  destruct (percentage (len (feedbacks s)) _) as [rate | e]; cbn [bind];
    [| discriminate].
  destruct (map_result _ _) as [convs | e]; cbn [bind]; [| discriminate].
  destruct (average_of _) as [avg | e]; cbn [bind]; [| discriminate].
  rewrite (@themes_first (feedback_notes s) 5 10) by lia.
  change (Z.to_nat 5) with 5%nat.
  match goal with
  | |- context [generate_reply [] (SummaryPrompt ?st)] => set (stats := st)
  end.
  destruct (generate_reply [] (SummaryPrompt stats)) as [text | e] eqn:Hg;
    [| destruct e]; cbn [response respond escape generator_calls];
    try discriminate; intros [= <-]; exists stats;
    (split; [reflexivity |]); (split; [reflexivity |]);
    (split; [reflexivity |]); (split; [reflexivity |]);
    (split; [reflexivity |]); (split; [reflexivity |]);
    rewrite Hg; reflexivity.
Qed.

Lemma summary_prompt_contents_witness :
  exists stats,
    generator_calls (InsightsView_get echo_generator rated_store None)
    = [{| call_history := []; call_prompt := SummaryPrompt stats |}]
    /\ in_top_themes stats = Some [str "great"].
Proof.
  assert (H : exists report,
             response (InsightsView_get echo_generator rated_store None)
             = Ok {| status := 200; body := InsightsBody report |}
             /\ themes report
                = [{| word := str "great"; count := 1 |}])
    by (eexists; split; vm_compute; reflexivity).
  destruct H as (report & H & Ht).
  destruct (@summary_prompt_contents echo_generator rated_store None report
              eq_refl H) as (stats & Hc & _ & _ & _ & _ & Hthemes & _).
  exists stats. split; [exact Hc |]. rewrite Hthemes, Ht. reflexivity.
Defined.

(** ** The read-only views on a well-formed store *)

Lemma one_feedback_at_most (l : list Feedback) (k : Z) :
  NoDup (map fb_message l) ->
  filter (fun fb => (fb_message fb =? k)%Z) l = []
  \/ exists fb, filter (fun fb => (fb_message fb =? k)%Z) l = [fb].
Proof.
  intros Hnd.
  destruct (filter (fun fb => (fb_message fb =? k)%Z) l) as [| fb r] eqn:E;
    [now left |].
  right. exists fb.
  assert (Hin : In fb (filter (fun fb => (fb_message fb =? k)%Z) l))
    by (rewrite E; now left).
  apply filter_In in Hin. destruct Hin as [Hin Hk]. apply Z.eqb_eq in Hk.
  rewrite <- Hk in E. rewrite (@filter_unique_key _ _ Hnd Hin) in E.
  now rewrite <- E.
Qed.

Lemma message_feedback_defined (s : Store) (m : Message) :
  store_ok s ->
  exists fb, message_feedback s m = Ok fb
             /\ (fb = None <->
                 filter (fun f => (fb_message f =? msg_id m)%Z) (feedbacks s)
                 = []).
Proof.
  intros Hok. unfold message_feedback.
  destruct (@one_feedback_at_most (feedbacks s) (msg_id m)
              (ok_one_feedback Hok))
    as [E | (fb & E)]; rewrite E.
  - exists None. tauto.
  - exists (Some fb). split; [reflexivity |]. split; discriminate.
Qed.

(** X25: on a well-formed store the read-only views never end in an
    exception.  The conversation and the message list answer 404 exactly
    for an unknown conversation and 200 otherwise; the feedback of a message
    is answered 200 exactly when the message exists and has a feedback, and
    404 otherwise. *)
Theorem read_views_always_answer (max_str_digits : Z) (s : Store) (pk : Z)
  (query_params : QueryDict) :
  store_ok s ->
  (exists r, ConversationDetailView_get s pk = Ok r
             /\ (page_status r = 404%Z <-> get_conversation s pk = None)
             /\ (page_status r = 200%Z <-> get_conversation s pk <> None))
  /\ (exists r,
        MessageListCreateView_get max_str_digits s pk query_params = Ok r
        /\ (page_status r = 404%Z <-> get_conversation s pk = None)
        /\ (page_status r = 200%Z <-> get_conversation s pk <> None))
  /\ (exists r,
        MessageFeedbackView_get s pk = Ok r
        /\ (page_status r = 200%Z \/ page_status r = 404%Z)
        /\ (page_status r = 200%Z <->
            exists m fb, get_message s pk = Some m /\ In fb (feedbacks s)
                         /\ fb_message fb = pk)).
Proof.
  intros Hok. split; [| split].
  - unfold ConversationDetailView_get.
    destruct (get_conversation s pk) as [conv |].
    + unfold conversation_data.
      destruct (quality_score_defined conv Hok) as [q ->]. cbn.
      eexists. split; [reflexivity |]. cbn.
      split; split; try discriminate; auto.
    + eexists. split; [reflexivity |]. cbn.
      split; split; try discriminate; auto. intros H. now destruct H.
  - unfold MessageListCreateView_get.
    destruct (get_conversation s pk) as [conv |].
    + match goal with
      | |- context [map_result (message_data s) ?l] =>
          destruct (@map_result_defined _ _ (message_data s) l)
            as (data & -> & _)
      end.
      { intros m _. unfold message_data.
        destruct (@message_feedback_defined s m Hok) as (fb & -> & _).
        cbn. eauto. }
      cbn. eexists. split; [reflexivity |]. cbn.
      split; split; try discriminate; auto.
    + eexists. split; [reflexivity |]. cbn.
      split; split; try discriminate; auto. intros H. now destruct H.
  - unfold MessageFeedbackView_get.
    destruct (get_message s pk) as [m |] eqn:Hget.
    + destruct (get_message_spec _ _ Hget) as [_ Hid].
      destruct (@message_feedback_defined s m Hok) as (fb & E & Hnone).
      rewrite E. cbn [bind]. rewrite Hid in Hnone.
      destruct fb as [fb |].
      * eexists. split; [reflexivity |]. cbn. split; [now left |].
        split; [intros _ | reflexivity].
        unfold message_feedback in E. rewrite Hid in E.
        destruct (filter _ (feedbacks s)) as [| f [| f' r]] eqn:Ef;
          try discriminate.
        destruct (filter_single _ _ Ef) as [Hin Hm]. exists m, f. auto.
      * eexists. split; [reflexivity |]. cbn. split; [now right |].
        split; [discriminate |]. intros (m' & f & _ & Hin & Hm).
        exfalso. pose proof (proj1 Hnone eq_refl) as Hempty.
        pose proof (filter_nil_not_in _ _ Hempty f Hin) as Hf. cbn in Hf.
        apply Z.eqb_neq in Hf. contradiction.
    + eexists. split; [reflexivity |]. cbn. split; [now right |].
      split; [discriminate |]. intros (m & _ & H & _). discriminate.
Qed.

Lemma read_views_always_answer_witness :
  exists r,
    MessageFeedbackView_get rated_store 2 = Ok r /\ page_status r = 200%Z.
Proof.
  destruct (@read_views_always_answer 4300 rated_store 2 []
              (reachable_ok rated_store_reachable))
    as (_ & _ & r & Hr & _ & H200).
  exists r. split; [exact Hr |]. apply H200.
  exists {| msg_id := 2; msg_conversation := 1; msg_role := ROLE_AI;
            msg_text := str "AI Response"; msg_sequence := 2 |},
         {| fb_id := 1; fb_message := 2; fb_rating := true;
            fb_note := Some (str "Great response!") |}.
  split; [reflexivity |]. split; [now left | reflexivity].
Defined.

(** ** The feedback rate *)

(** X26: in a report on a well-formed store there is at most one feedback
    per AI message, so the feedback rate, when it is not 0 by the guard, is
    a float between 0 and 100 written with two decimal places; it needs no
    cap. *)
Theorem feedback_rate_at_most_100 (generate_reply : Generator) (s : Store)
  (param : option pystr) (report : InsightsReport) :
  store_ok s ->
  response (InsightsView_get generate_reply s param)
  = Ok {| status := 200; body := InsightsBody report |} ->
  (total_feedback (feedback report) <= total_ai_messages (usage report))%Z
  /\ (total_ai_messages (usage report) <> 0%Z ->
      exists q k,
        feedback_rate (feedback report) = NFloat (FFinite q)
        /\ (0 <= q)%Q /\ (q <= 100)%Q /\ (0 <= k <= 10000)%Z
        /\ FFinite q = two_decimals k).
Proof.
  intros Hok H.
  destruct (insights_feedback_stats _ _ _ H)
    as (sat & rate & _ & Hrate & Ef & Eai).
  pose proof (total_feedback_le_total_ai Hok) as Hle.
  rewrite Ef, Eai. cbn [total_feedback feedback_rate].
  split; [exact Hle |]. intros Hai.
  apply percentage_spec in Hrate; [| unfold len; lia].
  destruct Hrate as [_ Hrate]. destruct (Hrate Hai) as (ratio & Hdiv & ->).
  destruct (@percent_rounded_bounds (len (feedbacks s))
              (len (filter (fun m => role_eqb (msg_role m) ROLE_AI)
                           (messages s))))
    as (q & k & Hq & Hq0 & Hq1 & Hk & Hdec).
  - unfold len in *. lia.
  - unfold len in *. lia.
  - rewrite (@percent_rounded_spec _ _ _ Hdiv) in Hq. inversion Hq as [Hq'].
    exists q, k. cbn [round_number]. rewrite Hq'. auto.
Qed.

Lemma feedback_rate_at_most_100_witness :
  exists report,
    response (InsightsView_get echo_generator rated_store no_summary)
    = Ok {| status := 200; body := InsightsBody report |}
    /\ (total_feedback (feedback report)
        <= total_ai_messages (usage report))%Z.
Proof.
  destruct (@insights_statistics_defined echo_generator rated_store
              (reachable_ok rated_store_reachable)) as [report H].
  { vm_compute. reflexivity. }
  exists report. split; [exact H |].
  exact (proj1 (@feedback_rate_at_most_100 echo_generator rated_store
                  no_summary report (reachable_ok rated_store_reachable) H)).
Defined.

(** ** Checks of the integer conversion against the Python library

    The right-hand sides are the values that [int] of the interpreter
    returns on these texts ([None] for [ValueError]), and the values that the
    tests of [parse_int_query_param] expect. *)

Example int_check_1 :
  int_of_str 4300 (str " +5 ") = Some 5%Z.
Proof. reflexivity. Qed.

Example int_check_2 :
  int_of_str 4300 (str "1_000") = Some 1000%Z.
Proof. reflexivity. Qed.

Example int_check_3 :
  int_of_str 4300 (str "1__0") = None.
Proof. reflexivity. Qed.

Example int_check_4 :
  int_of_str 4300 (str "_1") = None.
Proof. reflexivity. Qed.

Example int_check_5 :
  int_of_str 4300 (str "1_") = None.
Proof. reflexivity. Qed.

Example int_check_6 :
  int_of_str 4300 (str "-007") = Some (-7)%Z.
Proof. reflexivity. Qed.

Example int_check_7 :
  int_of_str 4300 [] = None.
Proof. reflexivity. Qed.

Example int_check_8 :
  int_of_str 4300 (str "+") = None.
Proof. reflexivity. Qed.

Example int_check_9 :
  int_of_str 4300 (str "- 5") = None.
Proof. reflexivity. Qed.

Example int_check_10 :
  int_of_str 4300 (str "0x10") = None.
Proof. reflexivity. Qed.

Example int_check_11 :
  int_of_str 4300 (str "1.5") = None.
Proof. reflexivity. Qed.

Example int_check_12 :
  int_of_str 4300 (str "12 3") = None.
Proof. reflexivity. Qed.

Example int_check_13 :
  int_of_str 4300 (codes [9; 52; 50; 10]%nat) = Some 42%Z.
Proof. reflexivity. Qed.

Example int_check_14 :
  int_of_str 4300 (codes [28; 53]%nat) = None.
Proof. reflexivity. Qed.

Example int_check_15 :
  int_of_str 4300 (codes [160; 53; 133]%nat) = Some 5%Z.
Proof. reflexivity. Qed.

Example int_check_16 :
  int_of_str 4300 (codes [53; 0]%nat) = None.
Proof. reflexivity. Qed.

Example int_check_17 :
  int_of_str 4300 (str "--5") = None.
Proof. reflexivity. Qed.

Example int_check_18 :
  int_of_str 4300 (str "+-5") = None.
Proof. reflexivity. Qed.

Example int_check_19 :
  int_of_str 4300 (codes [178]%nat) = None.
Proof. reflexivity. Qed.

Example int_check_20 :
  int_of_str 4300 (str "00") = Some 0%Z.
Proof. reflexivity. Qed.

Example int_check_21 :
  int_of_str 4300 (str "-0") = Some 0%Z.
Proof. reflexivity. Qed.

Example int_check_limit_reached :
  int_of_str 641 (repeat "1"%char 641) <> None.
Proof. vm_compute. discriminate. Qed.

Example int_check_limit_passed :
  int_of_str 641 (repeat "1"%char 642) = None.
Proof. vm_compute. reflexivity. Qed.

Example int_check_no_limit :
  int_of_str 0 (repeat "1"%char 642) <> None.
Proof. vm_compute. discriminate. Qed.

Example parse_check_1 :
  parse_int_query_param 4300 [((str "limit"), (str "10"))] (str "limit") 20 None None = 10%Z.
Proof. reflexivity. Qed.

Example parse_check_2 :
  parse_int_query_param 4300 [] (str "limit") 20 None None = 20%Z.
Proof. reflexivity. Qed.

Example parse_check_3 :
  parse_int_query_param 4300 [((str "limit"), (str "abc"))] (str "limit") 20 None None = 20%Z.
Proof. reflexivity. Qed.

Example parse_check_4 :
  parse_int_query_param 4300 [((str "limit"), (str "-5"))] (str "limit") 20 (Some 1%Z) None = 1%Z.
Proof. reflexivity. Qed.

Example parse_check_5 :
  parse_int_query_param 4300 [((str "limit"), (str "200"))] (str "limit") 20 None (Some 100%Z) = 100%Z.
Proof. reflexivity. Qed.

Example parse_check_6 :
  parse_int_query_param 4300 [((str "limit"), (str "50"))] (str "limit") 20 (Some 1%Z) (Some 100%Z) = 50%Z.
Proof. reflexivity. Qed.

Example parse_check_7 :
  parse_int_query_param 4300 [((str "limit"), (str "0"))] (str "limit") 20 (Some 1%Z) (Some 100%Z) = 1%Z.
Proof. reflexivity. Qed.

Example parse_check_8 :
  parse_int_query_param 4300 [((str "limit"), (str "150"))] (str "limit") 20 (Some 1%Z) (Some 100%Z) = 100%Z.
Proof. reflexivity. Qed.

Example parse_check_9 :
  parse_int_query_param 4300 [((str "limit"), (str "x"))] (str "limit") 500 (Some 1%Z) (Some 100%Z) = 500%Z.
Proof. reflexivity. Qed.

Example parse_check_10 :
  parse_int_query_param 4300 [((str "offset"), (str "7"))] (str "limit") 500 (Some 1%Z) (Some 100%Z) = 100%Z.
Proof. reflexivity. Qed.
